(** * Video_Search: the moment-aggregation engine of [video_search.py]

    A shallow embedding of the aggregation code of [src/video_search.py]
    (segment extraction with end-snapping, the pooled "box" aggregation, the
    time-aligned "line" aggregation and the CSV rows they emit), and the
    properties the specification states about it.

    Numbers.  A finite Python float is the rational [Q] it stands for; a
    NaN (what pandas gives for a missing cell, for the min/max of an empty
    column and for the standard deviation of a one-value sample) is [None]
    in [option Q].  Comparisons against NaN are false, arithmetic on NaN is
    NaN.  The arithmetic the source writes out ([et - st],
    [pure_duration + post_extra], [st - pre_duration],
    [available_end + tol], [seg["Time"] - st], [common_time[i] * 1000],
    ...) is binary64 arithmetic: every sum, difference and product is
    rounded to the nearest double ([Float.add], [Float.sub], [Float.mul]),
    and the literal [0.05] is the double nearest to it.  These decide
    which rows are selected, whether an end is snapped, whether a moment
    is excluded and which integer a CSV cell holds.  The routines of numpy
    and pandas ([np.linspace], [np.interp], [np.mean], [Series.mean],
    [Series.std], ...) are given by their mathematical definitions; their
    results are to be read up to the rounding of the last bits.  Overflow
    to an infinity is outside the model, and so is a start or an end that
    is a NaN or an infinity: [Form.post] marks a request that holds one.

    Requests.  FastAPI hands the four form fields [video_id], [start_time],
    [end_time] and [ad_name] over as parallel lists and every loop reads
    entry [i] of each; a request is the list of these rows ([Moment]).

    Store.  [os.path.exists] and [pd.read_csv(..., header=1)] are the read
    path of the per-video datasets; a [Store] says, per video identifier,
    whether the file is absent, unreadable, or which frame it holds. *)

From Stdlib Require Import List String Ascii Bool Arith ZArith QArith Qabs Qminmax.
From Stdlib Require Import Qround Qpower Qreduction.
From Stdlib Require Import Lia Lqa Permutation DecimalString Sorting.Sorted.
Import ListNotations.

Local Open Scope string_scope.
Local Open Scope list_scope.
Local Open Scope Q_scope.

(* ================================================================== *)
(** ** Values                                                          *)
(* ================================================================== *)

(** A float that may be NaN. *)
Definition cell : Type := option Q.

Definition NaN : cell := None.

(** An entry of [start_time] or [end_time] as a function body reads it
    with [float(...)]: a finite float [Num x], or a value on which
    [float] raises [ValueError].  The bodies catch that exception and go
    on with the next moment; the declared type [list[float]] of the
    fields keeps such a value from reaching them (see [Form] below). *)
Inductive form_value : Type :=
  | Num (x : Q)
  | Unparseable (s : string).

Definition float (v : form_value) : option Q :=
  match v with
  | Num x => Some x
  | Unparseable _ => None
  end.

Record Moment : Type := mkMoment {
  video_id : string;
  start_time : form_value;
  end_time : form_value;
  ad_name : string
}.

(** [ORDERED_MEASURES], lines 51-64. *)
Definition ORDERED_MEASURES : list string :=
  [ "Approach / Withdraw";
    "Engagement";
    "Emotional Intensity";
    "Memory Encoding - Detail";
    "Memory Encoding - Global";
    "Memory Encoding - Composite";
    "General Attention - Detail";
    "General Attention - Global";
    "General Attention - Composite";
    "Visual Attention - Detail";
    "Visual Attention - Global";
    "Visual Attention - Composite" ].

(** The decimal [0.05] of the fixed tolerance ([tol] in
    [aggregated_line]). *)
Definition tol : Q := 5 # 100.

(* ================================================================== *)
(** ** Binary64 arithmetic                                             *)
(* ================================================================== *)

(** The floats of Python are IEEE 754 binary64 numbers and [+], [-] and
    [*] give the float nearest to the exact result, the one with an even
    last bit when two are equally near.  [round] is that rounding on the
    rationals: 53 significant bits, and no bit below [2^-1074]. *)
Module Float.

(** [floor(log2 x)] for [x > 0]. *)
Definition ilog2 (x : Q) : Z :=
  let e := (Z.log2 (Qnum x) - Z.log2 (Z.pos (Qden x)))%Z in
  if Qle_bool (2 ^ e) x then e else (e - 1)%Z.

(** The number of binary places kept for [x > 0]. *)
Definition places (x : Q) : Z := Z.min (52 - ilog2 x) 1074.

(** The integer nearest to [x], the even one of two that are equally
    near. *)
Definition rne (x : Q) : Z :=
  let f := Qfloor x in
  match Qcompare (x - inject_Z f) (1 # 2) with
  | Lt => f
  | Gt => (f + 1)%Z
  | Eq => if Z.even f then f else (f + 1)%Z
  end.

(** The float nearest to [x > 0]. *)
Definition nearest (x : Q) : Q :=
  let k := places x in
  inject_Z (rne (x * 2 ^ k)) * 2 ^ (- k).

Definition round (x : Q) : Q :=
  match Qnum x with
  | Z0 => 0
  | Zpos _ => Qred (nearest x)
  | Zneg _ => Qred (- nearest (- x))
  end.

(** [x + y], [x - y] and [x * y] of two floats. *)
Definition add (x y : Q) : Q := round (x + y).

Definition sub (x y : Q) : Q := round (x - y).

Definition mul (x y : Q) : Q := round (x * y).

(** The float a decimal literal of the source denotes. *)
Definition literal (x : Q) : Q := round x.

End Float.

(* ================================================================== *)
(** ** Data frames                                                     *)
(* ================================================================== *)

(** The frame read by [pd.read_csv(csv_filename, header=1)] after the first
    column has been renamed to ["Time"]: [columns] are the names of the
    remaining columns, a row is its time and its cells in column order. *)
Record DataFrame : Type := mkDF {
  columns : list string;
  rows : list (Q * list cell)
}.

Inductive LoadResult : Type :=
  | NotFound                  (* os.path.exists(csv_filename) is false *)
  | ReadFails                 (* pd.read_csv raises *)
  | Loaded (df : DataFrame).

Definition Store : Type := string -> LoadResult.

Module Frame.

(** [df["Time"]] *)
Definition Time (df : DataFrame) : list Q := map fst (rows df).

(** [measure in df.columns] *)
Definition has_column (df : DataFrame) (m : string) : bool :=
  existsb (String.eqb m) (columns df).

Fixpoint index_of (m : string) (l : list string) : option nat :=
  match l with
  | [] => None
  | c :: l' => if String.eqb m c then Some O
               else option_map S (index_of m l')
  end.

(** [df[measure]]: the cells of the column, a short row reads as NaN. *)
Definition column (df : DataFrame) (m : string) : list cell :=
  match index_of m (columns df) with
  | Some k => map (fun r => nth k (snd r) NaN) (rows df)
  | None => []
  end.

(** [df.empty] *)
Definition empty (df : DataFrame) : bool :=
  match rows df with [] => true | _ => false end.

(** [Series.max()] and [Series.min()] of a column without NaN: NaN on an
    empty column. *)
Definition max (l : list Q) : cell :=
  match l with
  | [] => NaN
  | x :: l' => Some (fold_left Qmax l' x)
  end.

Definition min (l : list Q) : cell :=
  match l with
  | [] => NaN
  | x :: l' => Some (fold_left Qmin l' x)
  end.

(** [df[(df["Time"] >= lo) & (df["Time"] <= hi)]] *)
Definition between (df : DataFrame) (lo hi : Q) : DataFrame :=
  mkDF (columns df)
       (filter (fun r => Qle_bool lo (fst r) && Qle_bool (fst r) hi) (rows df)).

(** [Series.dropna().tolist()] *)
Fixpoint dropna (l : list cell) : list Q :=
  match l with
  | [] => []
  | Some x :: l' => x :: dropna l'
  | None :: l' => dropna l'
  end.

End Frame.

(* ================================================================== *)
(** ** Segment extraction with end-snapping                            *)
(* ================================================================== *)

(** [if abs(et - csv_max_time) <= 0.05: et = csv_max_time]; the test is
    false when [csv_max_time] is NaN. *)
Definition snap_end (et : Q) (csv_max_time : cell) : Q :=
  match csv_max_time with
  | Some mx =>
      if Qle_bool (Qabs (Float.sub et mx)) (Float.literal tol) then mx else et
  | None => et
  end.

(** The extraction written out in [render_clip], [update_metrics],
    [compute_averages] and [aggregated_box]:
<<
    csv_max_time = df["Time"].max()
    if abs(et - csv_max_time) <= 0.05:
        et = csv_max_time
    segment = df[(df["Time"] >= st) & (df["Time"] <= et)]
>> *)
Definition extract (df : DataFrame) (st et : Q) : DataFrame :=
  let csv_max_time := Frame.max (Frame.Time df) in
  let et := snap_end et csv_max_time in
  Frame.between df st et.

(* ================================================================== *)
(** ** Responses                                                       *)
(* ================================================================== *)

(** What an endpoint hands back: a rendered page carrying [a], an
    [HTMLResponse] that only carries a message and a status code, or an
    exception that no handler of the function catches. *)
Inductive Response (A : Type) : Type :=
  | Page (a : A)
  | Message (status_code : nat) (content : string)
  | Unhandled.

Arguments Page {A} a.
Arguments Message {A} status_code content.
Arguments Unhandled {A}.

(** A cell handed to [csv_writer.writerow]. *)
Inductive csv_cell : Type :=
  | Text (s : string)
  | Integer (z : Z)
  | Float (x : cell)
  | Blank.                    (* the empty string [""] *)

(* ================================================================== *)
(** ** Descriptive statistics of one column (pandas)                   *)
(* ================================================================== *)

Module Series.

Definition sum (l : list Q) : Q := fold_left Qplus l 0.

Definition count (l : list Q) : Q := inject_Z (Z.of_nat (List.length l)).

(** [Series.min()], [Series.max()], [Series.mean()]: NaN cells are
    skipped, the result is NaN when nothing is left. *)
Definition min (c : list cell) : cell := Frame.min (Frame.dropna c).

Definition max (c : list cell) : cell := Frame.max (Frame.dropna c).

Definition mean (c : list cell) : cell :=
  match Frame.dropna c with
  | [] => NaN
  | v => Some (sum v / count v)
  end.

(** Sum of squared deviations from [mu]. *)
Definition sq_dev (mu : Q) (v : list Q) : Q :=
  sum (map (fun x => (x - mu) * (x - mu)) v).

(** The sample variance with [ddof = 1]: NaN unless at least two values
    are left after the NaN cells are skipped. *)
Definition var (c : list cell) : cell :=
  match Frame.dropna c with
  | [] => NaN
  | [_] => NaN
  | v => Some (sq_dev (sum v / count v) v / (count v - 1))
  end.

(** [Series.std()] is the square root of [var]; the root of a rational
    is kept symbolic. *)
Inductive std_value : Type :=
  | StdNaN
  | StdSqrt (variance : Q).

Definition std (c : list cell) : std_value :=
  match var c with
  | None => StdNaN
  | Some v => StdSqrt v
  end.

End Series.

(** One entry of the metrics list of [update_metrics] (and of [stats] in
    [render_clip]). *)
Record Metrics : Type := mkMetrics {
  min_val : cell;
  max_val : cell;
  avg_val : cell;
  std_val : Series.std_value
}.

Definition segment_metrics (df segment : DataFrame) : list (string * Metrics) :=
  flat_map
    (fun col =>
       if Frame.has_column df col
       then [(col, mkMetrics (Series.min (Frame.column segment col))
                             (Series.max (Frame.column segment col))
                             (Series.mean (Frame.column segment col))
                             (Series.std (Frame.column segment col)))]
       else [])
    ORDERED_MEASURES.

(** [update_metrics], lines 507-535; the message of status 500 goes on
    with the text of the exception. *)
Definition update_metrics (store : Store) (vid : string) (st et : Q)
  : Response (list (string * Metrics)) :=
  match store vid with
  | NotFound => Message 404 "CSV file not found."
  | ReadFails => Message 500 "Error computing metrics"
  | Loaded df =>
      let segment := extract df st et in
      if Frame.empty segment
      then Message 200 "No CSV data found for these timepoints."
      else Page (segment_metrics df segment)
  end.

(* ================================================================== *)
(** ** Durations                                                       *)
(* ================================================================== *)

(** The loop at the head of [compute_averages], [aggregated_graphs] and
    [aggregated_results]:
<<
    try:
        st = float(start_time[i]); et = float(end_time[i])
        durations.append(et - st)
    except: pass
>>
    [et - st] is the difference of two floats. *)
Definition duration (m : Moment) : list Q :=
  match float (start_time m), float (end_time m) with
  | Some st, Some et => [Float.sub et st]
  | _, _ => []
  end.

Definition durations (ms : list Moment) : list Q := flat_map duration ms.

(** [min(durations) if durations else 0] *)
Definition pure_duration_of (ds : list Q) : Q :=
  match ds with
  | [] => 0
  | d :: ds' => fold_left Qmin ds' d
  end.

Definition pure_duration (ms : list Moment) : Q :=
  pure_duration_of (durations ms).

(* ================================================================== *)
(** ** Pooled averages page: [compute_averages]                        *)
(* ================================================================== *)

Module Averages.

(** One turn of the loop of lines 707-727: the segments it appends. *)
Definition body (store : Store) (m : Moment) : list DataFrame :=
  match float (start_time m), float (end_time m) with
  | Some st, Some et =>
      match store (video_id m) with
      | Loaded df =>
          let segment := extract df st et in
          if Frame.empty segment then [] else [segment]
      | NotFound => []
      | ReadFails => []
      end
  | _, _ => []
  end.

Definition combined_segments (store : Store) (ms : list Moment)
  : list DataFrame :=
  flat_map (body store) ms.

(** [pd.concat(combined_segments)]: a column is there when one segment
    has it, and is NaN on the rows of the segments that lack it. *)
Definition concat_has (segs : list DataFrame) (col : string) : bool :=
  existsb (fun s => Frame.has_column s col) segs.

Definition concat_column (segs : list DataFrame) (col : string) : list cell :=
  flat_map
    (fun s => if Frame.has_column s col then Frame.column s col
              else repeat NaN (List.length (rows s)))
    segs.

Definition average_metrics (segs : list DataFrame) : list (string * cell) :=
  flat_map
    (fun col => if concat_has segs col
                then [(col, Series.mean (concat_column segs col))]
                else [])
    ORDERED_MEASURES.

Record Output : Type := mkOutput {
  averages : list (string * cell);
  shown_duration : Q
}.

Definition compute_averages (store : Store) (ms : list Moment)
  : Response Output :=
  match combined_segments store ms with
  | [] => Message 400 "No valid CSV data found for the selected moments."
  | segs => Page (mkOutput (average_metrics segs) (pure_duration ms))
  end.

End Averages.

(* ================================================================== *)
(** ** Dictionaries keyed by measure                                   *)
(* ================================================================== *)

(** [box_data] and [interp_data] are dictionaries created with one empty
    list per entry of [ORDERED_MEASURES]; Python keeps the insertion
    order, so they are association lists in canonical order. *)
Module Dict.

Section Dict.

Context {A : Type}.

Definition t : Type := list (string * list A).

(** [{m: [] for m in ORDERED_MEASURES}] *)
Definition init (keys : list string) : t := map (fun m => (m, [])) keys.

(** [d[k]] *)
Fixpoint get (d : t) (k : string) : list A :=
  match d with
  | [] => []
  | (k', v) :: d' => if String.eqb k k' then v else get d' k
  end.

(** [d[k].extend(vs)] *)
Fixpoint extend (d : t) (k : string) (vs : list A) : t :=
  match d with
  | [] => []
  | (k', v) :: d' =>
      if String.eqb k k' then (k', v ++ vs) :: d'
      else (k', v) :: extend d' k vs
  end.

(** [d[k].append(x)] *)
Definition append (d : t) (k : string) (x : A) : t := extend d k [x].

Definition keys (d : t) : list string := map fst d.

(** [d.values()] *)
Definition values (d : t) : list (list A) := map snd d.

End Dict.

Arguments t A : clear implicits.

End Dict.

(* ================================================================== *)
(** ** Pooled mode: [aggregated_box]                                   *)
(* ================================================================== *)

Module Box.

(** Lines 1076-1078: the values of one non-empty segment go to the lists
    of the measures that the frame has as columns. *)
Definition pool (df seg : DataFrame) (box_data : Dict.t Q) : Dict.t Q :=
  fold_left
    (fun d measure =>
       if Frame.has_column df measure
       then Dict.extend d measure (Frame.dropna (Frame.column seg measure))
       else d)
    ORDERED_MEASURES box_data.

(** One turn of the loop of lines 1059-1080. *)
Definition body (store : Store) (box_data : Dict.t Q) (m : Moment) : Dict.t Q :=
  match float (start_time m), float (end_time m) with
  | Some st, Some et =>
      match store (video_id m) with
      | Loaded df =>
          let seg := extract df st et in
          if Frame.empty seg then box_data else pool df seg box_data
      | NotFound => box_data
      | ReadFails => box_data
      end
  | _, _ => box_data
  end.

Definition box_data (store : Store) (ms : list Moment) : Dict.t Q :=
  fold_left (body store) ms (Dict.init ORDERED_MEASURES).

Definition nonempty {A : Type} (v : list A) : bool :=
  match v with [] => false | _ => true end.

(** [max((len(v) for v in box_data.values() if v), default=0)] *)
Definition max_len (d : Dict.t Q) : nat :=
  list_max (map (@List.length Q) (filter nonempty (Dict.values d))).

Definition value_name (i : nat) : string :=
  ("Value_" ++ NilEmpty.string_of_uint (Nat.to_uint (i + 1)))%string.

(** [["Query", "Measure"] + [f"Value_{i+1}" for i in range(max_len)]] *)
Definition header (d : Dict.t Q) : list csv_cell :=
  [Text "Query"; Text "Measure"]
    ++ map (fun i => Text (value_name i)) (seq 0 (max_len d)).

(** Lines 1146-1151: a row per measure that pooled at least one value,
    padded with empty cells to [max_len]. *)
Definition csv_rows (query : string) (d : Dict.t Q) : list (list csv_cell) :=
  flat_map
    (fun measure =>
       let v := Dict.get d measure in
       if nonempty v
       then [[Text query; Text measure]
               ++ map (fun x => Float (Some x)) v
               ++ repeat Blank (max_len d - List.length v)]
       else [])
    ORDERED_MEASURES.

(** What the page carries: the pooled samples (drawn as box plots, one
    per measure with data) and the CSV behind the download link. *)
Record Output : Type := mkOutput {
  pooled : Dict.t Q;
  csv_header : list csv_cell;
  csv : list (list csv_cell);
  shown_duration : Q
}.

Definition aggregated_box (store : Store) (ms : list Moment)
    (pure_duration : Q) (query : string) : Response Output :=
  let d := box_data store ms in
  Page (mkOutput d (header d) (csv_rows query d) pure_duration).

End Box.

(* ================================================================== *)
(** ** numpy                                                           *)
(* ================================================================== *)

Module Numpy.

Definition Qltb (x y : Q) : bool := negb (Qle_bool y x).

(** [np.linspace(start, stop, num)]: [arange(num) * step + start] with
    [step = (stop - start) / (num - 1)] (when the step is zero the
    product is taken as [arange(num) / (num - 1) * (stop - start)]), and
    the last point is set to [stop]. *)
Definition linspace (start stop : Q) (num : nat) : list Q :=
  let div := inject_Z (Z.of_nat (num - 1)) in
  let delta := stop - start in
  let step := delta / div in
  map (fun i =>
         if Nat.eqb (S i) num then stop
         else if Qeq_bool step 0
              then inject_Z (Z.of_nat i) / div * delta + start
              else inject_Z (Z.of_nat i) * step + start)
      (seq 0 num).

(** The interpolation of one point between two neighbouring samples,
    [slope * (x - x0) + y0]; NaN when either sample value is NaN. *)
Definition lerp (x x0 : Q) (y0 : cell) (x1 : Q) (y1 : cell) : cell :=
  match y0, y1 with
  | Some a, Some b => Some ((b - a) / (x1 - x0) * (x - x0) + a)
  | _, _ => NaN
  end.

(** The search of [np.interp] for the samples around [x], for sample
    points in ascending order: [x0 <= x] is the sample reached so far. *)
Fixpoint interp_from (x x0 : Q) (y0 : cell) (rest : list (Q * cell)) : cell :=
  match rest with
  | [] => y0
  | (x1, y1) :: rest' =>
      if Qltb x x1
      then if Qeq_bool x0 x then y0 else lerp x x0 y0 x1 y1
      else interp_from x x1 y1 rest'
  end.

(** One point of [np.interp(x, xp, fp)] with the default [left = fp[0]]
    and [right = fp[-1]]. *)
Definition interp1 (x x0 : Q) (y0 : cell) (rest : list (Q * cell)) : cell :=
  if Qltb x x0 then y0 else interp_from x x0 y0 rest.

(** [np.interp(x, xp, fp)]; it raises [ValueError] ("array of sample
    points is empty") when [xp] is empty, which is [None] here. *)
Definition interp (x : list Q) (xp : list Q) (fp : list cell)
  : option (list cell) :=
  match combine xp fp with
  | [] => None
  | (x0, y0) :: rest => Some (map (fun g => interp1 g x0 y0 rest) x)
  end.

Definition add (a b : cell) : cell :=
  match a, b with
  | Some x, Some y => Some (x + y)
  | _, _ => NaN
  end.

Definition divide (a : cell) (n : nat) : cell :=
  option_map (fun x => x / inject_Z (Z.of_nat n)) a.

(** Element-wise sum of two arrays of one length. *)
Definition vadd (u v : list cell) : list cell :=
  map (fun p => add (fst p) (snd p)) (combine u v).

(** [np.mean(np.vstack(arrays), axis=0)] for a non-empty list of arrays of
    one length: the rows are summed and the sum is divided by their
    number. *)
Definition mean_axis0 (arrays : list (list cell)) : list cell :=
  match arrays with
  | [] => []
  | a :: rest =>
      map (fun s => divide s (List.length arrays)) (fold_left vadd rest a)
  end.

(** [np.mean] of a one-dimensional array. *)
Definition mean (a : list cell) : cell :=
  match a with
  | [] => NaN
  | x :: rest => divide (fold_left add rest x) (List.length a)
  end.

End Numpy.

(* ================================================================== *)
(** ** Aligned mode: [aggregated_line]                                 *)
(* ================================================================== *)

Module Line.

(** An entry of [included_events]: the selected rows and the column
    [seg["RelativeTime"] = seg["Time"] - st] added to them. *)
Record Event : Type := mkEvent {
  seg : DataFrame;
  RelativeTime : list Q
}.

(** What one turn of the loop of lines 836-865 does to the two lists. *)
Inductive Turn : Type :=
  | Skipped                        (* [continue], nothing recorded *)
  | Excluded (name : string)       (* [excluded_names.append(ad_name[i])] *)
  | Included (e : Event).          (* [included_events.append(seg)] *)

(** [a < b] and [a > b] for a bound [b] that may be NaN. *)
Definition lt_cell (a : Q) (b : cell) : bool :=
  match b with Some b => Numpy.Qltb a b | None => false end.

Definition gt_cell (a : Q) (b : cell) : bool :=
  match b with Some b => Numpy.Qltb b a | None => false end.

Definition positive (x : Q) : bool := Numpy.Qltb 0 x.

(** The test of lines 856-857:
<<
    if (pre_duration > 0 or post_extra > 0):
        if (st - pre_duration) < (available_start - tol)
           or (st + effective_post) > (available_end + tol):
>> *)
Definition insufficient (pre_duration post_extra effective_post st : Q)
    (available_start available_end : cell) : bool :=
  (positive pre_duration || positive post_extra)
  && (lt_cell (Float.sub st pre_duration)
        (option_map (fun a => Float.sub a (Float.literal tol)) available_start)
      || gt_cell (Float.add st effective_post)
           (option_map (fun b => Float.add b (Float.literal tol)) available_end)).

Definition body (store : Store) (pre_duration post_extra effective_post : Q)
    (m : Moment) : Turn :=
  match float (start_time m), float (end_time m) with
  | Some st, Some et =>
      match store (video_id m) with
      | NotFound => Skipped
      | ReadFails => Excluded (ad_name m)
      | Loaded df =>
          let available_start := Frame.min (Frame.Time df) in
          let available_end := Frame.max (Frame.Time df) in
          let et := snap_end et available_end in
          if insufficient pre_duration post_extra effective_post st
               available_start available_end
          then Excluded (ad_name m)
          else
            let seg := Frame.between df (Float.sub st pre_duration)
                                        (Float.add st effective_post) in
            Included (mkEvent seg (map (fun t => Float.sub t st) (Frame.Time seg)))
      end
  | _, _ => Skipped
  end.

(** The two lists the loop builds. *)
Record Lists : Type := mkLists {
  included_events : list Event;
  excluded_names : list string
}.

Definition record (s : Lists) (t : Turn) : Lists :=
  match t with
  | Skipped => s
  | Excluded name => mkLists (included_events s) (excluded_names s ++ [name])
  | Included e => mkLists (included_events s ++ [e]) (excluded_names s)
  end.

Definition loop (store : Store) (pre_duration post_extra effective_post : Q)
    (ms : list Moment) : Lists :=
  fold_left
    (fun s m => record s (body store pre_duration post_extra effective_post m))
    ms (mkLists [] []).

(** Lines 877-881 for one measure of one event; an exception of
    [np.interp] ends the request. *)
Definition add_measure (common_time : list Q) (e : Event)
    (acc : option (Dict.t (list cell))) (measure : string)
  : option (Dict.t (list cell)) :=
  match acc with
  | None => None
  | Some d =>
      if Frame.has_column (seg e) measure
      then match Numpy.interp common_time (RelativeTime e)
                   (Frame.column (seg e) measure) with
           | Some interp_vals => Some (Dict.append d measure interp_vals)
           | None => None
           end
      else Some d
  end.

Definition add_event (common_time : list Q)
    (acc : option (Dict.t (list cell))) (e : Event)
  : option (Dict.t (list cell)) :=
  fold_left (add_measure common_time e) ORDERED_MEASURES acc.

(** Lines 871-881. *)
Definition interp_data (common_time : list Q) (events : list Event)
  : option (Dict.t (list cell)) :=
  fold_left (add_event common_time) events (Some (Dict.init ORDERED_MEASURES)).

(** Lines 884-891: the mean across events, [None] for a measure without
    any interpolated series. *)
Definition averaged_of (d : Dict.t (list cell))
  : list (string * option (list cell)) :=
  map (fun measure =>
         match Dict.get d measure with
         | [] => (measure, None)
         | arrays => (measure, Some (Numpy.mean_axis0 arrays))
         end)
      ORDERED_MEASURES.

(** [averaged[measure]] *)
Fixpoint lookup (averaged : list (string * option (list cell))) (measure : string)
  : option (list cell) :=
  match averaged with
  | [] => None
  | (k, v) :: rest => if String.eqb measure k then v else lookup rest measure
  end.

(** [int(x)] of a float: truncation towards zero. *)
Definition int (x : Q) : Z := Z.quot (Qnum x) (Z.pos (Qden x)).

(** [["Query", "Time(ms)"] + ORDERED_MEASURES] *)
Definition header : list csv_cell :=
  [Text "Query"; Text "Time(ms)"] ++ map Text ORDERED_MEASURES.

(** Lines 997-1000: [averaged[measure][i]], or [""] for a measure whose
    entry is [None]. *)
Definition value_cell (averaged : list (string * option (list cell)))
    (i : nat) (measure : string) : csv_cell :=
  match lookup averaged measure with
  | Some mean_vals => Float (nth i mean_vals NaN)
  | None => Blank
  end.

(** Lines 993-1001: the row of grid index [i]. *)
Definition csv_row (query : string) (common_time : list Q)
    (averaged : list (string * option (list cell))) (i : nat) : list csv_cell :=
  let t_ms := int (Float.mul (nth i common_time 0) 1000) in
  [Text query; Integer t_ms]
    ++ map (value_cell averaged i) ORDERED_MEASURES.

Definition csv_rows (query : string) (common_time : list Q)
    (averaged : list (string * option (list cell))) : list (list csv_cell) :=
  map (csv_row query common_time averaged) (seq 0 (List.length common_time)).

(** What the page carries: the grid and the averaged curves that are
    plotted, the CSV behind the download link and the names listed as
    excluded. *)
Record Output : Type := mkOutput {
  common_time : list Q;
  averaged : list (string * option (list cell));
  csv_header : list csv_cell;
  csv : list (list csv_cell);
  excluded : list string;
  shown_duration : Q
}.

Definition aggregated_line (store : Store) (ms : list Moment)
    (pre_duration post_extra pure_duration : Q) (query : string)
  : Response Output :=
  let effective_post := Float.add pure_duration post_extra in
  let common_time := Numpy.linspace (- pre_duration) effective_post 100 in
  let lists := loop store pre_duration post_extra effective_post ms in
  match included_events lists with
  | [] => Message 400 "No valid CSV data for graphing after exclusions."
  | events =>
      match interp_data common_time events with
      | None => Unhandled
      | Some d =>
          let averaged := averaged_of d in
          Page (mkOutput common_time averaged header
                         (csv_rows query common_time averaged)
                         (excluded_names lists) pure_duration)
      end
  end.

End Line.

(* ================================================================== *)
(** ** Dispatch: [aggregated_graphs] and [aggregated_results]          *)
(* ================================================================== *)

Inductive GraphPage : Type :=
  | LineGraphs (o : Line.Output)
  | BoxGraphs (o : Box.Output).

Definition map_response {A B : Type} (f : A -> B) (r : Response A) : Response B :=
  match r with
  | Page a => Page (f a)
  | Message c s => Message c s
  | Unhandled => Unhandled
  end.

(** Lines 800-822. *)
Definition aggregated_graphs (store : Store) (graph_type : string)
    (ms : list Moment) (pre_duration post_extra : Q) (query : string)
  : Response GraphPage :=
  let pure_duration := pure_duration ms in
  if String.eqb graph_type "line"
  then map_response LineGraphs
         (Line.aggregated_line store ms pre_duration post_extra pure_duration query)
  else map_response BoxGraphs
         (Box.aggregated_box store ms pure_duration query).

(** Lines 1167-1191: the same with [graph_type = "line"]. *)
Definition aggregated_results (store : Store) (ms : list Moment)
    (pre_duration post_extra : Q) (query : string) : Response GraphPage :=
  aggregated_graphs store "line" ms pre_duration post_extra query.

(* ================================================================== *)
(** ** Form fields                                                     *)
(* ================================================================== *)

(** The endpoints declare [start_time] and [end_time] as
    [list[float] = Form(...)] (lines 701-702, 803-804, 1172-1173).
    FastAPI converts every submitted entry before it calls the function
    and answers 422 to the whole request when an entry is not a number;
    the function is called with floats only.  The texts ["nan"] and
    ["inf"] are numbers to that conversion: a request holding one is
    processed, with a NaN or an infinity among its times, which the
    model of the function bodies does not cover. *)
Record Submitted : Type := mkSubmitted {
  form_video_id : string;
  form_start_time : string;
  form_end_time : string;
  form_ad_name : string
}.

(** What the conversion makes of one entry. *)
Inductive Converted : Type :=
  | Invalid                       (* not a number: a validation error *)
  | Finite (x : Q)
  | NonFinite.                    (* NaN or an infinity *)

Inductive Validated (A : Type) : Type :=
  | Rejected                      (* some entry is not a number *)
  | NotFinite                     (* all are numbers, some are not finite *)
  | Valid (a : A).

Arguments Rejected {A}.
Arguments NotFinite {A}.
Arguments Valid {A} a.

Inductive Answer (A : Type) : Type :=
  | Refused                       (* 422, the function is not called *)
  | Answered (r : Response A)
  | CalledWithNonFinite.          (* called; the answer is not modelled *)

Arguments Refused {A}.
Arguments Answered {A} r.
Arguments CalledWithNonFinite {A}.

Module Form.

Section Validation.

(** The conversion of one submitted entry to a float. *)
Variable to_float : string -> Converted.

Definition moment (r : Submitted) : Validated Moment :=
  match to_float (form_start_time r), to_float (form_end_time r) with
  | Invalid, _ => Rejected
  | _, Invalid => Rejected
  | Finite st, Finite et =>
      Valid (mkMoment (form_video_id r) (Num st) (Num et) (form_ad_name r))
  | _, _ => NotFinite
  end.

Fixpoint moments (entries : list Submitted) : Validated (list Moment) :=
  match entries with
  | [] => Valid []
  | r :: entries' =>
      match moment r, moments entries' with
      | Rejected, _ => Rejected
      | _, Rejected => Rejected
      | Valid m, Valid ms => Valid (m :: ms)
      | _, _ => NotFinite
      end
  end.

(** A POST to an endpoint whose body is [endpoint]. *)
Definition post {A : Type} (endpoint : list Moment -> Response A)
    (entries : list Submitted) : Answer A :=
  match moments entries with
  | Rejected => Refused
  | NotFinite => CalledWithNonFinite
  | Valid ms => Answered (endpoint ms)
  end.

End Validation.

End Form.

(* ================================================================== *)
(** ** File names: [safe_filename]                                     *)
(* ================================================================== *)

Module Filename.

Section SafeFilename.

(** [c.isalnum()], Python's classification of one character. *)
Variable isalnum : ascii -> bool.

(** [c.isalnum() or c in "_-"] *)
Definition kept (c : ascii) : bool :=
  isalnum c || (Ascii.eqb c "_" || Ascii.eqb c "-").

Definition safe_char (c : ascii) : ascii :=
  if kept c then c else "_"%char.

(** Lines 36-41: ["".join(c if c.isalnum() or c in "_-" else "_" for c in query)] *)
Fixpoint safe_filename (query : string) : string :=
  match query with
  | EmptyString => EmptyString
  | String c rest => String (safe_char c) (safe_filename rest)
  end.

(** [f"{safe_filename(query)}_results.csv"], lines 1005 and 1154. *)
Definition results_filename (query : string) : string :=
  (safe_filename query ++ "_results.csv")%string.

End SafeFilename.

(** The letters and digits of ASCII, on which [str.isalnum] is true. *)
Definition ascii_isalnum (c : ascii) : bool :=
  let n := nat_of_ascii c in
  ((48 <=? n) && (n <=? 57) || (65 <=? n) && (n <=? 90)
   || (97 <=? n) && (n <=? 122))%nat.

End Filename.

(* ================================================================== *)
(** ** Search results                                                  *)
(* ================================================================== *)

Module Search.

(** A clip of the search provider ([clip.video_id], [clip.start],
    [clip.end], [clip.score], [clip.thumbnail_url]). *)
Record Clip : Type := mkClip {
  video_id : string;
  start : Q;
  end_ : Q;
  score : Q;
  thumbnail_url : string
}.

(** Lines 77-83. *)
Definition get_computed_confidence (score : Q) : string :=
  if Qle_bool 80 score then "high"
  else if Qle_bool 75 score then "medium"
  else "low".

(** An entry of [results.data]: a group of clips ([hasattr(item, "clips")])
    or a clip. *)
Inductive Item : Type :=
  | Grouped (clips : list Clip)
  | Single (c : Clip).

(** Lines 85-92. *)
Definition flatten_clips (grouped : list Item) : list Clip :=
  fold_left
    (fun flat item =>
       match item with
       | Grouped clips => flat ++ clips
       | Single c => flat ++ [c]
       end)
    grouped [].

(** [all_clips.sort(key=lambda clip: clip.score, reverse=True)]: Python's
    sort is stable, also with [reverse=True]; a clip goes before the first
    clip after it whose score is not greater. *)
Fixpoint insert_clip (c : Clip) (sorted : list Clip) : list Clip :=
  match sorted with
  | [] => [c]
  | d :: rest =>
      if Qle_bool (score d) (score c) then c :: d :: rest
      else d :: insert_clip c rest
  end.

Definition sort_by_score (all_clips : list Clip) : list Clip :=
  fold_right insert_clip [] all_clips.

(** What the client of the search provider answers; [None] where the
    call or the attribute access raises. *)
Record PageInfo : Type := mkPageInfo {
  total_results : option nat;
  next_page_token : option string
}.

Record Results : Type := mkResults {
  data : list Item;
  page_info : PageInfo
}.

Record Client : Type := mkClient {
  query : string -> option Results;             (* client.search.query *)
  by_page_token : string -> option Results      (* client.search.by_page_token *)
}.

(** [getattr(results.page_info, "next_page_token", None)] when it is
    true: a token that is not the empty string. *)
Definition next_token (results : Results) : option string :=
  match next_page_token (page_info results) with
  | Some token => if String.eqb token "" then None else Some token
  | None => None
  end.

(** The loop of lines 119-125; [fuel] bounds the number of pages
    followed, [None] when it runs out. *)
Fixpoint follow_pages (fuel : nat) (client : Client) (results : Results)
    (all_clips : list Clip) : option (list Clip) :=
  match next_token results with
  | None => Some all_clips
  | Some token =>
      match fuel with
      | O => None
      | S fuel' =>
          match by_page_token client token with
          | Some results' =>
              follow_pages fuel' client results'
                (all_clips ++ flatten_clips (data results'))
          | None => Some all_clips                  (* except: break *)
          end
      end
  end.

Inductive Gathered : Type :=
  | HTTPException (status_code : nat)
  | OutOfFuel
  | Clips (all_clips : list Clip) (total_hits : nat).

(** Lines 94-127. *)
Definition gather_all_clips (fuel : nat) (client : Client) (q : string)
  : Gathered :=
  match query client q with
  | None => HTTPException 500
  | Some results =>
      let all_clips := flatten_clips (data results) in
      let total_hits :=
        match total_results (page_info results) with
        | Some n => n
        | None => List.length all_clips
        end in
      match follow_pages fuel client results all_clips with
      | None => OutOfFuel
      | Some all_clips => Clips (sort_by_score all_clips) total_hits
      end
  end.

(** An index of a Python slice, brought into [0 .. len]. *)
Definition slice_index (i len : Z) : Z :=
  if (i <? 0)%Z then Z.max (i + len) 0 else Z.min i len.

(** [items[start:stop]] *)
Definition slice {A : Type} (items : list A) (start stop : Z) : list A :=
  let len := Z.of_nat (List.length items) in
  let lo := slice_index start len in
  let hi := slice_index stop len in
  firstn (Z.to_nat (hi - lo)) (skipn (Z.to_nat lo) items).

(** Lines 129-133. *)
Definition paginate {A : Type} (items : list A) (page per_page : Z)
  : list A * nat :=
  let total := List.length items in
  let start := ((page - 1) * per_page)%Z in
  let stop := (start + per_page)%Z in
  (slice items start stop, total).

(** An entry of [cache]. *)
Record Entry : Type := mkEntry {
  clips : list Clip;
  total_hits : nat
}.

(** The dictionary [cache], by query. *)
Definition Cache : Type := string -> option Entry.

Definition store_entry (cache : Cache) (q : string) (e : Entry) : Cache :=
  fun q' => if String.eqb q' q then Some e else cache q'.

(** What the page of results shows. *)
Record ResultsPage : Type := mkResultsPage {
  shown_total_hits : nat;
  all_count : nat;
  high_count : nat;
  medium_count : nat;
  low_count : nat;
  page_results : list Clip;
  filtered_total : nat;
  total_pages : Z;
  has_previous : bool;        (* "Skip to Start" and "Previous" *)
  has_next : bool             (* "Next" and "Skip to End" *)
}.

Inductive Outcome : Type :=
  | Rendered (p : ResultsPage)
  | Failed (status_code : nat)
  | Pending.                  (* the provider kept handing out tokens *)

Definition count_label (label : string) (cs : list Clip) : nat :=
  List.length
    (filter (fun c => String.eqb (get_computed_confidence (score c)) label) cs).

(** [math.ceil(filtered_total / per_page)] for a positive [per_page]. *)
Definition ceil_div (n per_page : Z) : Z := ((n + per_page - 1) / per_page)%Z.

Section SearchResults.

(** [str.lower] *)
Variable lower : string -> string.

(** Lines 267-301, once the clips of the query are known. *)
Definition results_page (e : Entry) (conf_filter : string) (page : Z)
  : ResultsPage :=
  let cs := clips e in
  let filtered :=
    if String.eqb (lower conf_filter) "all" then cs
    else filter
           (fun c => String.eqb (get_computed_confidence (score c))
                       (lower conf_filter))
           cs in
  let per_page := 50%Z in
  let (page_results, filtered_total) := paginate filtered page per_page in
  let total_pages := ceil_div (Z.of_nat filtered_total) per_page in
  mkResultsPage (total_hits e) (List.length cs)
    (count_label "high" cs) (count_label "medium" cs) (count_label "low" cs)
    page_results filtered_total total_pages
    (1 <? page)%Z (page <? total_pages)%Z.

(** Lines 254-505: the answer and the cache after the request. *)
Definition search_results (fuel : nat) (client : Client) (cache : Cache)
    (q conf_filter : string) (page : Z) : Outcome * Cache :=
  match cache q with
  | None =>
      match gather_all_clips fuel client q with
      | HTTPException status => (Failed status, cache)
      | OutOfFuel => (Pending, cache)
      | Clips cs hits =>
          let e := mkEntry cs hits in
          (Rendered (results_page e conf_filter page), store_entry cache q e)
      end
  | Some e => (Rendered (results_page e conf_filter page), cache)
  end.

End SearchResults.

End Search.

(* ================================================================== *)
(** ** Selected clips: [render_clip] to [select_timepoints]            *)
(* ================================================================== *)

Module Selection.

(** [s.split(sep)] for a separator of one character. *)
Fixpoint split (sep : ascii) (s : string) : list string :=
  match s with
  | EmptyString => [EmptyString]
  | String c rest =>
      if Ascii.eqb c sep then EmptyString :: split sep rest
      else match split sep rest with
           | part :: parts => String c part :: parts
           | [] => [String c EmptyString]
           end
  end.

(** Line 155:
    [f"{video_id}|{clip_start}|{clip_end}|{thumbnail_url}|{ad_name}"],
    the two times already formatted. *)
Definition checkbox_value
    (video_id clip_start clip_end thumbnail_url ad_name : string) : string :=
  (video_id ++ "|" ++ clip_start ++ "|" ++ clip_end ++ "|"
     ++ thumbnail_url ++ "|" ++ ad_name)%string.

(** A moment block of the page of [select_timepoints]; [index] is the
    position of the selection, used in the ids of its fields. *)
Record MomentForm : Type := mkMomentForm {
  index : nat;
  video_id : string;
  default_start : string;
  default_end : string;
  thumbnail_url : string;
  ad_name : string
}.

(** Lines 674-677 for one selection. *)
Definition moment_form (i : nat) (clip_str : string) : list MomentForm :=
  match split "|" clip_str with
  | [video_id; default_start; default_end; thumbnail_url; ad_name] =>
      [mkMomentForm i video_id default_start default_end thumbnail_url ad_name]
  | _ => []                                       (* len(parts) != 5 *)
  end.

(** [enumerate(selections)] *)
Definition enumerate {A : Type} (l : list A) : list (nat * A) :=
  combine (seq 0 (List.length l)) l.

(** Lines 537-696; [cartSelections] is what [json.loads] gives, [None]
    when it raises. *)
Definition select_timepoints (cartSelections : option (list string))
  : Response (list MomentForm) :=
  let selections :=
    match cartSelections with Some l => l | None => [] end in
  match selections with
  | [] => Message 400 "No moments selected."
  | _ =>
      Page (flat_map (fun p => moment_form (fst p) (snd p))
              (enumerate selections))
  end.

End Selection.

(* ================================================================== *)
(** * Definitions used in the statements                              *)
(* ================================================================== *)

(** [m in ks] for a list of measure names. *)
Definition mem (m : string) (ks : list string) : bool :=
  existsb (String.eqb m) ks.

(** Rounding to the nearest multiple of [2^-k]. *)
Definition grid (k : Z) (x : Q) : Q :=
  inject_Z (Float.rne (x * 2 ^ k)) * 2 ^ (- k).

(** ** Pooled mode seen from one measure *)

Module Pooled.

(** The values one moment adds to the list of [measure]. *)
Definition contribution (store : Store) (measure : string) (m : Moment) : list Q :=
  match float (start_time m), float (end_time m) with
  | Some st, Some et =>
      match store (video_id m) with
      | Loaded df =>
          let seg := extract df st et in
          if Frame.empty seg then []
          else if Frame.has_column df measure
               then Frame.dropna (Frame.column seg measure)
               else []
      | _ => []
      end
  | _, _ => []
  end.

End Pooled.

(** ** Aligned mode seen from one moment and one measure *)

Module Aligned.

(** What a turn appends to [included_events] and to [excluded_names]. *)
Definition events_of (t : Line.Turn) : list Line.Event :=
  match t with Line.Included e => [e] | _ => [] end.

Definition names_of (t : Line.Turn) : list string :=
  match t with Line.Excluded name => [name] | _ => [] end.

(** The event recorded for a moment that is not excluded. *)
Definition event_of (df : DataFrame) (pre ep st : Q) : Line.Event :=
  let seg := Frame.between df (Float.sub st pre) (Float.add st ep) in
  Line.mkEvent seg (map (fun t => Float.sub t st) (Frame.Time seg)).

(** The value at [x] of the interpolated series of [measure] in event
    [e]: its [(RelativeTime, value)] samples, interpolated linearly and
    clamped to the first and last value outside their range. *)
Definition at_time (e : Line.Event) (measure : string) (x : Q) : cell :=
  match combine (Line.RelativeTime e) (Frame.column (Line.seg e) measure) with
  | [] => NaN
  | (x0, y0) :: rest => Numpy.interp1 x x0 y0 rest
  end.

(** The events that have a column for [measure]. *)
Definition contributing (measure : string) (events : list Line.Event)
  : list Line.Event :=
  filter (fun e => Frame.has_column (Line.seg e) measure) events.

End Aligned.

(** ** Requests without usable times or data *)

Definition unparseable (m : Moment) : Prop :=
  float (start_time m) = None \/ float (end_time m) = None.

(** A submitted entry whose start or end is not a number. *)
Definition not_a_number (to_float : string -> Converted) (r : Submitted) : Prop :=
  to_float (form_start_time r) = Invalid \/ to_float (form_end_time r) = Invalid.

(** A conversion that reads the strings of decimal digits. *)
Definition whole_number (s : string) : Converted :=
  match s with
  | EmptyString => Invalid
  | _ =>
      match NilEmpty.uint_of_string s with
      | Some d => Finite (inject_Z (Z.of_uint d))
      | None => Invalid
      end
  end.

Definition contributes_nothing (store : Store) (ms : list Moment) : Prop :=
  forall measure m,
    In measure ORDERED_MEASURES -> In m ms ->
    Pooled.contribution store measure m = [].

(** ** The example of the specification and variations of it *)

(** A series with samples at t = 0, 1, 2 carrying one measure. *)
Definition series_A : DataFrame :=
  mkDF ["Engagement"]
       [(0, [Some (2 # 10)]); (1, [Some (4 # 10)]); (2, [Some (6 # 10)])].

Definition series_B : DataFrame :=
  mkDF ["Engagement"]
       [(0, [Some (3 # 10)]); (1, [Some (5 # 10)]); (2, [Some (7 # 10)])].

(** The end-to-end example of the specification: videos A and B, both
    moments with start 0 and end 2. *)
Definition example_store : Store :=
  fun v => if String.eqb v "A" then Loaded series_A
           else if String.eqb v "B" then Loaded series_B
           else NotFound.

Definition example_moments : list Moment :=
  [ mkMoment "A" (Num 0) (Num 2) "Ad A"; mkMoment "B" (Num 0) (Num 2) "Ad B" ].

Definition no_output : Line.Output := Line.mkOutput [] [] [] [] [] 0.

Definition example_output : Line.Output :=
  Eval vm_compute in
    match Line.aggregated_line example_store example_moments 0 0 2 "q" with
    | Page o => o
    | _ => no_output
    end.

Definition example_box (ms : list Moment) : Box.Output :=
  Box.mkOutput (Box.box_data example_store ms)
    (Box.header (Box.box_data example_store ms))
    (Box.csv_rows "q" (Box.box_data example_store ms)) 2.

(** The series of video A cut after t = 1. *)
Definition series_A_short : DataFrame :=
  mkDF ["Engagement"] [(0, [Some (2 # 10)]); (1, [Some (4 # 10)])].

Definition short_store : Store :=
  fun v => if String.eqb v "A" then Loaded series_A_short else NotFound.

(** Two stores for a request naming the videos A and X: X cannot be read
    in the first and is absent from the second. *)
Definition failing_store : Store :=
  fun v => if String.eqb v "A" then Loaded series_A
           else if String.eqb v "X" then ReadFails
           else NotFound.

Definition missing_store : Store :=
  fun v => if String.eqb v "A" then Loaded series_A else NotFound.

Definition moments_A_X : list Moment :=
  [ mkMoment "A" (Num 0) (Num 2) "Ad A"; mkMoment "X" (Num 0) (Num 2) "Ad X" ].

(** A request whose only video has no dataset. *)
Definition moments_missing : list Moment :=
  [ mkMoment "Z" (Num 0) (Num 2) "Ad Z" ].

(** A request for the single sample of video A at t = 0. *)
Definition moment_single : list Moment :=
  [ mkMoment "A" (Num 0) (Num 0) "Ad A" ].

Definition example_engagement : list cell :=
  match Line.lookup (Line.averaged example_output) "Engagement" with
  | Some mean_vals => mean_vals
  | None => []
  end.

(** The averaged Engagement of the example is [0.25 + 0.2 t] at grid
    point [t]. *)
Definition on_example_line (mean_vals : list cell) (grid : list Q) (i : nat)
  : bool :=
  match nth i mean_vals NaN with
  | Some v => Qeq_bool v ((1 # 4) + (1 # 5) * nth i grid 0)
  | None => false
  end.

Definition off_one (mean_vals : list cell) (grid : list Q) (i : nat) : bool :=
  negb (Qeq_bool (nth i grid 0) 1)
  && match nth i mean_vals NaN with
     | Some v => negb (Qeq_bool v (45 # 100))
     | None => true
     end.

(** ** Definitions for the further properties *)

(** The samples of a series are in ascending order of time. *)
Definition ascending (df : DataFrame) : Prop :=
  StronglySorted (fun r s : Q * list cell => fst r <= fst s) (rows df).

Definition metrics_of_A : list (string * Metrics) :=
  Eval vm_compute in
    match update_metrics example_store "A" 0 2 with
    | Page l => l
    | _ => []
    end.

(** The non-missing values a segment gives to [measure]. *)
Definition values_of (measure : string) (segment : DataFrame) : list Q :=
  if Frame.has_column segment measure
  then Frame.dropna (Frame.column segment measure)
  else [].

Definition averages_of_example : Averages.Output :=
  Eval vm_compute in
    match Averages.compute_averages example_store example_moments with
    | Page o => o
    | _ => Averages.mkOutput [] 0
    end.

(** An event as the loop builds it: one relative time per row. *)
Definition well_formed (e : Line.Event) : Prop :=
  List.length (Line.RelativeTime e) = List.length (rows (Line.seg e)).

(** [p] holds of every character of [s]. *)
Fixpoint every (p : ascii -> bool) (s : string) : bool :=
  match s with
  | EmptyString => true
  | String c rest => p c && every p rest
  end.

(** The number of characters [sep] in [s]. *)
Fixpoint occurrences (sep : ascii) (s : string) : nat :=
  match s with
  | EmptyString => O
  | String c rest =>
      if Ascii.eqb c sep then S (occurrences sep rest) else occurrences sep rest
  end.

(** The rows of page [p], counted from 1, for pages of [k] rows. *)
Definition page_rows {A : Type} (items : list A) (k p : nat) : list A :=
  firstn k (skipn ((p - 1) * k) items).

(** Some clips and a lowering of the filter for the examples. *)
Definition clips_3 : list Search.Clip :=
  [ Search.mkClip "A" 0 2 90 "a.png"; Search.mkClip "B" 1 3 76 "b.png";
    Search.mkClip "C" 0 1 10 "c.png" ].

(** [d] may follow [c] in a list sorted by score, highest first. *)
Definition not_below (c d : Search.Clip) : Prop :=
  Search.score d <= Search.score c.

(** The clips with score [s], in the order of [l]. *)
Definition with_score (s : Q) (l : list Search.Clip) : list Search.Clip :=
  filter (fun c => Qeq_bool (Search.score c) s) l.

(** The clips an entry of [results.data] stands for. *)
Definition clips_of (item : Search.Item) : list Search.Clip :=
  match item with
  | Search.Grouped cs => cs
  | Search.Single c => [c]
  end.

(** The chain of pages that starts at [results] ends, by a page without
    token or by a fetch that fails, within [n] fetches. *)
Inductive ends_within (client : Search.Client)
  : Search.Results -> nat -> Prop :=
  | ends_here results n :
      Search.next_token results = None ->
      ends_within client results n
  | ends_failing results token n :
      Search.next_token results = Some token ->
      Search.by_page_token client token = None ->
      ends_within client results (S n)
  | ends_later results token results' n :
      Search.next_token results = Some token ->
      Search.by_page_token client token = Some results' ->
      ends_within client results' n ->
      ends_within client results (S n).

(** A provider with two pages of results for every query. *)
Definition two_pages : Search.Client :=
  Search.mkClient
    (fun _ =>
       Some (Search.mkResults
               [Search.Grouped [Search.mkClip "B" 1 3 76 "b.png"];
                Search.Single (Search.mkClip "C" 0 1 10 "c.png")]
               (Search.mkPageInfo (Some 3%nat) (Some "next"))))
    (fun token =>
       if String.eqb token "next"
       then Some (Search.mkResults
                    [Search.Single (Search.mkClip "A" 0 2 90 "a.png")]
                    (Search.mkPageInfo None None))
       else None).

Definition empty_cache : Search.Cache := fun _ => None.

(* ================================================================== *)
(** * Properties                                                       *)
(* ================================================================== *)

(** ** Binary64 rounding *)

Module FloatFacts.

Lemma two_neq_0 : ~ 2 == 0.
Proof. discriminate. Qed.

Lemma pow2_pos (k : Z) : 0 < 2 ^ k.
Proof. apply Qpower_0_lt. reflexivity. Qed.

Lemma pow2_le (a b : Z) : (a <= b)%Z -> 2 ^ a <= 2 ^ b.
Proof. intros H. apply Qpower_le_compat_l; [assumption | discriminate]. Qed.

Lemma pow2_lt_inv (a b : Z) : 2 ^ a < 2 ^ b -> (a < b)%Z.
Proof. intros H. apply (Qpower_lt_compat_l_inv 2); [assumption | reflexivity]. Qed.

Lemma pow2_plus (a b : Z) : 2 ^ (a + b) == 2 ^ a * 2 ^ b.
Proof. apply Qpower_plus, two_neq_0. Qed.

Lemma pow2_cancel (k : Z) : 2 ^ k * 2 ^ (- k) == 1.
Proof.
  rewrite <- pow2_plus. replace (k + - k)%Z with 0%Z by lia. reflexivity.
Qed.

Lemma pow2_Z (k : Z) : (0 <= k)%Z -> 2 ^ k == inject_Z (2 ^ k).
Proof. intros H. now rewrite Zpower_Qpower. Qed.

Lemma pow2_succ (k : Z) : 2 ^ (k + 1) == 2 * 2 ^ k.
Proof. rewrite pow2_plus. change (2 ^ 1) with 2. ring. Qed.

(** [ilog2] is the binary exponent. *)
Lemma ilog2_spec (x : Q) :
  0 < x -> 2 ^ Float.ilog2 x <= x /\ x < 2 ^ (Float.ilog2 x + 1).
Proof.
  intros Hx. destruct x as [n d].
  assert (Hn : (0 < n)%Z).
  { unfold Qlt in Hx. simpl in Hx. lia. }
  unfold Float.ilog2. cbn [Qnum Qden].
  set (ln := Z.log2 n). set (ld := Z.log2 (Z.pos d)).
  assert (Hln : (0 <= ln)%Z) by apply Z.log2_nonneg.
  assert (Hld : (0 <= ld)%Z) by apply Z.log2_nonneg.
  destruct (Z.log2_spec n Hn) as [Hn1 Hn2]. fold ln in Hn1, Hn2.
  destruct (Z.log2_spec (Z.pos d) eq_refl) as [Hd1 Hd2]. fold ld in Hd1, Hd2.
  assert (Hup : n # d < 2 ^ (ln - ld + 1)).
  { replace (ln - ld + 1)%Z with (Z.succ ln - ld)%Z by lia.
    rewrite Qpower_minus by apply two_neq_0.
    rewrite !pow2_Z by lia.
    apply Qlt_shift_div_l.
    - change 0 with (inject_Z 0). rewrite <- Zlt_Qlt. lia.
    - unfold Qlt, Qmult, inject_Z. simpl. nia. }
  assert (Hlow : 2 ^ (ln - ld - 1) <= n # d).
  { replace (ln - ld - 1)%Z with (ln - Z.succ ld)%Z by lia.
    rewrite Qpower_minus by apply two_neq_0.
    rewrite !pow2_Z by lia.
    apply Qle_shift_div_r.
    - change 0 with (inject_Z 0). rewrite <- Zlt_Qlt. lia.
    - unfold Qle, Qmult, inject_Z. simpl. nia. }
  destruct (Qle_bool (2 ^ (ln - ld)) (n # d)) eqn:E.
  - apply Qle_bool_iff in E. now split.
  - split; [exact Hlow|].
    replace (ln - ld - 1 + 1)%Z with (ln - ld)%Z by lia.
    apply Qnot_le_lt. intros H. apply Qle_bool_iff in H. congruence.
Qed.

Lemma ilog2_le (x y : Q) :
  0 < x -> x <= y -> (Float.ilog2 x <= Float.ilog2 y)%Z.
Proof.
  intros Hx Hxy.
  assert (Hy : 0 < y) by (apply Qlt_le_trans with x; assumption).
  destruct (ilog2_spec x Hx) as [H1 _].
  destruct (ilog2_spec y Hy) as [_ H2].
  assert (H : 2 ^ Float.ilog2 x < 2 ^ (Float.ilog2 y + 1)).
  { apply Qle_lt_trans with x; [assumption|].
    apply Qle_lt_trans with y; assumption. }
  apply pow2_lt_inv in H. lia.
Qed.

(** Rounding to the nearest integer. *)
Lemma rne_cases (x : Q) :
  Float.rne x = Qfloor x \/ Float.rne x = (Qfloor x + 1)%Z.
Proof.
  unfold Float.rne.
  destruct (Qcompare _ _); [destruct (Z.even _)| |]; auto.
Qed.

Lemma rne_le (x y : Q) : x <= y -> (Float.rne x <= Float.rne y)%Z.
Proof.
  intros Hxy. pose proof (Qfloor_resp_le _ _ Hxy) as Hf.
  destruct (Z.eq_dec (Qfloor x) (Qfloor y)) as [E|E].
  - unfold Float.rne. rewrite <- E.
    destruct (Qcompare (x - inject_Z (Qfloor x)) (1 # 2)) eqn:Cx;
      destruct (Qcompare (y - inject_Z (Qfloor x)) (1 # 2)) eqn:Cy;
      try (destruct (Z.even (Qfloor x))); try lia; exfalso;
      first [apply Qeq_alt in Cx | apply Qlt_alt in Cx | apply Qgt_alt in Cx];
      first [apply Qeq_alt in Cy | apply Qlt_alt in Cy | apply Qgt_alt in Cy];
      lra.
  - destruct (rne_cases x) as [-> | ->], (rne_cases y) as [-> | ->]; lia.
Qed.

Lemma rne_Z (z : Z) : Float.rne (inject_Z z) = z.
Proof.
  unfold Float.rne. rewrite Qfloor_Z.
  assert (E : Qcompare (inject_Z z - inject_Z z) (1 # 2) = Lt).
  { apply Qlt_alt. setoid_replace (inject_Z z - inject_Z z) with 0 by ring.
    reflexivity. }
  now rewrite E.
Qed.

Lemma rne_eq (x y : Q) : x == y -> Float.rne x = Float.rne y.
Proof.
  intros H. apply Z.le_antisymm; apply rne_le; rewrite H; apply Qle_refl.
Qed.

Lemma grid_le (k : Z) (x y : Q) : x <= y -> grid k x <= grid k y.
Proof.
  intros H. unfold grid. apply Qmult_le_compat_r.
  - rewrite <- Zle_Qle. apply rne_le. apply Qmult_le_compat_r; [assumption|].
    apply Qlt_le_weak, pow2_pos.
  - apply Qlt_le_weak, pow2_pos.
Qed.

Lemma grid_fix (k : Z) (x : Q) (z : Z) :
  x * 2 ^ k == inject_Z z -> grid k x == x.
Proof.
  intros H. unfold grid. rewrite (rne_eq _ _ H), rne_Z, <- H.
  rewrite <- Qmult_assoc, pow2_cancel. ring.
Qed.

Lemma grid_pow2 (k e : Z) : (0 <= e + k)%Z -> grid k (2 ^ e) == 2 ^ e.
Proof.
  intros H. apply (grid_fix k _ (2 ^ (e + k))).
  rewrite <- pow2_plus. now apply pow2_Z.
Qed.

Lemma nearest_grid (x : Q) : Float.nearest x = grid (Float.places x) x.
Proof. reflexivity. Qed.

Lemma nearest_le (x y : Q) :
  0 < x -> x <= y -> Float.nearest x <= Float.nearest y.
Proof.
  intros Hx Hxy.
  assert (Hy : 0 < y) by (apply Qlt_le_trans with x; assumption).
  pose proof (ilog2_le x y Hx Hxy) as He.
  rewrite !nearest_grid. unfold Float.places.
  set (ex := Float.ilog2 x) in *. set (ey := Float.ilog2 y) in *.
  destruct (Z.eq_dec (Z.min (52 - ex) 1074) (Z.min (52 - ey) 1074)) as [E|E].
  - rewrite E. now apply grid_le.
  - assert (Hk : (Z.min (52 - ey) 1074 = 52 - ey)%Z) by lia.
    assert (Hlt : (ex < ey)%Z) by lia.
    destruct (ilog2_spec x Hx) as [_ Hx2]. fold ex in Hx2.
    destruct (ilog2_spec y Hy) as [Hy1 _]. fold ey in Hy1.
    assert (Hb : x <= 2 ^ ey).
    { apply Qlt_le_weak. apply Qlt_le_trans with (2 ^ (ex + 1)); [assumption|].
      apply pow2_le. lia. }
    apply Qle_trans with (2 ^ ey).
    + rewrite <- (grid_pow2 (Z.min (52 - ex) 1074) ey) by lia.
      now apply grid_le.
    + rewrite <- (grid_pow2 (Z.min (52 - ey) 1074) ey) at 1 by lia.
      now apply grid_le.
Qed.

Lemma nearest_nonneg (x : Q) : 0 <= x -> 0 <= Float.nearest x.
Proof.
  intros Hx. rewrite nearest_grid. unfold grid.
  apply Qmult_le_0_compat; [|apply Qlt_le_weak, pow2_pos].
  change 0 with (inject_Z 0). rewrite <- Zle_Qle.
  rewrite <- (rne_Z 0). apply rne_le.
  apply Qmult_le_0_compat; [assumption | apply Qlt_le_weak, pow2_pos].
Qed.

Lemma Qnum_sign (x : Q) :
  match Qnum x with
  | Z0 => x == 0
  | Zpos _ => 0 < x
  | Zneg _ => x < 0
  end.
Proof.
  destruct x as [[|p|p] d]; unfold Qeq, Qlt; simpl; lia.
Qed.

(** The rounded value in terms of the sign. *)
Lemma round_zero (x : Q) : x == 0 -> Float.round x == 0.
Proof.
  intros H. unfold Float.round. pose proof (Qnum_sign x) as S.
  destruct (Qnum x); [reflexivity | lra | lra].
Qed.

Lemma round_pos (x : Q) : 0 < x -> Float.round x == Float.nearest x.
Proof.
  intros H. unfold Float.round. pose proof (Qnum_sign x) as S.
  destruct (Qnum x); [lra | apply Qred_correct | lra].
Qed.

Lemma round_neg (x : Q) : x < 0 -> Float.round x == - Float.nearest (- x).
Proof.
  intros H. unfold Float.round. pose proof (Qnum_sign x) as S.
  destruct (Qnum x); [lra | lra | apply Qred_correct].
Qed.

(** Rounding is monotone. *)
Lemma round_le (x y : Q) : x <= y -> Float.round x <= Float.round y.
Proof.
  intros Hxy.
  destruct (Q_dec x 0) as [[Hx|Hx]|Hx], (Q_dec y 0) as [[Hy|Hy]|Hy];
    try (exfalso; lra).
  - rewrite (round_neg x Hx), (round_neg y Hy).
    apply Qopp_le_compat. apply nearest_le; lra.
  - rewrite (round_neg x Hx), (round_pos y Hy).
    pose proof (nearest_nonneg (- x)). pose proof (nearest_nonneg y). lra.
  - rewrite (round_neg x Hx), (round_zero y Hy).
    pose proof (nearest_nonneg (- x)). lra.
  - rewrite (round_pos x Hx), (round_pos y Hy). now apply nearest_le.
  - rewrite (round_zero x Hx), (round_pos y Hy).
    apply nearest_nonneg. lra.
  - rewrite (round_zero x Hx), (round_zero y Hy). apply Qle_refl.
Qed.

Lemma round_eq (x y : Q) : x == y -> Float.round x == Float.round y.
Proof.
  intros H. apply Qle_antisym; apply round_le; rewrite H; apply Qle_refl.
Qed.

Lemma round_opp (x : Q) : Float.round (- x) == - Float.round x.
Proof.
  destruct (Q_dec x 0) as [[Hx|Hx]|Hx].
  - rewrite (round_neg x Hx), (round_pos (- x)) by lra. ring.
  - rewrite (round_pos x Hx), (round_neg (- x)) by lra.
    assert (E : Float.nearest (- - x) == Float.nearest x).
    { rewrite <- !round_pos by lra. apply round_eq. ring. }
    now rewrite E.
  - rewrite (round_zero x Hx), round_zero by lra. reflexivity.
Qed.

(** Integers up to [2^53] are floats. *)
Lemma round_Z (z : Z) :
  (Z.abs z <= 2 ^ 53)%Z -> Float.round (inject_Z z) == inject_Z z.
Proof.
  assert (Hpos : forall n, (0 < n <= 2 ^ 53)%Z ->
            Float.round (inject_Z n) == inject_Z n).
  { intros n [Hn0 Hn].
    destruct (Z.eq_dec n (2 ^ 53)) as [->|Hne]; [vm_compute; reflexivity|].
    assert (Hq : 0 < inject_Z n).
    { change 0 with (inject_Z 0). now rewrite <- Zlt_Qlt. }
    rewrite (round_pos _ Hq), nearest_grid.
    destruct (ilog2_spec _ Hq) as [H1 H2].
    set (e := Float.ilog2 (inject_Z n)) in *.
    assert (He : (0 <= e <= 52)%Z).
    { split.
      - assert (H : 2 ^ 0 < 2 ^ (e + 1)).
        { apply Qle_lt_trans with (inject_Z n); [|assumption].
          change (2 ^ 0) with (inject_Z 1). rewrite <- Zle_Qle. lia. }
        apply pow2_lt_inv in H. lia.
      - assert (H : 2 ^ e < 2 ^ 53).
        { apply Qle_lt_trans with (inject_Z n); [assumption|].
          rewrite (pow2_Z 53) by lia. rewrite <- Zlt_Qlt. lia. }
        apply pow2_lt_inv in H. lia. }
    unfold Float.places. fold e.
    apply (grid_fix _ _ (n * 2 ^ (52 - e))).
    replace (Z.min (52 - e) 1074) with (52 - e)%Z by lia.
    rewrite pow2_Z by lia. now rewrite inject_Z_mult. }
  intros Hz. destruct (Z.lt_trichotomy z 0) as [H|[->|H]].
  - assert (E : inject_Z z == - inject_Z (- z)).
    { rewrite inject_Z_opp. ring. }
    rewrite (round_eq _ _ E), round_opp, Hpos by lia. now rewrite <- E.
  - reflexivity.
  - apply Hpos. lia.
Qed.

Lemma rne_nonneg (x : Q) : 0 <= x -> (0 <= Float.rne x)%Z.
Proof.
  intros H. rewrite <- (rne_Z 0). now apply rne_le.
Qed.

Lemma rne_small (x : Q) : 0 <= x -> x < 1 # 2 -> Float.rne x = 0%Z.
Proof.
  intros H0 H1. apply Z.le_antisymm; [|now apply rne_nonneg].
  assert (Hf : Qfloor x = 0%Z).
  { apply Z.le_antisymm.
    - assert (H : inject_Z (Qfloor x) < inject_Z 1).
      { apply Qle_lt_trans with x; [apply Qfloor_le|].
        change (inject_Z 1) with 1. lra. }
      rewrite <- Zlt_Qlt in H. lia.
    - change 0%Z with (Qfloor 0). now apply Qfloor_resp_le. }
  unfold Float.rne. rewrite Hf.
  assert (E : Qcompare (x - inject_Z 0) (1 # 2) = Lt).
  { apply Qlt_alt.
    setoid_replace (x - inject_Z 0) with x by (change (inject_Z 0) with 0; ring).
    exact H1. }
  rewrite E. lia.
Qed.

(** A positive multiple of [2^-k] with no more places than a float of
    its size has is a float. *)
Lemma nearest_fix (y : Q) (k z : Z) :
  0 < y -> y * 2 ^ k == inject_Z z -> (k <= Float.places y)%Z ->
  Float.nearest y == y.
Proof.
  intros Hy Hz Hk. rewrite nearest_grid.
  apply (grid_fix _ _ (z * 2 ^ (Float.places y - k))).
  rewrite inject_Z_mult, <- Hz, <- pow2_Z by lia.
  rewrite <- Qmult_assoc, <- pow2_plus.
  now replace (k + (Float.places y - k))%Z with (Float.places y) by lia.
Qed.

Lemma nearest_idem (x : Q) :
  0 < x -> Float.nearest x == 0 \/ Float.nearest (Float.nearest x) == Float.nearest x.
Proof.
  intros Hx. set (y := Float.nearest x).
  destruct (Qlt_le_dec 0 y) as [Hy|Hy];
    [|left; apply Qle_antisym;
      [assumption | apply nearest_nonneg; now apply Qlt_le_weak]].
  right.
  set (k := Float.places x). set (e := Float.ilog2 x).
  assert (Hyz : y * 2 ^ k == inject_Z (Float.rne (x * 2 ^ k))).
  { unfold y. rewrite nearest_grid. unfold grid. fold k.
    rewrite <- Qmult_assoc.
    setoid_replace (2 ^ (- k) * 2 ^ k) with 1; [ring|].
    rewrite Qmult_comm. apply pow2_cancel. }
  destruct (ilog2_spec x Hx) as [Hx1 Hx2]. fold e in Hx1, Hx2.
  destruct (Z_le_gt_dec k (Float.places y)) as [Hle|Hgt].
  - now apply (nearest_fix y k _ Hy Hyz).
  - destruct (ilog2_spec y Hy) as [Hy1 Hy2].
    set (e' := Float.ilog2 y) in *.
    assert (Hk : (k = Z.min (52 - e) 1074)%Z) by reflexivity.
    assert (Hk' : (Float.places y = Z.min (52 - e') 1074)%Z) by reflexivity.
    assert (Hee : (e < e')%Z) by lia.
    destruct (Z_lt_ge_dec (e + 1 + k) 0) as [Hneg|Hpos].
    + exfalso.
      assert (Hsmall : x * 2 ^ k < 1 # 2).
      { apply Qlt_le_trans with (2 ^ (e + 1) * 2 ^ k).
        - apply Qmult_lt_compat_r; [apply pow2_pos | assumption].
        - rewrite <- pow2_plus. change (1 # 2) with (2 ^ (-1)).
          apply pow2_le. lia. }
      assert (H0 : 0 <= x * 2 ^ k).
      { apply Qmult_le_0_compat; apply Qlt_le_weak;
          [assumption | apply pow2_pos]. }
      rewrite (rne_small _ H0 Hsmall) in Hyz.
      assert (Hy0 : y == 0).
      { assert (E : y == (y * 2 ^ k) * 2 ^ (- k)).
        { rewrite <- Qmult_assoc, pow2_cancel. ring. }
        rewrite E, Hyz. ring. }
      rewrite Hy0 in Hy. exact (Qlt_irrefl _ Hy).
    + assert (Hup : y <= 2 ^ (e + 1)).
      { rewrite <- (grid_pow2 k (e + 1)) by lia.
        unfold y. rewrite nearest_grid. fold k.
        apply grid_le. now apply Qlt_le_weak. }
      assert (He' : e' = (e + 1)%Z).
      { assert (H : 2 ^ e' < 2 ^ (e + 1 + 1)).
        { apply Qle_lt_trans with y; [assumption|].
          apply Qle_lt_trans with (2 ^ (e + 1)); [assumption|].
          apply Qpower_lt_compat_l; [lia | reflexivity]. }
        apply pow2_lt_inv in H. lia. }
      assert (Hy2e : y == 2 ^ (e + 1)).
      { apply Qle_antisym; [assumption|]. now rewrite <- He'. }
      apply (nearest_fix y (Float.places y) (2 ^ (e + 1 + Float.places y)) Hy);
        [|lia].
      generalize dependent (Float.places y). intros p Hgt Hk'.
      rewrite Hy2e, <- pow2_plus. apply pow2_Z. lia.
Qed.

(** Rounding a float gives the float. *)
Lemma round_idem (x : Q) : Float.round (Float.round x) == Float.round x.
Proof.
  assert (Hpos : forall u, 0 < u ->
            Float.round (Float.nearest u) == Float.nearest u).
  { intros u Hu. destruct (nearest_idem u Hu) as [H0|H].
    - rewrite (round_zero _ H0). now rewrite H0.
    - destruct (Qlt_le_dec 0 (Float.nearest u)) as [Hp|Hn].
      + now rewrite (round_pos _ Hp).
      + assert (H0 : Float.nearest u == 0).
        { apply Qle_antisym; [assumption|].
          apply nearest_nonneg. now apply Qlt_le_weak. }
        rewrite (round_zero _ H0). now rewrite H0. }
  destruct (Q_dec x 0) as [[Hx|Hx]|Hx].
  - rewrite (round_eq _ _ (round_neg x Hx)), round_opp, (round_neg x Hx).
    apply Qopp_comp. apply Hpos. lra.
  - rewrite (round_eq _ _ (round_pos x Hx)), (round_pos x Hx). now apply Hpos.
  - rewrite (round_eq _ _ (round_zero x Hx)). symmetry.
    rewrite (round_zero x Hx). reflexivity.
Qed.

End FloatFacts.

(** ** Dictionaries *)

Section DictFacts.

Context {A : Type}.
Implicit Types (d : Dict.t A) (k m : string) (vs : list A).

Lemma mem_In m ks : mem m ks = true <-> In m ks.
Proof.
  unfold mem. rewrite existsb_exists. split.
  - intros [x [Hx He]]. apply String.eqb_eq in He. now subst.
  - intros H. exists m. split; [assumption | apply String.eqb_refl].
Qed.

Lemma mem_not_In m ks : mem m ks = false <-> ~ In m ks.
Proof.
  rewrite <- mem_In. destruct (mem m ks); split; intros; congruence.
Qed.

Lemma keys_extend d k vs : Dict.keys (Dict.extend d k vs) = Dict.keys d.
Proof.
  induction d as [|[k' v] d IH]; simpl; [reflexivity|].
  destruct (String.eqb k k'); simpl; [reflexivity | now rewrite IH].
Qed.

Lemma get_init ks m : Dict.get (Dict.init (A:=A) ks) m = [].
Proof.
  induction ks as [|k ks IH]; simpl; [reflexivity|].
  now destruct (String.eqb m k).
Qed.

Lemma keys_init ks : Dict.keys (Dict.init (A:=A) ks) = ks.
Proof.
  unfold Dict.keys, Dict.init. rewrite map_map. simpl. apply map_id.
Qed.

Lemma get_extend_same d k vs :
  In k (Dict.keys d) -> Dict.get (Dict.extend d k vs) k = Dict.get d k ++ vs.
Proof.
  induction d as [|[k' v] d IH]; simpl; [tauto|].
  intros Hin. destruct (String.eqb k k') eqn:E; simpl; rewrite E.
  - reflexivity.
  - apply IH. destruct Hin as [H|H]; [|assumption].
    subst. now rewrite String.eqb_refl in E.
Qed.

Lemma get_extend_other d k m vs :
  m <> k -> Dict.get (Dict.extend d k vs) m = Dict.get d m.
Proof.
  intros Hne. induction d as [|[k' v] d IH]; simpl; [reflexivity|].
  destruct (String.eqb k k') eqn:E; simpl.
  - apply String.eqb_eq in E. subst k'.
    apply String.eqb_neq in Hne. now rewrite Hne.
  - now rewrite IH.
Qed.

Lemma get_not_key d m : ~ In m (Dict.keys d) -> Dict.get d m = [].
Proof.
  induction d as [|[k' v] d IH]; simpl; [reflexivity|].
  intros H. destruct (String.eqb m k') eqn:E.
  - apply String.eqb_eq in E. subst. tauto.
  - apply IH. tauto.
Qed.

End DictFacts.

Lemma NoDup_ORDERED_MEASURES : NoDup ORDERED_MEASURES.
Proof.
  unfold ORDERED_MEASURES.
  repeat (constructor; [simpl; intuition discriminate|]).
  constructor.
Qed.

(** ** Pooled mode: what each list of [box_data] holds *)

Module BoxFacts.

Lemma pool_over df seg (ks : list string) : forall (d : Dict.t Q) m,
  NoDup ks -> In m (Dict.keys d) ->
  Dict.get
    (fold_left
       (fun d measure =>
          if Frame.has_column df measure
          then Dict.extend d measure (Frame.dropna (Frame.column seg measure))
          else d) ks d) m
  = Dict.get d m
      ++ (if mem m ks && Frame.has_column df m
          then Frame.dropna (Frame.column seg m) else []).
Proof.
  induction ks as [|k ks IH]; intros d m Hnd Hin; simpl.
  - now rewrite app_nil_r.
  - inversion Hnd as [|? ? Hk Hnd']; subst.
    destruct (String.eqb m k) eqn:E.
    + apply String.eqb_eq in E. subst k.
      assert (Hm : mem m ks = false) by now apply mem_not_In.
      destruct (Frame.has_column df m) eqn:Hc.
      * rewrite IH by (rewrite ?keys_extend; assumption).
        rewrite Hm. simpl. rewrite app_nil_r. now apply get_extend_same.
      * rewrite IH by assumption. rewrite Hm. reflexivity.
    + assert (Hne : m <> k) by now apply String.eqb_neq.
      simpl. destruct (Frame.has_column df k).
      * rewrite IH by (rewrite ?keys_extend; assumption).
        now rewrite get_extend_other.
      * now rewrite IH.
Qed.

Lemma keys_pool df seg (d : Dict.t Q) : Dict.keys (Box.pool df seg d) = Dict.keys d.
Proof.
  unfold Box.pool. generalize ORDERED_MEASURES as ks. intros ks. revert d.
  induction ks as [|k ks IH]; intros d; simpl; [reflexivity|].
  rewrite IH. destruct (Frame.has_column df k); [apply keys_extend | reflexivity].
Qed.

Lemma keys_body store (d : Dict.t Q) mo : Dict.keys (Box.body store d mo) = Dict.keys d.
Proof.
  unfold Box.body.
  destruct (float (start_time mo)); [|reflexivity].
  destruct (float (end_time mo)); [|reflexivity].
  destruct (store (video_id mo)); try reflexivity.
  destruct (Frame.empty _); [reflexivity | apply keys_pool].
Qed.

Lemma get_body store (d : Dict.t Q) mo m :
  In m ORDERED_MEASURES -> In m (Dict.keys d) ->
  Dict.get (Box.body store d mo) m = Dict.get d m ++ Pooled.contribution store m mo.
Proof.
  intros Hm Hin. unfold Box.body, Pooled.contribution.
  destruct (float (start_time mo)); [|now rewrite app_nil_r].
  destruct (float (end_time mo)); [|now rewrite app_nil_r].
  destruct (store (video_id mo)); try now rewrite app_nil_r.
  destruct (Frame.empty _); [now rewrite app_nil_r|].
  unfold Box.pool. rewrite pool_over by (auto using NoDup_ORDERED_MEASURES).
  apply mem_In in Hm. rewrite Hm. reflexivity.
Qed.

Lemma get_fold store ms : forall (d : Dict.t Q) m,
  In m ORDERED_MEASURES -> In m (Dict.keys d) ->
  Dict.get (fold_left (Box.body store) ms d) m
  = Dict.get d m ++ flat_map (Pooled.contribution store m) ms.
Proof.
  induction ms as [|mo ms IH]; intros d m Hm Hin; simpl.
  - now rewrite app_nil_r.
  - rewrite IH by (rewrite ?keys_body; assumption).
    rewrite get_body by assumption. now rewrite app_assoc.
Qed.

(** The list of [measure] is the concatenation, in the order of the
    moments, of what each moment contributes. *)
Lemma get_box_data store ms m :
  In m ORDERED_MEASURES ->
  Dict.get (Box.box_data store ms) m = flat_map (Pooled.contribution store m) ms.
Proof.
  intros Hm. unfold Box.box_data.
  rewrite get_fold by (rewrite ?keys_init; assumption).
  now rewrite get_init.
Qed.

Lemma keys_box_data store ms : Dict.keys (Box.box_data store ms) = ORDERED_MEASURES.
Proof.
  unfold Box.box_data. generalize (keys_init (A:=Q) ORDERED_MEASURES).
  generalize (Dict.init (A:=Q) ORDERED_MEASURES) as d. revert ms.
  induction ms as [|mo ms IH]; intros d Hd; simpl; [assumption|].
  apply IH. now rewrite keys_body.
Qed.

End BoxFacts.

(** ** Segment extraction *)

(** A difference within the decimal 0.05 is, once rounded, within the
    double 0.05. *)
Lemma rounded_near (x : Q) :
  Qabs x <= tol -> Qabs (Float.round x) <= Float.literal tol.
Proof.
  intros H. apply Qabs_Qle_condition in H. destruct H as [H1 H2].
  apply FloatFacts.round_le in H1, H2.
  assert (E : Float.round (- tol) == - Float.literal tol)
    by (vm_compute; reflexivity).
  rewrite E in H1. apply Qabs_Qle_condition. now split.
Qed.

Lemma snap_end_near (et mx : Q) :
  Qabs (et - mx) <= tol -> snap_end et (Some mx) = mx.
Proof.
  intros H. unfold snap_end, Float.sub. apply rounded_near in H.
  apply Qle_bool_iff in H. now rewrite H.
Qed.

Lemma snap_end_cases (et mx : Q) :
  (Qabs (Float.sub et mx) <= Float.literal tol /\ snap_end et (Some mx) = mx)
  \/ (Float.literal tol < Qabs (Float.sub et mx)
      /\ snap_end et (Some mx) = et).
Proof.
  unfold snap_end.
  destruct (Qle_bool (Qabs (Float.sub et mx)) (Float.literal tol)) eqn:E.
  - left. split; [now apply Qle_bool_iff | reflexivity].
  - right. split; [|reflexivity]. apply Qnot_le_lt. intros H.
    apply Qle_bool_iff in H. congruence.
Qed.

Lemma extract_snapped (df : DataFrame) (st et mx : Q) :
  Frame.max (Frame.Time df) = Some mx ->
  Qabs (et - mx) <= tol ->
  extract df st et = Frame.between df st mx.
Proof.
  intros Hmx Hnear. unfold extract. rewrite Hmx.
  now rewrite snap_end_near.
Qed.

Lemma near_above (mx : Q) : Qabs (mx + (4 # 100) - mx) <= tol.
Proof.
  assert (E : mx + (4 # 100) - mx == 4 # 100) by ring.
  rewrite E. unfold tol. rewrite Qabs_pos; [|discriminate].
  unfold Qle. simpl. lia.
Qed.

Lemma near_self (mx : Q) : Qabs (mx - mx) <= tol.
Proof.
  assert (E : mx - mx == 0) by ring.
  rewrite E. unfold tol. simpl. unfold Qle. simpl. lia.
Qed.

(** C3. End-snapping: when [|end - series.max_time| <= 0.05] the
    extraction selects the rows with [start <= t <= series.max_time];
    so the extraction with [end = series.max_time + 0.04] is the same
    segment as the one with [end = series.max_time], and the loops of
    [compute_averages] and [aggregated_box] do the same for both. *)
Theorem end_snapping (df : DataFrame) (st et mx : Q) :
  Frame.max (Frame.Time df) = Some mx ->
  (Qabs (et - mx) <= tol ->
     snap_end et (Some mx) = mx /\ extract df st et = Frame.between df st mx)
  /\ extract df st (mx + (4 # 100)) = extract df st mx
  /\ (forall (store : Store) (v a : string) (s : form_value) (d : Dict.t Q),
        store v = Loaded df ->
        Averages.body store (mkMoment v s (Num (mx + (4 # 100))) a)
          = Averages.body store (mkMoment v s (Num mx) a)
        /\ Box.body store d (mkMoment v s (Num (mx + (4 # 100))) a)
          = Box.body store d (mkMoment v s (Num mx) a)).
Proof.
  intros Hmx.
  assert (Hsame : forall s, extract df s (mx + (4 # 100)) = extract df s mx).
  { intros s. rewrite (extract_snapped df s _ mx Hmx (near_above mx)).
    now rewrite (extract_snapped df s _ mx Hmx (near_self mx)). }
  split; [|split].
  - intros Hnear. split.
    + now apply snap_end_near.
    + now apply extract_snapped.
  - apply Hsame.
  - intros store v a s d Hv.
    unfold Averages.body, Box.body. simpl.
    destruct (float s) as [s'|]; [|split; reflexivity].
    rewrite Hv, Hsame. split; reflexivity.
Qed.

Lemma end_snapping_witness :
  extract series_A 1 (2 + (4 # 100)) = extract series_A 1 2.
Proof.
  apply (end_snapping series_A 1 2 2). reflexivity.
Defined.

(** ** The shared grid *)

Lemma Qmin_cases (x y : Q) : Qmin x y = x \/ Qmin x y = y.
Proof.
  unfold Qmin, GenericMinMax.gmin. destruct (x ?= y); auto.
Qed.

Lemma fold_Qmin_In (l : list Q) : forall x, In (fold_left Qmin l x) (x :: l).
Proof.
  induction l as [|y l IH]; intros x; simpl; [now left|].
  destruct (IH (Qmin x y)) as [H|H].
  - rewrite <- H.
    destruct (Qmin_cases x y) as [E|E]; rewrite E; [now left | right; now left].
  - right. now right.
Qed.

Lemma fold_Qmin_le (l : list Q) : forall x d,
  In d (x :: l) -> fold_left Qmin l x <= d.
Proof.
  induction l as [|y l IH]; intros x d Hd; simpl.
  - destruct Hd as [->|[]]. apply Qle_refl.
  - destruct Hd as [->|[->|Hd]].
    + apply Qle_trans with (Qmin d y); [apply IH; now left | apply Q.le_min_l].
    + apply Qle_trans with (Qmin x d); [apply IH; now left | apply Q.le_min_r].
    + apply IH. now right.
Qed.

Lemma pure_duration_of_min (ds : list Q) :
  ds <> [] ->
  In (pure_duration_of ds) ds /\ (forall d, In d ds -> pure_duration_of ds <= d).
Proof.
  destruct ds as [|x l]; [congruence|]. intros _. simpl. split.
  - apply (fold_Qmin_In l x).
  - intros d Hd. now apply fold_Qmin_le.
Qed.

Lemma In_durations (ms : list Moment) (d : Q) :
  In d (durations ms) <->
  exists m st et, In m ms /\ float (start_time m) = Some st
                  /\ float (end_time m) = Some et /\ d = Float.sub et st.
Proof.
  unfold durations. rewrite in_flat_map. split.
  - intros [m [Hm Hd]]. unfold duration in Hd.
    destruct (float (start_time m)) as [st|] eqn:Es; [|contradiction].
    destruct (float (end_time m)) as [et|] eqn:Ee; [|contradiction].
    destruct Hd as [<-|[]]. now exists m, st, et.
  - intros [m [st [et [Hm [Es [Ee ->]]]]]]. exists m. split; [assumption|].
    unfold duration. rewrite Es, Ee. now left.
Qed.

(** The pure duration is a float. *)
Lemma pure_duration_float (ms : list Moment) :
  Float.round (pure_duration ms) == pure_duration ms.
Proof.
  unfold pure_duration.
  destruct (durations ms) as [|d ds] eqn:E; [reflexivity|].
  assert (Hne : durations ms <> []) by (rewrite E; discriminate).
  destruct (pure_duration_of_min (durations ms) Hne) as [Hin _].
  apply In_durations in Hin. rewrite E in Hin.
  destruct Hin as [m [st [et [_ [_ [_ ->]]]]]].
  apply FloatFacts.round_idem.
Qed.

Lemma linspace_length (a b : Q) (n : nat) : List.length (Numpy.linspace a b n) = n.
Proof. unfold Numpy.linspace. now rewrite length_map, length_seq. Qed.

Lemma nth_map_seq {A : Type} (f : nat -> A) (n i : nat) (d : A) :
  (i < n)%nat -> nth i (map f (seq 0 n)) d = f i.
Proof.
  intros Hi.
  rewrite (nth_indep _ d (f O)) by (now rewrite length_map, length_seq).
  rewrite map_nth. now rewrite seq_nth.
Qed.

Lemma linspace_nth (a b : Q) (i : nat) :
  (i < 100)%nat ->
  nth i (Numpy.linspace a b 100) 0
  == a + inject_Z (Z.of_nat i) * ((b - a) / 99).
Proof.
  intros Hi. unfold Numpy.linspace.
  rewrite nth_map_seq by assumption.
  change (inject_Z (Z.of_nat (100 - 1))) with (99 : Q).
  destruct (Nat.eqb (S i) 100) eqn:E.
  - apply Nat.eqb_eq in E. assert (i = 99%nat) by lia. subst i.
    change (inject_Z (Z.of_nat 99)) with (99 : Q). field.
  - destruct (Qeq_bool ((b - a) / 99) 0); field.
Qed.

(** What a page of [aggregated_line] is made of. *)
Lemma aggregated_line_Page store ms pre post pd q o :
  Line.aggregated_line store ms pre post pd q = Page o ->
  let ct := Numpy.linspace (- pre) (Float.add pd post) 100 in
  let lists := Line.loop store pre post (Float.add pd post) ms in
  Line.included_events lists <> []
  /\ exists d,
       Line.interp_data ct (Line.included_events lists) = Some d
       /\ o = Line.mkOutput ct (Line.averaged_of d) Line.header
                (Line.csv_rows q ct (Line.averaged_of d))
                (Line.excluded_names lists) pd.
Proof.
  intros H ct lists. unfold Line.aggregated_line in H.
  subst ct lists. cbv zeta in H.
  destruct (Line.included_events _) as [|e es]; [discriminate|].
  split; [discriminate|].
  destruct (Line.interp_data _ (e :: es)) as [d|]; [|discriminate].
  exists d. split; [reflexivity|]. now inversion H.
Qed.

Lemma aggregated_graphs_line store ms pre post q o :
  aggregated_graphs store "line" ms pre post q = Page (LineGraphs o) ->
  Line.aggregated_line store ms pre post (pure_duration ms) q = Page o.
Proof.
  unfold aggregated_graphs. simpl String.eqb. cbv iota.
  destruct (Line.aggregated_line _ _ _ _ _ _); simpl; intros H;
    now inversion H.
Qed.

(** C4. The shared grid of aligned mode: [pure_duration] is the least
    [end - start] over the moments whose start and end parse (it is one of
    these differences), [effective_post = pure_duration + post_extra]
    (the difference and the sum being the doubles the code computes), and
    the grid has exactly 100 points, point [i] being
    [-pre_duration + i * (effective_post + pre_duration) / 99]; it starts
    at [-pre_duration] and ends at [effective_post], so with
    [pre_duration = post_extra = 0] it spans exactly [0, pure_duration]. *)
Theorem shared_grid (store : Store) (ms : list Moment) (pre post : Q)
    (q : string) (o : Line.Output) :
  aggregated_graphs store "line" ms pre post q = Page (LineGraphs o) ->
  let pd := pure_duration ms in
  let effective_post := Float.add pd post in
  (forall d, In d (durations ms) <->
     exists m st et, In m ms /\ float (start_time m) = Some st
                     /\ float (end_time m) = Some et /\ d = Float.sub et st)
  /\ (durations ms <> [] ->
        In pd (durations ms) /\ forall d, In d (durations ms) -> pd <= d)
  /\ Line.common_time o = Numpy.linspace (- pre) effective_post 100
  /\ List.length (Line.common_time o) = 100%nat
  /\ (forall i, (i < 100)%nat ->
        nth i (Line.common_time o) 0
        == - pre + inject_Z (Z.of_nat i) * ((effective_post - - pre) / 99))
  /\ nth 0 (Line.common_time o) 0 == - pre
  /\ nth 99 (Line.common_time o) 0 == effective_post
  /\ (pre == 0 -> post == 0 ->
        nth 0 (Line.common_time o) 0 == 0
        /\ nth 99 (Line.common_time o) 0 == pd).
Proof.
  intros H pd effective_post.
  apply aggregated_graphs_line, aggregated_line_Page in H.
  destruct H as [_ [d [_ Ho]]].
  assert (Hct : Line.common_time o = Numpy.linspace (- pre) effective_post 100)
    by (subst o; reflexivity).
  assert (H0 : nth 0 (Line.common_time o) 0 == - pre).
  { rewrite Hct, linspace_nth by lia. simpl. field. }
  assert (H99 : nth 99 (Line.common_time o) 0 == effective_post).
  { rewrite Hct, linspace_nth by lia.
    change (inject_Z (Z.of_nat 99)) with (99 : Q). field. }
  split; [apply In_durations|].
  split; [apply pure_duration_of_min|].
  split; [exact Hct|].
  split; [rewrite Hct; apply linspace_length|].
  split; [intros i Hi; rewrite Hct; now apply linspace_nth|].
  split; [exact H0|]. split; [exact H99|].
  intros Hpre Hpost. split.
  - rewrite H0, Hpre. reflexivity.
  - rewrite H99. unfold effective_post, Float.add.
    transitivity (Float.round pd); [|apply pure_duration_float].
    apply FloatFacts.round_eq. rewrite Hpost. ring.
Qed.

Lemma example_page :
  aggregated_graphs example_store "line" example_moments 0 0 "q"
  = Page (LineGraphs example_output).
Proof. vm_compute. reflexivity. Qed.

Lemma shared_grid_witness :
  nth 0 (Line.common_time example_output) 0 == 0
  /\ nth 99 (Line.common_time example_output) 0 == pure_duration example_moments.
Proof.
  apply (shared_grid example_store example_moments 0 0 "q" example_output
           example_page); reflexivity.
Defined.

(** ** Aligned mode: the loop over the moments *)

Module LineFacts.

Section Loop.

Variable store : Store.
Variables pre post ep : Q.

Let turn (m : Moment) : Line.Turn := Line.body store pre post ep m.

Lemma fold_record (ms : list Moment) : forall s,
  fold_left (fun s m => Line.record s (turn m)) ms s
  = Line.mkLists
      (Line.included_events s ++ flat_map (fun m => Aligned.events_of (turn m)) ms)
      (Line.excluded_names s ++ flat_map (fun m => Aligned.names_of (turn m)) ms).
Proof.
  induction ms as [|m ms IH]; intros [inc exc]; simpl.
  - now rewrite !app_nil_r.
  - rewrite IH. destruct (turn m); simpl;
      now rewrite <- ?app_assoc.
Qed.

(** [included_events] and [excluded_names] list, in the order of the
    moments, what each turn recorded. *)
Lemma loop_lists (ms : list Moment) :
  Line.loop store pre post ep ms
  = Line.mkLists (flat_map (fun m => Aligned.events_of (turn m)) ms)
                 (flat_map (fun m => Aligned.names_of (turn m)) ms).
Proof. unfold Line.loop. fold turn. now rewrite fold_record. Qed.

Lemma loop_app (ms1 ms2 : list Moment) :
  Line.loop store pre post ep (ms1 ++ ms2)
  = Line.mkLists
      (Line.included_events (Line.loop store pre post ep ms1)
         ++ Line.included_events (Line.loop store pre post ep ms2))
      (Line.excluded_names (Line.loop store pre post ep ms1)
         ++ Line.excluded_names (Line.loop store pre post ep ms2)).
Proof. rewrite !loop_lists. simpl. now rewrite !flat_map_app. Qed.

Lemma loop_insert (ms1 ms2 : list Moment) (m : Moment) :
  Line.loop store pre post ep (ms1 ++ m :: ms2)
  = Line.mkLists
      (Line.included_events (Line.loop store pre post ep ms1)
         ++ Aligned.events_of (turn m)
         ++ Line.included_events (Line.loop store pre post ep ms2))
      (Line.excluded_names (Line.loop store pre post ep ms1)
         ++ Aligned.names_of (turn m)
         ++ Line.excluded_names (Line.loop store pre post ep ms2)).
Proof. rewrite !loop_lists. simpl. rewrite !flat_map_app. reflexivity. Qed.

(** A turn that records nothing leaves both lists as they are without
    the moment. *)
Lemma loop_skip (ms1 ms2 : list Moment) (m : Moment) :
  turn m = Line.Skipped ->
  Line.loop store pre post ep (ms1 ++ m :: ms2)
  = Line.loop store pre post ep (ms1 ++ ms2).
Proof.
  intros H. rewrite loop_insert, loop_app, H. reflexivity.
Qed.

End Loop.

Lemma Qltb_lt (x y : Q) : Numpy.Qltb x y = true <-> x < y.
Proof.
  unfold Numpy.Qltb. rewrite negb_true_iff. split.
  - intros H. apply Qnot_le_lt. intros Hle.
    apply Qle_bool_iff in Hle. congruence.
  - intros H. destruct (Qle_bool y x) eqn:E; [|reflexivity].
    apply Qle_bool_iff in E. exfalso. exact (Qlt_not_le _ _ H E).
Qed.

Lemma Qltb_ge (x y : Q) : Numpy.Qltb x y = false <-> y <= x.
Proof.
  unfold Numpy.Qltb. rewrite negb_false_iff. apply Qle_bool_iff.
Qed.

(** The test of lines 856-857 on a series with samples. *)
Lemma insufficient_spec (pre post ep st a b : Q) :
  Line.insufficient pre post ep st (Some a) (Some b) = true
  <-> (0 < pre \/ 0 < post)
      /\ (Float.sub st pre < Float.sub a (Float.literal tol)
          \/ Float.add b (Float.literal tol) < Float.add st ep).
Proof.
  unfold Line.insufficient, Line.positive, Line.lt_cell, Line.gt_cell. simpl.
  rewrite andb_true_iff, !orb_true_iff, !Qltb_lt. reflexivity.
Qed.

Lemma sufficient_spec (pre post ep st a b : Q) :
  Float.sub a (Float.literal tol) <= Float.sub st pre ->
  Float.add st ep <= Float.add b (Float.literal tol) ->
  Line.insufficient pre post ep st (Some a) (Some b) = false.
Proof.
  intros Ha Hb.
  destruct (Line.insufficient pre post ep st (Some a) (Some b)) eqn:E;
    [|reflexivity].
  apply insufficient_spec in E. destruct E as [_ [E|E]]; exfalso.
  - exact (Qlt_not_le _ _ E Ha).
  - exact (Qlt_not_le _ _ E Hb).
Qed.

Lemma body_loaded store pre post ep m st et df :
  float (start_time m) = Some st -> float (end_time m) = Some et ->
  store (video_id m) = Loaded df ->
  Line.body store pre post ep m
  = if Line.insufficient pre post ep st
         (Frame.min (Frame.Time df)) (Frame.max (Frame.Time df))
    then Line.Excluded (ad_name m)
    else Line.Included (Aligned.event_of df pre ep st).
Proof.
  intros Hs He Hl. unfold Line.body. rewrite Hs, He, Hl. reflexivity.
Qed.

End LineFacts.



(** ** Aligned mode: the end of a moment *)

Lemma body_end_time (store : Store) (pre post ep : Q)
    (v a : string) (s : form_value) (e e' : Q) :
  Line.body store pre post ep (mkMoment v s (Num e) a)
  = Line.body store pre post ep (mkMoment v s (Num e') a).
Proof. reflexivity. Qed.

Lemma loop_end_time (store : Store) (pre post ep : Q)
    (ms1 ms2 : list Moment) (v a : string) (s : form_value) (e e' : Q) :
  Line.loop store pre post ep (ms1 ++ mkMoment v s (Num e) a :: ms2)
  = Line.loop store pre post ep (ms1 ++ mkMoment v s (Num e') a :: ms2).
Proof.
  rewrite !LineFacts.loop_insert.
  now rewrite (body_end_time store pre post ep v a s e e').
Qed.

Lemma aggregated_line_end_time (store : Store) (pre post pd : Q) (q : string)
    (ms1 ms2 : list Moment) (v a : string) (s : form_value) (e e' : Q) :
  Line.aggregated_line store (ms1 ++ mkMoment v s (Num e) a :: ms2) pre post pd q
  = Line.aggregated_line store (ms1 ++ mkMoment v s (Num e') a :: ms2) pre post pd q.
Proof.
  unfold Line.aggregated_line.
  now rewrite (loop_end_time store pre post (Float.add pd post) ms1 ms2 v a s e e').
Qed.

(** C10. In aligned mode the turn of a moment does not depend on the
    value of its end time: the exclusion test reads only the start, the
    two durations and the bounds of the series, and the rows are those of
    [[start - pre_duration, start + effective_post]].  Two requests that
    differ in the end time of one moment give the same page for the same
    [pure_duration], hence the same page of [aggregated_graphs] when their
    pure durations are equal, and replacing the end time by its snapped
    value changes nothing. *)
Theorem end_time_only_through_pure_duration (store : Store) (pre post : Q)
    (q : string) (ms1 ms2 : list Moment) (v a : string) (s : form_value)
    (e e' : Q) :
  let m := mkMoment v s (Num e) a in
  let m' := mkMoment v s (Num e') a in
  (forall ep, Line.body store pre post ep m = Line.body store pre post ep m')
  /\ (forall ep st df,
        float s = Some st -> store v = Loaded df ->
        Line.body store pre post ep m
        = if Line.insufficient pre post ep st
               (Frame.min (Frame.Time df)) (Frame.max (Frame.Time df))
          then Line.Excluded a
          else Line.Included
                 (Line.mkEvent
                    (Frame.between df (Float.sub st pre) (Float.add st ep))
                    (map (fun t => Float.sub t st)
                       (Frame.Time
                          (Frame.between df (Float.sub st pre)
                             (Float.add st ep))))))
  /\ (forall pd,
        Line.aggregated_line store (ms1 ++ m :: ms2) pre post pd q
        = Line.aggregated_line store (ms1 ++ m' :: ms2) pre post pd q)
  /\ (pure_duration (ms1 ++ m :: ms2) = pure_duration (ms1 ++ m' :: ms2) ->
        aggregated_graphs store "line" (ms1 ++ m :: ms2) pre post q
        = aggregated_graphs store "line" (ms1 ++ m' :: ms2) pre post q)
  /\ (forall ep df,
        store v = Loaded df ->
        Line.body store pre post ep
          (mkMoment v s (Num (snap_end e (Frame.max (Frame.Time df)))) a)
        = Line.body store pre post ep m).
Proof.
  intros m m'. split; [|split; [|split; [|split]]].
  - intros ep. apply body_end_time.
  - intros ep st df Hs Hl.
    now rewrite (LineFacts.body_loaded store pre post ep m st e df Hs eq_refl Hl).
  - intros pd. apply aggregated_line_end_time.
  - intros Hpd. unfold aggregated_graphs. simpl String.eqb. cbv iota.
    rewrite Hpd. unfold m, m'. now rewrite aggregated_line_end_time with (e' := e').
  - intros ep df Hl. apply body_end_time.
Qed.

Lemma end_time_only_through_pure_duration_witness :
  aggregated_graphs example_store "line"
    ([mkMoment "A" (Num 0) (Num 2) "Ad A"] ++ mkMoment "B" (Num 0) (Num 3) "Ad B" :: [])
    0 0 "q"
  = aggregated_graphs example_store "line"
      ([mkMoment "A" (Num 0) (Num 2) "Ad A"] ++ mkMoment "B" (Num 0) (Num 5) "Ad B" :: [])
      0 0 "q".
Proof.
  apply (end_time_only_through_pure_duration example_store 0 0 "q"
           [mkMoment "A" (Num 0) (Num 2) "Ad A"] [] "B" "Ad B" (Num 0) 3 5).
  reflexivity.
Defined.

(** ** Moments that record nothing *)

Lemma box_data_skip (store : Store) (m : Moment) (ms1 ms2 : list Moment) :
  (forall d, Box.body store d m = d) ->
  Box.box_data store (ms1 ++ m :: ms2) = Box.box_data store (ms1 ++ ms2).
Proof.
  intros H. unfold Box.box_data. rewrite !fold_left_app. simpl.
  now rewrite H.
Qed.

Lemma combined_segments_skip (store : Store) (m : Moment) (ms1 ms2 : list Moment) :
  Averages.body store m = [] ->
  Averages.combined_segments store (ms1 ++ m :: ms2)
  = Averages.combined_segments store (ms1 ++ ms2).
Proof.
  intros H. unfold Averages.combined_segments.
  rewrite !flat_map_app. simpl. now rewrite H.
Qed.

Lemma aggregated_line_skip (store : Store) (m : Moment) (ms1 ms2 : list Moment)
    (pre post pd : Q) (q : string) :
  Line.body store pre post (Float.add pd post) m = Line.Skipped ->
  Line.aggregated_line store (ms1 ++ m :: ms2) pre post pd q
  = Line.aggregated_line store (ms1 ++ ms2) pre post pd q.
Proof.
  intros H. unfold Line.aggregated_line.
  now rewrite (LineFacts.loop_skip store pre post (Float.add pd post) ms1 ms2 m H).
Qed.

Lemma missing_line store pre post ep m :
  store (video_id m) = NotFound -> Line.body store pre post ep m = Line.Skipped.
Proof.
  unfold Line.body. intros H. rewrite H.
  destruct (float (start_time m)); [|reflexivity].
  now destruct (float (end_time m)).
Qed.

Lemma unread_box store d m :
  store (video_id m) = NotFound \/ store (video_id m) = ReadFails ->
  Box.body store d m = d.
Proof.
  unfold Box.body. intros [H|H]; rewrite H;
    (destruct (float (start_time m)); [|reflexivity]);
    now destruct (float (end_time m)).
Qed.

Lemma unread_averages store m :
  store (video_id m) = NotFound \/ store (video_id m) = ReadFails ->
  Averages.body store m = [].
Proof.
  unfold Averages.body. intros [H|H]; rewrite H;
    (destruct (float (start_time m)); [|reflexivity]);
    now destruct (float (end_time m)).
Qed.

Lemma failing_line store pre post ep m st et :
  float (start_time m) = Some st -> float (end_time m) = Some et ->
  store (video_id m) = ReadFails ->
  Line.body store pre post ep m = Line.Excluded (ad_name m).
Proof. unfold Line.body. intros Hs He H. now rewrite Hs, He, H. Qed.

(** C8 (as the code has it). A moment whose dataset is missing is skipped
    silently everywhere: the lists of aligned mode, its page, the pooled
    lists of box mode and the segments of [compute_averages] are those of
    the request without the moment.  A moment whose dataset read fails is
    skipped silently in box mode and in [compute_averages]; in aligned
    mode it contributes no event, the remaining moments are processed, and
    (when its times parse) its label is appended to the excluded names. *)
Theorem unreadable_datasets (store : Store) (pre post : Q) (q : string)
    (m : Moment) (ms1 ms2 : list Moment) :
  (store (video_id m) = NotFound ->
     (forall ep, Line.loop store pre post ep (ms1 ++ m :: ms2)
                 = Line.loop store pre post ep (ms1 ++ ms2))
     /\ (forall pd, Line.aggregated_line store (ms1 ++ m :: ms2) pre post pd q
                    = Line.aggregated_line store (ms1 ++ ms2) pre post pd q)
     /\ Box.box_data store (ms1 ++ m :: ms2) = Box.box_data store (ms1 ++ ms2)
     /\ Averages.combined_segments store (ms1 ++ m :: ms2)
        = Averages.combined_segments store (ms1 ++ ms2))
  /\ (store (video_id m) = ReadFails ->
        Box.box_data store (ms1 ++ m :: ms2) = Box.box_data store (ms1 ++ ms2)
        /\ Averages.combined_segments store (ms1 ++ m :: ms2)
           = Averages.combined_segments store (ms1 ++ ms2)
        /\ forall ep,
             Line.included_events (Line.loop store pre post ep (ms1 ++ m :: ms2))
             = Line.included_events (Line.loop store pre post ep (ms1 ++ ms2))
             /\ (forall st et,
                   float (start_time m) = Some st ->
                   float (end_time m) = Some et ->
                   Line.excluded_names
                     (Line.loop store pre post ep (ms1 ++ m :: ms2))
                   = Line.excluded_names (Line.loop store pre post ep ms1)
                       ++ ad_name m
                       :: Line.excluded_names (Line.loop store pre post ep ms2))).
Proof.
  split.
  - intros H. split; [|split; [|split]].
    + intros ep. apply LineFacts.loop_skip. now apply missing_line.
    + intros pd. apply aggregated_line_skip. now apply missing_line.
    + apply box_data_skip. intros d. apply unread_box. now left.
    + apply combined_segments_skip. apply unread_averages. now left.
  - intros H. split; [|split].
    + apply box_data_skip. intros d. apply unread_box. now right.
    + apply combined_segments_skip. apply unread_averages. now right.
    + intros ep. rewrite LineFacts.loop_insert, LineFacts.loop_app. simpl.
      split.
      * unfold Line.body. rewrite H.
        destruct (float (start_time m)); [|reflexivity].
        now destruct (float (end_time m)).
      * intros st et Hs He.
        now rewrite (failing_line store pre post ep m st et Hs He H).
Qed.

Lemma unreadable_datasets_witness :
  Line.excluded_names
    (Line.loop failing_store 0 0 2
       ([mkMoment "A" (Num 0) (Num 2) "Ad A"]
          ++ mkMoment "X" (Num 0) (Num 2) "Ad X" :: []))
  = Line.excluded_names
      (Line.loop failing_store 0 0 2 [mkMoment "A" (Num 0) (Num 2) "Ad A"])
      ++ "Ad X" :: Line.excluded_names (Line.loop failing_store 0 0 2 []).
Proof.
  refine (proj2 (proj2 (proj2 (proj2
    (unreadable_datasets failing_store 0 0 "q"
       (mkMoment "X" (Num 0) (Num 2) "Ad X")
       [mkMoment "A" (Num 0) (Num 2) "Ad A"] []) eq_refl)) 2) 0 2 eq_refl eq_refl).
Defined.

(** C8 (as stated) fails in aligned mode: the label of a moment whose
    dataset read fails is listed among the excluded names, where the label
    of a moment whose dataset is missing is not. *)
Lemma read_failure_is_reported :
  (exists o, aggregated_graphs failing_store "line" moments_A_X 0 0 "q"
             = Page (LineGraphs o)
             /\ Line.excluded o = ["Ad X"])
  /\ (exists o, aggregated_graphs missing_store "line" moments_A_X 0 0 "q"
                = Page (LineGraphs o)
                /\ Line.excluded o = []).
Proof.
  split; eexists; (split; [vm_compute; reflexivity | reflexivity]).
Qed.

(** ** Requests without data *)

Lemma values_get {A : Type} (d : Dict.t A) :
  NoDup (Dict.keys d) -> Dict.values d = map (Dict.get d) (Dict.keys d).
Proof.
  induction d as [|[k v] d IH]; simpl; [reflexivity|].
  intros Hnd. inversion Hnd as [|? ? Hk Hnd']; subst.
  rewrite String.eqb_refl. f_equal.
  rewrite IH by assumption. apply map_ext_in.
  intros k' Hk'. destruct (String.eqb k' k) eqn:E; [|reflexivity].
  apply String.eqb_eq in E. subst. contradiction.
Qed.

Lemma values_box_data store ms :
  Dict.values (Box.box_data store ms)
  = map (Dict.get (Box.box_data store ms)) ORDERED_MEASURES.
Proof.
  rewrite values_get; rewrite BoxFacts.keys_box_data;
    [reflexivity | apply NoDup_ORDERED_MEASURES].
Qed.

Lemma flat_map_nil {A B : Type} (f : A -> list B) (l : list A) :
  (forall x, In x l -> f x = []) -> flat_map f l = [].
Proof.
  induction l as [|x l IH]; simpl; intros H; [reflexivity|].
  rewrite (H x) by now left. apply IH. intros y Hy. apply H. now right.
Qed.

Lemma empty_box_data store ms measure :
  contributes_nothing store ms -> In measure ORDERED_MEASURES ->
  Dict.get (Box.box_data store ms) measure = [].
Proof.
  intros Hn Hm. rewrite BoxFacts.get_box_data by assumption.
  apply flat_map_nil. intros m Hin. now apply Hn.
Qed.

Lemma empty_box_page store ms pd q :
  contributes_nothing store ms ->
  Box.aggregated_box store ms pd q
  = Page (Box.mkOutput (Box.box_data store ms)
            [Text "Query"; Text "Measure"] [] pd).
Proof.
  intros Hn. unfold Box.aggregated_box. f_equal. f_equal.
  - unfold Box.header, Box.max_len. rewrite values_box_data.
    assert (E : filter Box.nonempty
                  (map (Dict.get (Box.box_data store ms)) ORDERED_MEASURES) = []).
    { generalize (fun k => empty_box_data store ms k Hn).
      generalize ORDERED_MEASURES as ks.
      induction ks as [|k ks IH]; intros H; simpl; [reflexivity|].
      rewrite (H k) by now left. simpl. apply IH.
      intros k' Hk'. apply H. now right. }
    rewrite E. reflexivity.
  - unfold Box.csv_rows. apply flat_map_nil. intros k Hk.
    now rewrite (empty_box_data store ms k Hn Hk).
Qed.

Lemma moment_rejected (to_float : string -> Converted) (r : Submitted) :
  Form.moment to_float r = Rejected <-> not_a_number to_float r.
Proof.
  unfold Form.moment, not_a_number.
  destruct (to_float (form_start_time r));
    destruct (to_float (form_end_time r)); split; intros H;
    try discriminate; try reflexivity; try (now left); try (now right);
    destruct H; discriminate.
Qed.

Lemma moment_valid (to_float : string -> Converted) (r : Submitted) (m : Moment) :
  Form.moment to_float r = Valid m ->
  exists st et, start_time m = Num st /\ end_time m = Num et.
Proof.
  unfold Form.moment.
  destruct (to_float (form_start_time r)) as [|st|];
    destruct (to_float (form_end_time r)) as [|et|]; try discriminate.
  intros H. inversion H. exists st, et. now split.
Qed.

Lemma moments_spec (to_float : string -> Converted) (entries : list Submitted) :
  (forall ms, Form.moments to_float entries = Valid ms ->
     List.length ms = List.length entries
     /\ forall m, In m ms ->
          exists st et, start_time m = Num st /\ end_time m = Num et)
  /\ (Form.moments to_float entries = Rejected
      <-> exists r, In r entries /\ not_a_number to_float r).
Proof.
  induction entries as [|r entries [IH1 IH2]]; simpl.
  - split.
    + intros ms H. inversion H. split; [reflexivity | intros m []].
    + split; [discriminate | intros [r [[] _]]].
  - pose proof (moment_rejected to_float r) as Hr.
    pose proof (moment_valid to_float r) as Hv. split.
    + intros ms H.
      destruct (Form.moment to_float r) as [| |m];
        destruct (Form.moments to_float entries) as [| |ms'];
        try discriminate.
      inversion H; subst ms. destruct (IH1 ms' eq_refl) as [Hlen Hall].
      split; [simpl; now rewrite Hlen|].
      intros m' [<-|Hin]; [now apply Hv | now apply Hall].
    + split.
      * intros H.
        destruct (Form.moment to_float r) as [| |m].
        -- exists r. split; [now left | now apply Hr].
        -- destruct (Form.moments to_float entries) as [| |ms'];
             try discriminate.
           destruct (proj1 IH2 eq_refl) as [r' [Hin Hbad]].
           exists r'. split; [now right | assumption].
        -- destruct (Form.moments to_float entries) as [| |ms'];
             try discriminate.
           destruct (proj1 IH2 eq_refl) as [r' [Hin Hbad]].
           exists r'. split; [now right | assumption].
      * intros [r' [[<-|Hin] Hbad]].
        -- apply Hr in Hbad. now rewrite Hbad.
        -- assert (E : Form.moments to_float entries = Rejected).
           { apply IH2. now exists r'. }
           rewrite E. now destruct (Form.moment to_float r).
Qed.

Lemma post_refused {A : Type} (to_float : string -> Converted)
    (endpoint : list Moment -> Response A) (entries : list Submitted) :
  Form.post to_float endpoint entries = Refused
  <-> exists r, In r entries /\ not_a_number to_float r.
Proof.
  rewrite <- (proj2 (moments_spec to_float entries)). unfold Form.post.
  destruct (Form.moments to_float entries); split; intros H;
    try discriminate; reflexivity.
Qed.




(** ** Statistics of a sample *)

Lemma Qmax_cases (x y : Q) : Qmax x y = x \/ Qmax x y = y.
Proof.
  unfold Qmax, GenericMinMax.gmax. destruct (x ?= y); auto.
Qed.

Lemma fold_Qmax_In (l : list Q) : forall x, In (fold_left Qmax l x) (x :: l).
Proof.
  induction l as [|y l IH]; intros x; simpl; [now left|].
  destruct (IH (Qmax x y)) as [H|H].
  - rewrite <- H.
    destruct (Qmax_cases x y) as [E|E]; rewrite E; [now left | right; now left].
  - right. now right.
Qed.

Lemma fold_Qmax_ge (l : list Q) : forall x d,
  In d (x :: l) -> d <= fold_left Qmax l x.
Proof.
  induction l as [|y l IH]; intros x d Hd; simpl.
  - destruct Hd as [->|[]]. apply Qle_refl.
  - destruct Hd as [->|[->|Hd]].
    + apply Qle_trans with (Qmax d y); [apply Q.le_max_l | apply IH; now left].
    + apply Qle_trans with (Qmax x d); [apply Q.le_max_r | apply IH; now left].
    + apply IH. now right.
Qed.

Lemma Frame_min_spec (v : list Q) (x : Q) :
  Frame.min v = Some x -> In x v /\ forall y, In y v -> x <= y.
Proof.
  destruct v as [|a l]; simpl; [discriminate|].
  intros H. inversion H; subst. split.
  - apply (fold_Qmin_In l a).
  - intros y Hy. now apply fold_Qmin_le.
Qed.

Lemma Frame_max_spec (v : list Q) (x : Q) :
  Frame.max v = Some x -> In x v /\ forall y, In y v -> y <= x.
Proof.
  destruct v as [|a l]; simpl; [discriminate|].
  intros H. inversion H; subst. split.
  - apply (fold_Qmax_In l a).
  - intros y Hy. now apply fold_Qmax_ge.
Qed.

Lemma mean_dropna (c : list cell) :
  Frame.dropna c <> [] ->
  Series.mean c
  = Some (Series.sum (Frame.dropna c) / Series.count (Frame.dropna c)).
Proof.
  unfold Series.mean. destruct (Frame.dropna c); [congruence | reflexivity].
Qed.

Lemma std_single (c : list cell) (x : Q) :
  Frame.dropna c = [x] -> Series.std c = Series.StdNaN.
Proof. unfold Series.std, Series.var. now intros ->. Qed.

Lemma std_sample (c : list cell) :
  (2 <= List.length (Frame.dropna c))%nat ->
  Series.std c
  = Series.StdSqrt
      (Series.sq_dev
         (Series.sum (Frame.dropna c) / Series.count (Frame.dropna c))
         (Frame.dropna c)
       / (Series.count (Frame.dropna c) - 1)).
Proof.
  unfold Series.std, Series.var.
  destruct (Frame.dropna c) as [|x [|y l]]; simpl List.length; intros H;
    [lia | lia | reflexivity].
Qed.

Lemma In_segment_metrics df segment col M :
  In (col, M) (segment_metrics df segment) ->
  In col ORDERED_MEASURES /\ Frame.has_column df col = true
  /\ M = mkMetrics (Series.min (Frame.column segment col))
                   (Series.max (Frame.column segment col))
                   (Series.mean (Frame.column segment col))
                   (Series.std (Frame.column segment col)).
Proof.
  unfold segment_metrics. rewrite in_flat_map.
  intros [c [Hc Hin]]. destruct (Frame.has_column df c) eqn:E; [|contradiction].
  destruct Hin as [Heq|[]]. inversion Heq; subst. auto.
Qed.

(** C5 (as the code has it). Box mode pools: the list of a canonical
    measure is the concatenation, in the order of the moments, of the
    non-missing values of that column in every non-empty segment whose
    frame has the column; the page carries these pooled samples
    themselves, a CSV row per measure with data, and no statistic of
    them.  Minimum, maximum, mean and standard deviation are computed by
    [update_metrics] for the segment of one moment: over the non-missing
    values of the column, with the sample standard deviation
    (denominator n-1) for two or more values and NaN, not 0, for a single
    value. *)
Theorem pooled_sample_and_segment_metrics (store : Store) (ms : list Moment)
    (pd : Q) (q : string) :
  (forall measure, In measure ORDERED_MEASURES ->
     Dict.get (Box.box_data store ms) measure
     = flat_map (Pooled.contribution store measure) ms)
  /\ (forall measure m st et df,
        float (start_time m) = Some st -> float (end_time m) = Some et ->
        store (video_id m) = Loaded df ->
        Pooled.contribution store measure m
        = if Frame.empty (extract df st et) then []
          else if Frame.has_column df measure
               then Frame.dropna (Frame.column (extract df st et) measure)
               else [])
  /\ (exists o,
        Box.aggregated_box store ms pd q = Page o
        /\ Box.pooled o = Box.box_data store ms
        /\ forall measure, In measure ORDERED_MEASURES ->
             Dict.get (Box.pooled o) measure <> [] ->
             In ([Text q; Text measure]
                   ++ map (fun x => Float (Some x)) (Dict.get (Box.pooled o) measure)
                   ++ repeat Blank
                        (Box.max_len (Box.pooled o)
                           - List.length (Dict.get (Box.pooled o) measure)))
                (Box.csv o))
  /\ (forall vid st et l col M,
        update_metrics store vid st et = Page l -> In (col, M) l ->
        exists df,
          store vid = Loaded df /\ In col ORDERED_MEASURES
          /\ Frame.has_column df col = true
          /\ let v := Frame.dropna (Frame.column (extract df st et) col) in
             min_val M = Frame.min v /\ max_val M = Frame.max v
             /\ (forall x, min_val M = Some x ->
                   In x v /\ forall y, In y v -> x <= y)
             /\ (forall x, max_val M = Some x ->
                   In x v /\ forall y, In y v -> y <= x)
             /\ (v <> [] -> avg_val M = Some (Series.sum v / Series.count v))
             /\ (forall x, v = [x] ->
                   std_val M = Series.StdNaN
                   /\ std_val M <> Series.StdSqrt 0)
             /\ ((2 <= List.length v)%nat ->
                   std_val M
                   = Series.StdSqrt
                       (Series.sq_dev (Series.sum v / Series.count v) v
                        / (Series.count v - 1)))).
Proof.
  split; [|split; [|split]].
  - intros measure Hm. now apply BoxFacts.get_box_data.
  - intros measure m st et df Hs He Hl. unfold Pooled.contribution.
    now rewrite Hs, He, Hl.
  - eexists. split; [reflexivity|]. split; [reflexivity|].
    simpl. intros measure Hm Hne. unfold Box.csv_rows.
    apply in_flat_map. exists measure. split; [assumption|].
    destruct (Dict.get (Box.box_data store ms) measure) eqn:E;
      [congruence|]. simpl. now left.
  - intros vid st et l col M Hpage Hin. unfold update_metrics in Hpage.
    destruct (store vid) as [| |df]; try discriminate.
    destruct (Frame.empty (extract df st et)); [discriminate|].
    inversion Hpage; subst l. apply In_segment_metrics in Hin.
    destruct Hin as [Hcol [Hhas ->]]. exists df.
    split; [reflexivity|]. split; [assumption|]. split; [assumption|].
    simpl. split; [reflexivity|]. split; [reflexivity|].
    split; [apply Frame_min_spec|]. split; [apply Frame_max_spec|].
    split; [apply mean_dropna|]. split.
    + intros x Hx. rewrite (std_single _ x Hx). split; [reflexivity | discriminate].
    + apply std_sample.
Qed.

Lemma pooled_sample_and_segment_metrics_witness :
  exists df,
    example_store "A" = Loaded df
    /\ Series.std (Frame.column (extract df 0 0) "Engagement") = Series.StdNaN.
Proof.
  destruct (proj2 (proj2 (proj2
    (pooled_sample_and_segment_metrics example_store moment_single 0 "q")))
    "A" 0 0
    [("Engagement",
      mkMetrics (Some (2 # 10)) (Some (2 # 10)) (Some ((0 + (2 # 10)) / 1))
        Series.StdNaN)]
    "Engagement"
    (mkMetrics (Some (2 # 10)) (Some (2 # 10)) (Some ((0 + (2 # 10)) / 1))
       Series.StdNaN)
    eq_refl (or_introl eq_refl)) as [df [Hdf _]].
  exists df. split; [exact Hdf|].
  inversion Hdf. reflexivity.
Defined.

(** C5 (as stated) fails: for a request whose pooled sample is the single
    value 0.2, the page of box mode carries that value and nothing else;
    no minimum, maximum, mean or standard deviation (NaN) is in it. *)
Lemma box_page_has_no_statistics :
  Box.aggregated_box example_store moment_single 0 "q"
  = Page (Box.mkOutput
            (Dict.extend (Dict.init ORDERED_MEASURES) "Engagement" [2 # 10])
            [Text "Query"; Text "Measure"; Text "Value_1"]
            [[Text "q"; Text "Engagement"; Float (Some (2 # 10))]]
            0)
  /\ ~ In (Float NaN)
         (List.concat (Box.csv_rows "q" (Box.box_data example_store moment_single))).
Proof.
  split; [reflexivity|].
  vm_compute. intros [H|[H|[H|[]]]]; discriminate.
Qed.

(** ** Pooled mode and the order of the moments *)

Lemma fold_Qplus_shift (l : list Q) : forall a,
  fold_left Qplus l a == a + fold_left Qplus l 0.
Proof.
  induction l as [|x l IH]; intros a; simpl.
  - ring.
  - rewrite (IH (a + x)), (IH (0 + x)). ring.
Qed.

Lemma sum_cons (x : Q) (l : list Q) : Series.sum (x :: l) == x + Series.sum l.
Proof.
  unfold Series.sum. simpl. rewrite fold_Qplus_shift. ring.
Qed.

Lemma sum_Permutation (l l' : list Q) :
  Permutation l l' -> Series.sum l == Series.sum l'.
Proof.
  induction 1 as [|x l l' _ IH|x y l|l l' l'' _ IH1 _ IH2].
  - reflexivity.
  - now rewrite !sum_cons, IH.
  - rewrite !sum_cons. ring.
  - now rewrite IH1.
Qed.

Lemma nonempty_length {A : Type} (u v : list A) :
  List.length u = List.length v -> Box.nonempty u = Box.nonempty v.
Proof. destruct u, v; simpl; intros H; congruence. Qed.

Lemma lengths_of_nonempty (g g' : string -> list Q) (ks : list string) :
  (forall k, In k ks -> List.length (g k) = List.length (g' k)) ->
  map (@List.length Q) (filter Box.nonempty (map g ks))
  = map (@List.length Q) (filter Box.nonempty (map g' ks)).
Proof.
  induction ks as [|k ks IH]; intros H; simpl; [reflexivity|].
  rewrite (nonempty_length (g k) (g' k)) by (apply H; now left).
  destruct (Box.nonempty (g' k)); simpl.
  - rewrite (H k) by now left. f_equal. apply IH. intros k' Hk'. apply H. now right.
  - apply IH. intros k' Hk'. apply H. now right.
Qed.

Lemma csv_rows_Permutation (q : string) (d d' : Dict.t Q) (ks : list string) :
  Box.max_len d = Box.max_len d' ->
  (forall k, In k ks -> Permutation (Dict.get d k) (Dict.get d' k)) ->
  Forall2 (@Permutation csv_cell)
    (flat_map
       (fun measure =>
          let v := Dict.get d measure in
          if Box.nonempty v
          then [[Text q; Text measure]
                  ++ map (fun x => Float (Some x)) v
                  ++ repeat Blank (Box.max_len d - List.length v)]
          else []) ks)
    (flat_map
       (fun measure =>
          let v := Dict.get d' measure in
          if Box.nonempty v
          then [[Text q; Text measure]
                  ++ map (fun x => Float (Some x)) v
                  ++ repeat Blank (Box.max_len d' - List.length v)]
          else []) ks).
Proof.
  intros Hlen. induction ks as [|k ks IH]; intros H; simpl; [constructor|].
  assert (Hk : Permutation (Dict.get d k) (Dict.get d' k)) by (apply H; now left).
  assert (Hl := Permutation_length Hk).
  rewrite (nonempty_length _ _ Hl).
  destruct (Box.nonempty (Dict.get d' k)); simpl.
  - constructor.
    + rewrite Hlen, Hl. do 2 apply perm_skip.
      apply Permutation_app_tail. now apply Permutation_map.
    + apply IH. intros k' Hk'. apply H. now right.
  - apply IH. intros k' Hk'. apply H. now right.
Qed.

(** C7 (as the code has it). Permuting the moments permutes each pooled
    sample: for every canonical measure the two pooled lists are
    permutations of each other (same length, same sum), the CSV header is
    the same, and the CSV has the same rows in the same canonical order up
    to the order of the cells within a row. *)
Theorem pooled_up_to_order (store : Store) (ms ms' : list Moment)
    (pd : Q) (q : string) (o o' : Box.Output) :
  Permutation ms ms' ->
  Box.aggregated_box store ms pd q = Page o ->
  Box.aggregated_box store ms' pd q = Page o' ->
  (forall measure, In measure ORDERED_MEASURES ->
     Permutation (Dict.get (Box.pooled o) measure)
                 (Dict.get (Box.pooled o') measure)
     /\ List.length (Dict.get (Box.pooled o) measure)
        = List.length (Dict.get (Box.pooled o') measure)
     /\ Series.sum (Dict.get (Box.pooled o) measure)
        == Series.sum (Dict.get (Box.pooled o') measure))
  /\ Box.csv_header o = Box.csv_header o'
  /\ Forall2 (@Permutation csv_cell) (Box.csv o) (Box.csv o')
  /\ Box.shown_duration o = Box.shown_duration o'.
Proof.
  intros Hperm Ho Ho'. unfold Box.aggregated_box in Ho, Ho'.
  inversion Ho; subst o. inversion Ho'; subst o'. simpl. clear Ho Ho'.
  assert (Hget : forall measure, In measure ORDERED_MEASURES ->
            Permutation (Dict.get (Box.box_data store ms) measure)
                        (Dict.get (Box.box_data store ms') measure)).
  { intros measure Hm. rewrite !BoxFacts.get_box_data by assumption.
    now apply Permutation_flat_map. }
  assert (Hmax : Box.max_len (Box.box_data store ms)
                 = Box.max_len (Box.box_data store ms')).
  { unfold Box.max_len. rewrite !values_box_data. f_equal.
    apply lengths_of_nonempty. intros k Hk.
    apply Permutation_length. now apply Hget. }
  split; [|split; [|split]].
  - intros measure Hm. split; [now apply Hget|]. split.
    + apply Permutation_length. now apply Hget.
    + apply sum_Permutation. now apply Hget.
  - unfold Box.header. now rewrite Hmax.
  - unfold Box.csv_rows. now apply csv_rows_Permutation.
  - reflexivity.
Qed.

Lemma pooled_up_to_order_witness :
  Box.csv_header (example_box example_moments)
  = Box.csv_header (example_box (rev example_moments))
  /\ Forall2 (@Permutation csv_cell)
       (Box.csv (example_box example_moments))
       (Box.csv (example_box (rev example_moments))).
Proof.
  assert (Hperm : Permutation example_moments (rev example_moments))
    by apply perm_swap.
  destruct (pooled_up_to_order example_store example_moments
              (rev example_moments) 2 "q"
              (example_box example_moments)
              (example_box (rev example_moments))
              Hperm eq_refl eq_refl) as [_ [Hh [Hc _]]].
  split; assumption.
Defined.

(** C7 (as stated) fails: the pooled sample keeps the order of the
    moments, so the page for the moments of the example and the page for
    the same moments in reverse order differ. *)
Lemma box_page_depends_on_order :
  Dict.get (Box.box_data example_store example_moments) "Engagement"
    = [2 # 10; 4 # 10; 6 # 10; 3 # 10; 5 # 10; 7 # 10]
  /\ Dict.get (Box.box_data example_store (rev example_moments)) "Engagement"
     = [3 # 10; 5 # 10; 7 # 10; 2 # 10; 4 # 10; 6 # 10]
  /\ aggregated_graphs example_store "box" example_moments 0 0 "q"
     <> aggregated_graphs example_store "box" (rev example_moments) 0 0 "q".
Proof.
  split; [reflexivity|]. split; [reflexivity|].
  intros H. vm_compute in H. discriminate H.
Qed.

(** ** The time column of the aligned CSV *)

Lemma int_error (y : Q) : Qabs (inject_Z (Line.int y) - y) < 1.
Proof.
  destruct y as [n d]. unfold Line.int. simpl Qnum. simpl Qden.
  assert (Hd : (Z.pos d <> 0)%Z) by discriminate.
  pose proof (Z.quot_rem' n (Z.pos d)) as Hqr.
  pose proof (Z.rem_bound_abs n (Z.pos d) Hd) as Hr.
  unfold Qlt, Qabs, Qminus, Qplus, Qopp, inject_Z. simpl.
  replace (Z.quot n (Z.pos d) * Z.pos d + - n * 1)%Z
    with (- Z.rem n (Z.pos d))%Z by lia.
  rewrite Z.abs_opp. simpl Z.abs in Hr. lia.
Qed.

Lemma int_exact (y : Q) (z : Z) : y == inject_Z z -> Line.int y = z.
Proof.
  destruct y as [n d]. unfold Qeq, Line.int, inject_Z. simpl.
  rewrite Z.mul_1_r. intros ->. apply Z.quot_mul. discriminate.
Qed.

Lemma int_Z (z : Z) : Line.int (inject_Z z) = z.
Proof. apply int_exact. reflexivity. Qed.

Lemma inject_Z_succ (n : Z) : inject_Z (n + 1) == inject_Z n + 1.
Proof. now rewrite inject_Z_plus. Qed.

(** Truncating the rounded product: the integer is within one of the
    exact product. *)
Lemma int_round_error (x : Q) :
  Qabs x < inject_Z (2 ^ 53) ->
  Qabs (inject_Z (Line.int (Float.round x)) - x) < 1.
Proof.
  intros Hx. apply Qabs_Qlt_condition in Hx. destruct Hx as [Hx1 Hx2].
  set (n := Qfloor x).
  pose proof (Qfloor_le x) as Hn1. pose proof (Qlt_floor x) as Hn2.
  fold n in Hn1, Hn2.
  assert (Hb : (- 2 ^ 53 <= n /\ n + 1 <= 2 ^ 53)%Z).
  { split.
    - assert (H : inject_Z (- 2 ^ 53) < inject_Z (n + 1)).
      { rewrite inject_Z_opp. apply Qlt_trans with x; assumption. }
      rewrite <- Zlt_Qlt in H. lia.
    - assert (H : inject_Z n < inject_Z (2 ^ 53)).
      { apply Qle_lt_trans with x; assumption. }
      rewrite <- Zlt_Qlt in H. lia. }
  clear Hx1 Hx2.
  set (y := Float.round x).
  assert (Hy1 : inject_Z n <= y).
  { rewrite <- (FloatFacts.round_Z n) by lia. now apply FloatFacts.round_le. }
  assert (Hy2 : y <= inject_Z (n + 1)).
  { rewrite <- (FloatFacts.round_Z (n + 1)) by lia.
    apply FloatFacts.round_le. now apply Qlt_le_weak. }
  assert (Hxn : x == inject_Z n -> y == inject_Z n).
  { intros Heq. unfold y. rewrite (FloatFacts.round_eq _ _ Heq).
    apply FloatFacts.round_Z. lia. }
  pose proof (int_error y) as Hc. apply Qabs_Qlt_condition in Hc.
  destruct Hc as [Hc1 Hc2]. set (c := Line.int y) in *.
  rewrite inject_Z_succ in Hn2, Hy2.
  assert (Hc : (n <= c <= n + 1)%Z).
  { split.
    - assert (H : inject_Z (n - 1) < inject_Z c).
      { replace (n - 1)%Z with (n + - 1)%Z by lia. rewrite inject_Z_plus.
        change (inject_Z (- 1)) with (- (1)).
        generalize dependent (inject_Z n). generalize dependent (inject_Z c).
        intros. lra. }
      rewrite <- Zlt_Qlt in H. lia.
    - assert (H : inject_Z c < inject_Z (n + 2)).
      { rewrite inject_Z_plus. change (inject_Z 2) with 2.
        generalize dependent (inject_Z n). generalize dependent (inject_Z c).
        intros. lra. }
      rewrite <- Zlt_Qlt in H. lia. }
  apply Qabs_Qlt_condition.
  destruct (Z.eq_dec c n) as [E|E].
  - rewrite E. generalize dependent (inject_Z n). intros. split; lra.
  - assert (E' : c = (n + 1)%Z) by lia.
    assert (Hne : ~ x == inject_Z n).
    { intros Heq. apply E. unfold c. now apply int_exact, Hxn. }
    rewrite E', inject_Z_succ.
    assert (Hlt : inject_Z n < x).
    { destruct (Qlt_le_dec (inject_Z n) x) as [H|H]; [assumption|].
      exfalso. apply Hne. now apply Qle_antisym. }
    generalize dependent (inject_Z n). intros. split; lra.
Qed.

Lemma milliseconds_error (g : Q) :
  Qabs (g * 1000) < inject_Z (2 ^ 53) ->
  Qabs (inject_Z (Line.int (Float.mul g 1000)) / 1000 - g) < 1 # 1000.
Proof.
  intros Hg. pose proof (int_round_error (g * 1000) Hg) as H.
  unfold Float.mul.
  generalize dependent (inject_Z (Line.int (Float.round (g * 1000)))).
  intros c H.
  apply Qabs_Qlt_condition in H. apply Qabs_Qlt_condition.
  destruct H as [H1 H2].
  assert (E : (c / 1000 - g) * 1000 == c - g * 1000) by field.
  split; apply Qmult_lt_r with 1000; try reflexivity; rewrite E; lra.
Qed.

Lemma milliseconds_exact (g : Q) :
  Qabs (g * 1000) < inject_Z (2 ^ 53) ->
  (inject_Z (Line.int (Float.mul g 1000)) / 1000 == g
   <-> exists z, g * 1000 == inject_Z z).
Proof.
  intros Hg. split.
  - intros H. exists (Line.int (Float.mul g 1000)). rewrite <- H at 1. field.
  - intros [z Hz].
    assert (Hb : (Z.abs z <= 2 ^ 53)%Z).
    { rewrite Hz in Hg. apply Qabs_Qlt_condition in Hg.
      rewrite <- inject_Z_opp, <- !Zlt_Qlt in Hg. lia. }
    unfold Float.mul.
    rewrite (int_exact (Float.round (g * 1000)) z).
    + rewrite <- Hz. field.
    + rewrite (FloatFacts.round_eq _ _ Hz). now apply FloatFacts.round_Z.
Qed.

Lemma csv_rows_length q ct averaged :
  List.length (Line.csv_rows q ct averaged) = List.length ct.
Proof. unfold Line.csv_rows. now rewrite length_map, length_seq. Qed.

Lemma csv_rows_nth q ct averaged i :
  (i < List.length ct)%nat ->
  nth i (Line.csv_rows q ct averaged) [] = Line.csv_row q ct averaged i.
Proof. intros Hi. unfold Line.csv_rows. now apply nth_map_seq. Qed.


Lemma example_line_page :
  Line.aggregated_line example_store example_moments 0 0 2 "q"
  = Page example_output.
Proof. vm_compute. reflexivity. Qed.



(** ** The averaged curves of aligned mode *)

Module Curve.

Lemma interp_at_time ct e measure vals :
  Numpy.interp ct (Line.RelativeTime e) (Frame.column (Line.seg e) measure)
  = Some vals ->
  vals = map (Aligned.at_time e measure) ct.
Proof.
  unfold Numpy.interp, Aligned.at_time.
  destruct (combine _ _) as [|[x0 y0] rest]; [discriminate|].
  intros H. inversion H. reflexivity.
Qed.

Lemma add_measure_None ct e ks :
  fold_left (Line.add_measure ct e) ks None = None.
Proof. induction ks as [|k ks IH]; simpl; [reflexivity | exact IH]. Qed.

Lemma add_event_None ct es :
  fold_left (Line.add_event ct) es None = None.
Proof.
  induction es as [|e es IH]; simpl; [reflexivity|].
  unfold Line.add_event at 2. now rewrite add_measure_None.
Qed.

Lemma add_measures ct e (ks : list string) : forall d d' m,
  NoDup ks -> In m (Dict.keys d) ->
  fold_left (Line.add_measure ct e) ks (Some d) = Some d' ->
  Dict.keys d' = Dict.keys d
  /\ Dict.get d' m
     = Dict.get d m
         ++ (if mem m ks && Frame.has_column (Line.seg e) m
             then [map (Aligned.at_time e m) ct] else []).
Proof.
  induction ks as [|k ks IH]; intros d d' m Hnd Hin H; simpl in *.
  - inversion H; subst. now rewrite app_nil_r.
  - inversion Hnd as [|? ? Hk Hnd']; subst.
    destruct (Frame.has_column (Line.seg e) k) eqn:Hc.
    + destruct (Numpy.interp ct (Line.RelativeTime e)
                  (Frame.column (Line.seg e) k)) as [vals|] eqn:Ei;
        [|now rewrite add_measure_None in H].
      apply interp_at_time in Ei. subst vals.
      destruct (IH (Dict.append d k (map (Aligned.at_time e k) ct)) d' m Hnd')
        as [Hkeys Hget]; [unfold Dict.append; now rewrite keys_extend | exact H |].
      unfold Dict.append in Hkeys, Hget. rewrite keys_extend in Hkeys.
      split; [exact Hkeys|]. rewrite Hget.
      destruct (String.eqb m k) eqn:E.
      * apply String.eqb_eq in E. subst k.
        assert (Hm : mem m ks = false) by now apply mem_not_In.
        rewrite Hm, Hc. simpl. rewrite app_nil_r.
        now apply get_extend_same.
      * assert (Hne : m <> k) by now apply String.eqb_neq.
        simpl. now rewrite get_extend_other.
    + destruct (IH d d' m Hnd' Hin H) as [Hkeys Hget].
      split; [exact Hkeys|]. rewrite Hget.
      destruct (String.eqb m k) eqn:E; [|reflexivity].
      apply String.eqb_eq in E. subst k.
      assert (Hm : mem m ks = false) by now apply mem_not_In.
      rewrite Hm, Hc. reflexivity.
Qed.

Lemma add_events ct (es : list Line.Event) : forall d d' m,
  In m ORDERED_MEASURES -> In m (Dict.keys d) ->
  fold_left (Line.add_event ct) es (Some d) = Some d' ->
  Dict.get d' m
  = Dict.get d m ++ map (fun e => map (Aligned.at_time e m) ct) (Aligned.contributing m es).
Proof.
  induction es as [|e es IH]; intros d d' m Hm Hin H;
    cbn [fold_left Aligned.contributing filter map] in H |- *.
  - inversion H; subst. now rewrite app_nil_r.
  - destruct (Line.add_event ct (Some d) e) as [d1|] eqn:E1;
      [|now rewrite add_event_None in H].
    unfold Line.add_event in E1.
    destruct (add_measures ct e ORDERED_MEASURES d d1 m
                NoDup_ORDERED_MEASURES Hin E1) as [Hkeys Hget].
    rewrite (IH d1 d' m Hm) by (rewrite ?Hkeys; assumption).
    rewrite Hget. apply mem_In in Hm. rewrite Hm.
    unfold Aligned.contributing. cbn [filter andb].
    destruct (Frame.has_column (Line.seg e) m); cbn [map].
    + now rewrite <- app_assoc.
    + now rewrite app_nil_r.
Qed.

(** [interp_data[measure]] holds, in the order of the included events,
    the interpolated series of the events that have the column. *)
Lemma get_interp_data ct es d m :
  In m ORDERED_MEASURES ->
  Line.interp_data ct es = Some d ->
  Dict.get d m = map (fun e => map (Aligned.at_time e m) ct) (Aligned.contributing m es).
Proof.
  intros Hm H. unfold Line.interp_data in H.
  assert (Hin : In m (Dict.keys (Dict.init (A:=list cell) ORDERED_MEASURES)))
    by now rewrite keys_init.
  rewrite (add_events ct es _ d m Hm Hin H).
  now rewrite get_init.
Qed.

Lemma nth_vadd (u : list cell) : forall v i,
  nth i (Numpy.vadd u v) NaN = Numpy.add (nth i u NaN) (nth i v NaN).
Proof.
  unfold Numpy.vadd.
  induction u as [|a u IH]; intros v i; simpl.
  - now destruct i.
  - destruct v as [|b v]; simpl.
    + destruct i; simpl; [now destruct a|].
      now destruct (nth i u NaN).
    + destruct i; simpl; [reflexivity | apply IH].
Qed.

Lemma nth_fold_vadd (rest : list (list cell)) : forall a i,
  nth i (fold_left Numpy.vadd rest a) NaN
  = fold_left Numpy.add (map (fun r => nth i r NaN) rest) (nth i a NaN).
Proof.
  induction rest as [|r rest IH]; intros a i; simpl; [reflexivity|].
  now rewrite IH, nth_vadd.
Qed.

Lemma nth_map_default {A B : Type} (f : A -> B) (l : list A) (i : nat)
    (d : A) (d' : B) :
  f d = d' -> nth i (map f l) d' = f (nth i l d).
Proof. intros <-. apply map_nth. Qed.

(** Entry [i] of [np.mean(np.vstack(arrays), axis=0)] is the mean of the
    entries [i] of the arrays. *)
Lemma nth_mean_axis0 (arrays : list (list cell)) (i : nat) :
  arrays <> [] ->
  nth i (Numpy.mean_axis0 arrays) NaN
  = Numpy.mean (map (fun r => nth i r NaN) arrays).
Proof.
  destruct arrays as [|a rest]; [congruence|]. intros _.
  unfold Numpy.mean_axis0, Numpy.mean.
  rewrite (nth_map_default _ _ i NaN NaN eq_refl), nth_fold_vadd.
  cbn [map]. now rewrite !length_cons, length_map.
Qed.

Lemma mean_axis0_length (arrays : list (list cell)) (n : nat) :
  arrays <> [] ->
  (forall r, In r arrays -> List.length r = n) ->
  List.length (Numpy.mean_axis0 arrays) = n.
Proof.
  destruct arrays as [|a rest]; [congruence|]. intros _ H.
  unfold Numpy.mean_axis0. rewrite length_map.
  assert (Ha : List.length a = n) by (apply H; now left).
  assert (Hr : forall r, In r rest -> List.length r = n)
    by (intros r Hr; apply H; now right).
  clear H. revert a Ha. induction rest as [|r rest IH]; intros a Ha; simpl.
  - exact Ha.
  - apply IH.
    + intros r' Hr'. apply Hr. now right.
    + unfold Numpy.vadd. rewrite length_map, length_combine, Ha.
      rewrite (Hr r) by now left. apply Nat.min_id.
Qed.

Lemma lookup_averaged_of (d : Dict.t (list cell)) (m : string) :
  In m ORDERED_MEASURES ->
  Line.lookup (Line.averaged_of d) m
  = match Dict.get d m with
    | [] => None
    | arrays => Some (Numpy.mean_axis0 arrays)
    end.
Proof.
  unfold Line.averaged_of. generalize ORDERED_MEASURES as ks.
  induction ks as [|k ks IH]; simpl; [tauto|]. intros Hin.
  destruct (String.eqb m k) eqn:E.
  - apply String.eqb_eq in E. subst k.
    destruct (Dict.get d m); simpl; now rewrite String.eqb_refl.
  - destruct Hin as [->|Hin]; [now rewrite String.eqb_refl in E|].
    destruct (Dict.get d k); simpl; rewrite E; now apply IH.
Qed.

End Curve.

Lemma included_event_origin (store : Store) (pre post ep : Q)
    (ms : list Moment) (e : Line.Event) :
  In e (Line.included_events (Line.loop store pre post ep ms)) ->
  exists m st et df,
    In m ms /\ float (start_time m) = Some st /\ float (end_time m) = Some et
    /\ store (video_id m) = Loaded df
    /\ Line.seg e = Frame.between df (Float.sub st pre) (Float.add st ep)
    /\ Line.RelativeTime e
       = map (fun t => Float.sub t st) (Frame.Time (Line.seg e)).
Proof.
  rewrite LineFacts.loop_lists. simpl. rewrite in_flat_map.
  intros [m [Hm He]]. unfold Line.body in He.
  destruct (float (start_time m)) as [st|] eqn:Es; [|contradiction].
  destruct (float (end_time m)) as [et|] eqn:Ee; [|contradiction].
  destruct (store (video_id m)) as [| |df] eqn:El; try contradiction.
  destruct (Line.insufficient _ _ _ _ _ _); [contradiction|].
  destruct He as [<-|[]]. exists m, st, et, df. simpl. auto 10.
Qed.

Lemma nth_map_in_range {A B : Type} (f : A -> B) (l : list A) (i : nat)
    (d : A) (d' : B) :
  (i < List.length l)%nat -> nth i (map f l) d' = f (nth i l d).
Proof.
  intros Hi. rewrite (nth_indep _ d' (f d)) by now rewrite length_map.
  apply map_nth.
Qed.

Lemma example_engagement_lookup :
  Line.lookup (Line.averaged example_output) "Engagement"
  = Some example_engagement.
Proof. reflexivity. Qed.

(** C1 (as the code has it). For a page of aligned mode: every included
    event holds the rows of its moment in
    [[start - pre_duration, start + effective_post]] with times relative
    to the start; for every canonical measure and every grid point, the
    averaged value is the arithmetic mean, over the included events that
    have the column, of the event's series interpolated linearly at that
    grid point, and a measure without any such event has no averaged
    series and an empty cell in every row.  In the example of the two
    moments the grid is 0, 2/99, ..., 2; the averaged Engagement at grid
    point [t] is [0.25 + 0.2 t], and 0.45 is the mean of the two
    interpolated series at t = 1. *)
Theorem aligned_mean :
  (forall (store : Store) (ms : list Moment) (pre post pd : Q) (q : string)
          (o : Line.Output),
     Line.aggregated_line store ms pre post pd q = Page o ->
     let ep := Float.add pd post in
     let events := Line.included_events (Line.loop store pre post ep ms) in
     (forall e, In e events ->
        exists m st et df,
          In m ms /\ float (start_time m) = Some st
          /\ float (end_time m) = Some et
          /\ store (video_id m) = Loaded df
          /\ Line.seg e
             = Frame.between df (Float.sub st pre) (Float.add st ep)
          /\ Line.RelativeTime e
             = map (fun t => Float.sub t st) (Frame.Time (Line.seg e)))
     /\ forall measure, In measure ORDERED_MEASURES ->
          (Aligned.contributing measure events = [] ->
             Line.lookup (Line.averaged o) measure = None
             /\ forall i, Line.value_cell (Line.averaged o) i measure = Blank)
          /\ (Aligned.contributing measure events <> [] ->
                exists mean_vals,
                  Line.lookup (Line.averaged o) measure = Some mean_vals
                  /\ List.length mean_vals = 100%nat
                  /\ forall i, (i < 100)%nat ->
                       nth i mean_vals NaN
                       = Numpy.mean
                           (map (fun e =>
                                   Aligned.at_time e measure
                                     (nth i (Line.common_time o) 0))
                                (Aligned.contributing measure events))
                       /\ Line.value_cell (Line.averaged o) i measure
                          = Float (nth i mean_vals NaN)))
  /\ (aggregated_graphs example_store "line" example_moments 0 0 "q"
      = Page (LineGraphs example_output)
      /\ Line.lookup (Line.averaged example_output) "Engagement"
         = Some example_engagement
      /\ (forall i, (i < 100)%nat ->
            nth i (Line.common_time example_output) 0
            == inject_Z (Z.of_nat i) * (2 # 99)
            /\ exists v, nth i example_engagement NaN = Some v
                         /\ v == (1 # 4) + (1 # 5)
                                 * nth i (Line.common_time example_output) 0)
      /\ exists v,
           Numpy.mean
             (map (fun e => Aligned.at_time e "Engagement" 1)
                (Line.included_events
                   (Line.loop example_store 0 0 2 example_moments)))
           = Some v
           /\ v == 45 # 100).
Proof.
  split.
  - intros store ms pre post pd q o H ep events.
    split; [intros e; apply included_event_origin|].
    apply aggregated_line_Page in H. fold ep in H. fold events in H.
    destruct H as [_ [d [Hd ->]]].
    cbn [Line.common_time Line.averaged].
    intros measure Hm.
    assert (Hget := Curve.get_interp_data _ _ d measure Hm Hd).
    assert (Hlook := Curve.lookup_averaged_of d measure Hm).
    rewrite Hget in Hlook. split.
    + intros Hnil. rewrite Hnil in Hlook.
      change (Line.lookup (Line.averaged_of d) measure = None) in Hlook.
      split; [exact Hlook|]. intros i. unfold Line.value_cell.
      now rewrite Hlook.
    + intros Hne.
      set (ct := Numpy.linspace (- pre) ep 100) in *.
      set (arrays := map (fun e => map (Aligned.at_time e measure) ct)
                         (Aligned.contributing measure events)) in *.
      assert (Harr : arrays <> []).
      { unfold arrays. destruct (Aligned.contributing measure events);
          [congruence | discriminate]. }
      assert (Hlook' : Line.lookup (Line.averaged_of d) measure
                       = Some (Numpy.mean_axis0 arrays)).
      { rewrite Hlook. destruct arrays; [congruence | reflexivity]. }
      exists (Numpy.mean_axis0 arrays). split; [exact Hlook'|]. split.
      * apply Curve.mean_axis0_length; [assumption|].
        intros r Hr. unfold arrays in Hr. apply in_map_iff in Hr.
        destruct Hr as [e [<- _]]. rewrite length_map.
        apply linspace_length.
      * intros i Hi. split.
        -- rewrite Curve.nth_mean_axis0 by assumption.
           unfold arrays. rewrite map_map. f_equal.
           apply map_ext. intros e.
           apply nth_map_in_range. unfold ct. now rewrite linspace_length.
        -- unfold Line.value_cell. now rewrite Hlook'.
  - split; [exact example_page|]. split; [reflexivity|]. split.
    + assert (Hall : forallb
                       (fun i =>
                          Qeq_bool (nth i (Line.common_time example_output) 0)
                                   (inject_Z (Z.of_nat i) * (2 # 99))
                          && on_example_line example_engagement
                               (Line.common_time example_output) i)
                       (seq 0 100) = true) by (vm_compute; reflexivity).
      rewrite forallb_forall in Hall. intros i Hi.
      assert (Hin : In i (seq 0 100)) by (apply in_seq; lia).
      apply Hall in Hin. apply andb_true_iff in Hin. destruct Hin as [H1 H2].
      split; [now apply Qeq_bool_eq|].
      unfold on_example_line in H2.
      destruct (nth i example_engagement NaN) as [v|]; [|discriminate].
      exists v. split; [reflexivity | now apply Qeq_bool_eq].
    + eexists. split; [vm_compute; reflexivity | reflexivity].
Qed.

Lemma aligned_mean_witness :
  Line.lookup (Line.averaged example_output) "Approach / Withdraw" = None
  /\ forall i,
       Line.value_cell (Line.averaged example_output) i "Approach / Withdraw"
       = Blank.
Proof.
  refine (proj1 (proj2 (proj1 aligned_mean example_store example_moments
                          0 0 2 "q" example_output example_line_page)
                   "Approach / Withdraw" _) _).
  - left. reflexivity.
  - reflexivity.
Defined.

(** C1 (as stated) fails in its example: none of the 100 grid points over
    [[0, 2]] is t = 1, and at no grid point is the averaged Engagement
    0.45; at the two grid points next to 1 it is 0.4479... and
    0.4520.... *)
Lemma no_grid_point_at_one :
  Line.lookup (Line.averaged example_output) "Engagement"
  = Some example_engagement
  /\ (forall i, (i < 100)%nat ->
        ~ nth i (Line.common_time example_output) 0 == 1
        /\ forall v, nth i example_engagement NaN = Some v -> ~ v == 45 # 100)
  /\ nth 49 (Line.common_time example_output) 0 == 98 # 99
  /\ nth 50 (Line.common_time example_output) 0 == 100 # 99
  /\ (exists v, nth 49 example_engagement NaN = Some v /\ v == 887 # 1980)
  /\ (exists v, nth 50 example_engagement NaN = Some v /\ v == 179 # 396).
Proof.
  split; [reflexivity|]. split.
  - assert (Hall : forallb
                     (off_one example_engagement
                        (Line.common_time example_output))
                     (seq 0 100) = true) by (vm_compute; reflexivity).
    rewrite forallb_forall in Hall. intros i Hi.
    assert (Hin : In i (seq 0 100)) by (apply in_seq; lia).
    apply Hall in Hin. unfold off_one in Hin.
    apply andb_true_iff in Hin. destruct Hin as [H1 H2].
    apply negb_true_iff in H1. split; [now apply Qeq_bool_neq|].
    intros v Hv. rewrite Hv in H2. apply negb_true_iff in H2.
    now apply Qeq_bool_neq.
  - split; [reflexivity|]. split; [reflexivity|].
    split; eexists; (split; [vm_compute; reflexivity | reflexivity]).
Qed.

(* ================================================================== *)
(** * Further properties                                               *)
(* ================================================================== *)

(** ** Segments *)

Lemma all_times_le_max (df : DataFrame) (mx : Q) (r : Q * list cell) :
  Frame.max (Frame.Time df) = Some mx -> In r (rows df) -> fst r <= mx.
Proof.
  intros Hmx Hr. apply (Frame_max_spec _ _ Hmx).
  unfold Frame.Time. now apply in_map.
Qed.

Lemma Qle_bool_antisym_eq (x t : Q) :
  Qle_bool t x && Qle_bool x t = Qeq_bool x t.
Proof.
  destruct (Qeq_bool x t) eqn:E.
  - apply Qeq_bool_eq in E. apply andb_true_iff.
    split; apply Qle_bool_iff; rewrite E; apply Qle_refl.
  - apply Qeq_bool_neq in E. apply andb_false_iff.
    destruct (Qle_bool t x) eqn:E1; [|now left]. right.
    destruct (Qle_bool x t) eqn:E2; [|reflexivity].
    apply Qle_bool_iff in E1, E2. exfalso. apply E. now apply Qle_antisym.
Qed.

(** X1. Point extraction: on a series with samples, extracting with
    [start = end = t] selects exactly the rows whose time equals [t],
    unless the end is snapped to the last time of the series, and then
    every row from [t] on.  The end is snapped exactly when
    [abs(t - last)], the difference as a double, is at most the double
    0.05; it is whenever [t] is within 0.05 of the last time. *)
Theorem point_extraction (df : DataFrame) (t mx : Q) :
  Frame.max (Frame.Time df) = Some mx ->
  (Float.literal tol < Qabs (Float.sub t mx) ->
     rows (extract df t t) = filter (fun r => Qeq_bool (fst r) t) (rows df))
  /\ (Qabs (Float.sub t mx) <= Float.literal tol ->
        rows (extract df t t) = filter (fun r => Qle_bool t (fst r)) (rows df))
  /\ (Qabs (t - mx) <= tol ->
        rows (extract df t t) = filter (fun r => Qle_bool t (fst r)) (rows df)).
Proof.
  intros Hmx.
  assert (Hsnapped : snap_end t (Some mx) = mx ->
            rows (extract df t t)
            = filter (fun r => Qle_bool t (fst r)) (rows df)).
  { intros Hs. unfold extract. rewrite Hmx, Hs. simpl.
    apply filter_ext_in. intros r Hr.
    assert (Hle : Qle_bool (fst r) mx = true).
    { apply Qle_bool_iff. now apply (all_times_le_max df). }
    rewrite Hle. apply andb_true_r. }
  split; [|split]; intros H.
  - destruct (snap_end_cases t mx) as [[Hn _]|[_ Hs]].
    + exfalso. exact (Qlt_not_le _ _ H Hn).
    + unfold extract. rewrite Hmx, Hs. simpl.
      apply filter_ext. intros r. apply Qle_bool_antisym_eq.
  - apply Hsnapped. unfold snap_end. apply Qle_bool_iff in H. now rewrite H.
  - apply Hsnapped. now apply snap_end_near.
Qed.

Lemma point_extraction_witness :
  rows (extract series_A 1 1) = [(1, [Some (4 # 10)])].
Proof.
  refine (proj1 (point_extraction series_A 1 2 eq_refl) _).
  apply Qlt_alt. vm_compute. reflexivity.
Defined.

(** X2. An end at or after the last time of the series, or less than
    0.05 before it, selects the same segment as the last time itself: every
    row from [start] on. *)
Theorem extraction_up_to_max (df : DataFrame) (st et mx : Q) :
  Frame.max (Frame.Time df) = Some mx ->
  mx - tol <= et ->
  extract df st et = Frame.between df st mx
  /\ rows (extract df st et) = filter (fun r => Qle_bool st (fst r)) (rows df).
Proof.
  intros Hmx Het.
  assert (Hall : forall hi, mx <= hi ->
            filter (fun r => Qle_bool st (fst r) && Qle_bool (fst r) hi) (rows df)
            = filter (fun r => Qle_bool st (fst r)) (rows df)).
  { intros hi Hhi. apply filter_ext_in. intros r Hr.
    assert (Hle : Qle_bool (fst r) hi = true).
    { apply Qle_bool_iff. apply Qle_trans with mx; [|assumption].
      now apply (all_times_le_max df). }
    rewrite Hle. apply andb_true_r. }
  assert (E : extract df st et = Frame.between df st mx).
  { destruct (snap_end_cases et mx) as [[_ Hs]|[_ Hs]].
    - unfold extract. now rewrite Hmx, Hs.
    - unfold extract. rewrite Hmx, Hs.
      unfold Frame.between. f_equal.
      assert (Hgt : mx <= et).
      { destruct (Qlt_le_dec et mx) as [Hlt|Hge]; [|assumption].
        exfalso.
        assert (Hnear : Qabs (et - mx) <= tol).
        { rewrite Qabs_neg by lra. lra. }
        apply snap_end_near in Hnear. rewrite Hs in Hnear.
        rewrite Hnear in Hlt. exact (Qlt_irrefl _ Hlt). }
      rewrite (Hall et Hgt), (Hall mx (Qle_refl mx)). reflexivity. }
  split; [exact E|]. rewrite E. simpl. apply Hall. apply Qle_refl.
Qed.

Lemma extraction_up_to_max_witness :
  extract series_A 1 7 = Frame.between series_A 1 2.
Proof.
  refine (proj1 (extraction_up_to_max series_A 1 7 2 eq_refl _)).
  unfold tol. lra.
Defined.

Lemma filter_filter {A : Type} (p q : A -> bool) (l : list A) :
  filter p (filter q l) = filter (fun x => q x && p x) l.
Proof.
  induction l as [|x l IH]; simpl; [reflexivity|].
  destruct (q x); simpl; [destruct (p x)|]; now rewrite IH.
Qed.

(** X3. A segment keeps the columns of its series; its rows are rows
    of the series at or after [start]; the rows selected without the
    snapping rule are the rows of the segment up to [end], so snapping
    never loses a row; and an empty series gives an empty segment. *)
Theorem segment_of_series (df : DataFrame) (st et : Q) :
  columns (extract df st et) = columns df
  /\ rows (Frame.between df st et)
     = filter (fun r => Qle_bool (fst r) et) (rows (extract df st et))
  /\ (exists hi,
        rows (extract df st et)
        = filter (fun r => Qle_bool st (fst r) && Qle_bool (fst r) hi) (rows df)
        /\ (hi = et \/ Frame.max (Frame.Time df) = Some hi))
  /\ (forall r, In r (rows (extract df st et)) -> In r (rows df) /\ st <= fst r)
  /\ (Frame.empty df = true -> Frame.empty (extract df st et) = true).
Proof.
  split; [reflexivity|].
  assert (Hsnap : snap_end et (Frame.max (Frame.Time df)) = et
                  \/ exists mx, Frame.max (Frame.Time df) = Some mx
                                /\ snap_end et (Some mx) = mx
                                /\ Qabs (Float.sub et mx) <= Float.literal tol).
  { destruct (Frame.max (Frame.Time df)) as [mx|] eqn:Hmx; [|now left].
    destruct (snap_end_cases et mx) as [[Hnear Hs]|[_ Hs]].
    - right. exists mx. split; [reflexivity|]. now split.
    - now left. }
  split; [|split; [|split]].
  - unfold extract. destruct Hsnap as [->|[mx [Hmx [Hs _]]]]; simpl.
    + rewrite filter_filter. apply filter_ext. intros r.
      destruct (Qle_bool st (fst r)), (Qle_bool (fst r) et); reflexivity.
    + rewrite Hmx, Hs, filter_filter. apply filter_ext_in. intros r Hr.
      assert (Hle : Qle_bool (fst r) mx = true).
      { apply Qle_bool_iff. now apply (all_times_le_max df). }
      rewrite Hle, andb_true_r. reflexivity.
  - unfold extract. destruct Hsnap as [->|[mx [Hmx [Hs _]]]].
    + exists et. split; [reflexivity | now left].
    + exists mx. rewrite Hmx, Hs. split; [reflexivity | now right].
  - intros r Hr. unfold extract in Hr. simpl in Hr.
    apply filter_In in Hr. destruct Hr as [Hin Hb].
    apply andb_true_iff in Hb. destruct Hb as [Hb _].
    split; [assumption | now apply Qle_bool_iff].
  - unfold Frame.empty, extract. simpl.
    destruct (rows df); [reflexivity | discriminate].
Qed.

Section Runs.

Context {A : Type}.
Variable key : A -> Q.

Let le_key (x y : A) : Prop := key x <= key y.

Lemma filter_all (p : A -> bool) (l : list A) :
  (forall x, In x l -> p x = true) -> filter p l = l.
Proof.
  induction l as [|x l IH]; simpl; intros H; [reflexivity|].
  rewrite (H x) by now left. f_equal. apply IH. intros y Hy. apply H. now right.
Qed.

Lemma filter_none (p : A -> bool) (l : list A) :
  (forall x, In x l -> p x = false) -> filter p l = [].
Proof.
  induction l as [|x l IH]; simpl; intros H; [reflexivity|].
  rewrite (H x) by now left. apply IH. intros y Hy. apply H. now right.
Qed.

Lemma from_is_suffix (lo : Q) (l : list A) :
  StronglySorted le_key l ->
  exists before,
    l = before ++ filter (fun x => Qle_bool lo (key x)) l
    /\ forall x, In x before -> key x < lo.
Proof.
  induction 1 as [|x l Hs IH Hx].
  - exists []. split; [reflexivity | intros x []].
  - simpl. destruct (Qle_bool lo (key x)) eqn:E.
    + exists []. split; [|intros y []]. simpl. f_equal. symmetry.
      apply filter_all. intros y Hy. apply Qle_bool_iff.
      apply Qle_bool_iff in E. rewrite Forall_forall in Hx.
      apply Qle_trans with (key x); [assumption | now apply Hx].
    + destruct IH as [before [Hl Hb]]. exists (x :: before). split.
      * simpl. now rewrite <- Hl.
      * intros y [<-|Hy]; [|now apply Hb].
        apply Qnot_le_lt. intros Hle. apply Qle_bool_iff in Hle. congruence.
Qed.

Lemma upto_is_prefix (hi : Q) (l : list A) :
  StronglySorted le_key l ->
  exists after,
    l = filter (fun x => Qle_bool (key x) hi) l ++ after
    /\ forall x, In x after -> hi < key x.
Proof.
  induction 1 as [|x l Hs IH Hx].
  - exists []. split; [reflexivity | intros x []].
  - simpl. destruct (Qle_bool (key x) hi) eqn:E.
    + destruct IH as [after [Hl Ha]]. exists after. split; [|assumption].
      simpl. now rewrite <- Hl.
    + assert (Hgt : hi < key x).
      { apply Qnot_le_lt. intros Hle. apply Qle_bool_iff in Hle. congruence. }
      exists (x :: l). split.
      * rewrite filter_none; [reflexivity|]. intros y Hy.
        destruct (Qle_bool (key y) hi) eqn:Ey; [|reflexivity].
        apply Qle_bool_iff in Ey. rewrite Forall_forall in Hx.
        specialize (Hx y Hy). unfold le_key in Hx. exfalso. lra.
      * intros y [<-|Hy]; [assumption|]. rewrite Forall_forall in Hx.
        specialize (Hx y Hy). unfold le_key in Hx. lra.
Qed.

Lemma sorted_filter (p : A -> bool) (l : list A) :
  StronglySorted le_key l -> StronglySorted le_key (filter p l).
Proof.
  induction 1 as [|x l Hs IH Hx]; simpl; [constructor|].
  destruct (p x); [|assumption]. constructor; [assumption|].
  rewrite Forall_forall in *. intros y Hy. apply filter_In in Hy.
  apply Hx. tauto.
Qed.

Lemma interval_is_run (lo hi : Q) (l : list A) :
  StronglySorted le_key l ->
  exists before after,
    l = before
          ++ filter (fun x => Qle_bool lo (key x) && Qle_bool (key x) hi) l
          ++ after
    /\ (forall x, In x before -> key x < lo)
    /\ (forall x, In x after -> hi < key x).
Proof.
  intros Hs.
  destruct (from_is_suffix lo l Hs) as [before [Hl Hb]].
  destruct (upto_is_prefix hi _ (sorted_filter (fun x => Qle_bool lo (key x)) l Hs))
    as [after [Hf Ha]].
  exists before, after. split; [|split; assumption].
  rewrite filter_filter in Hf. rewrite <- Hf. exact Hl.
Qed.

End Runs.

(** X4. For a series in ascending order of time a segment is in
    ascending order and is one contiguous run of the series: the rows
    before it are earlier than [start], the rows after it later than
    [end]. *)
Theorem segment_is_contiguous (df : DataFrame) (st et : Q) :
  ascending df ->
  ascending (extract df st et)
  /\ exists before after,
       rows df = before ++ rows (extract df st et) ++ after
       /\ (forall r, In r before -> fst r < st)
       /\ (forall r, In r after -> et < fst r).
Proof.
  intros Hs. unfold ascending in *. split.
  - unfold extract. simpl. now apply sorted_filter.
  - destruct (segment_of_series df st et) as [_ [_ [[hi [Hrows Hhi]] _]]].
    destruct (interval_is_run fst st hi (rows df) Hs)
      as [before [after [Hl [Hb Ha]]]].
    exists before, after. rewrite Hrows. split; [exact Hl|].
    split; [exact Hb|]. intros r Hr.
    destruct Hhi as [->|Hmx]; [now apply Ha|].
    exfalso. specialize (Ha r Hr).
    assert (Hin : In r (rows df)).
    { rewrite Hl. apply in_or_app. right. apply in_or_app. now right. }
    pose proof (all_times_le_max df hi r Hmx Hin). lra.
Qed.

Lemma series_A_ascending : ascending series_A.
Proof.
  unfold ascending, series_A. simpl.
  repeat (constructor; [|repeat constructor; simpl; unfold Qle; simpl; lia]).
  constructor.
Qed.

Lemma segment_is_contiguous_witness : ascending (extract series_A 1 2).
Proof.
  apply (segment_is_contiguous series_A 1 2 series_A_ascending).
Defined.

(** ** Bounds of the statistics *)

Lemma count_cons (x : Q) (l : list Q) :
  Series.count (x :: l) == 1 + Series.count l.
Proof.
  unfold Series.count. simpl List.length.
  rewrite Nat2Z.inj_succ, <- Z.add_1_l, inject_Z_plus. reflexivity.
Qed.

Lemma count_nonneg (l : list Q) : 0 <= Series.count l.
Proof.
  unfold Series.count. change 0 with (inject_Z 0).
  rewrite <- Zle_Qle. lia.
Qed.

Lemma count_pos (x : Q) (l : list Q) : 0 < Series.count (x :: l).
Proof. rewrite count_cons. pose proof (count_nonneg l). lra. Qed.

Lemma sum_between (lo hi : Q) (v : list Q) :
  (forall y, In y v -> lo <= y <= hi) ->
  lo * Series.count v <= Series.sum v <= hi * Series.count v.
Proof.
  induction v as [|x v IH]; intros H.
  - unfold Series.sum, Series.count. simpl. change (inject_Z 0) with 0. lra.
  - rewrite sum_cons, count_cons.
    destruct (H x (or_introl eq_refl)) as [H1 H2].
    destruct IH as [I1 I2]; [intros y Hy; apply H; now right|]. lra.
Qed.

Lemma mean_between (lo hi : Q) (v : list Q) :
  v <> [] ->
  (forall y, In y v -> lo <= y <= hi) ->
  lo <= Series.sum v / Series.count v <= hi.
Proof.
  intros Hne H. destruct v as [|x v]; [congruence|].
  pose proof (count_pos x v) as Hc.
  destruct (sum_between lo hi (x :: v) H) as [H1 H2]. split.
  - apply Qle_shift_div_l; assumption.
  - apply Qle_shift_div_r; assumption.
Qed.

Lemma sum_nonneg (v : list Q) : (forall y, In y v -> 0 <= y) -> 0 <= Series.sum v.
Proof.
  induction v as [|x v IH]; intros H.
  - unfold Series.sum. simpl. lra.
  - rewrite sum_cons. pose proof (H x (or_introl eq_refl)).
    assert (0 <= Series.sum v) by (apply IH; intros y Hy; apply H; now right).
    lra.
Qed.

Lemma sq_dev_nonneg (mu : Q) (v : list Q) : 0 <= Series.sq_dev mu v.
Proof.
  unfold Series.sq_dev. apply sum_nonneg. intros y Hy.
  apply in_map_iff in Hy. destruct Hy as [x [<- _]].
  set (d := x - mu).
  destruct (Qlt_le_dec d 0) as [Hneg|Hpos].
  - setoid_replace (d * d) with ((- d) * (- d)) by ring.
    apply Qmult_le_0_compat; lra.
  - apply Qmult_le_0_compat; assumption.
Qed.

Lemma var_nonneg (c : list cell) (v : Q) : Series.var c = Some v -> 0 <= v.
Proof.
  unfold Series.var. destruct (Frame.dropna c) as [|x [|y l]]; try discriminate.
  intros H. inversion H. subst v. clear H.
  apply Qle_shift_div_l.
  - rewrite !count_cons. pose proof (count_nonneg l). lra.
  - rewrite Qmult_0_l. apply sq_dev_nonneg.
Qed.

(** X5. The metrics [update_metrics] reports for a measure are
    consistent: min <= avg <= max, the variance under the standard
    deviation is not negative, and min, max and avg are NaN together
    (a column without values), in which case the standard deviation is
    NaN too. *)
Theorem metrics_are_consistent (store : Store) (vid : string) (st et : Q)
    (l : list (string * Metrics)) (col : string) (M : Metrics) :
  update_metrics store vid st et = Page l -> In (col, M) l ->
  (forall a b, min_val M = Some a -> max_val M = Some b -> a <= b)
  /\ (forall a b c,
        min_val M = Some a -> max_val M = Some b -> avg_val M = Some c ->
        a <= c <= b)
  /\ (forall v, std_val M = Series.StdSqrt v -> 0 <= v)
  /\ (min_val M = NaN <-> max_val M = NaN)
  /\ (min_val M = NaN <-> avg_val M = NaN)
  /\ (min_val M = NaN -> std_val M = Series.StdNaN).
Proof.
  intros Hpage Hin. unfold update_metrics in Hpage.
  destruct (store vid) as [| |df]; try discriminate.
  destruct (Frame.empty (extract df st et)); [discriminate|].
  inversion Hpage; subst l. apply In_segment_metrics in Hin.
  destruct Hin as [_ [_ ->]]. simpl.
  set (c := Frame.column (extract df st et) col).
  unfold Series.min, Series.max, Series.mean, Series.std, Series.var.
  destruct (Frame.dropna c) as [|x v] eqn:Ev.
  - simpl. repeat split; intros; try discriminate; reflexivity.
  - assert (Hmin := Frame_min_spec (x :: v)).
    assert (Hmax := Frame_max_spec (x :: v)).
    split; [|split; [|split; [|split; [|split]]]].
    + intros a b Ha Hb. destruct (Hmin a Ha) as [Hina _].
      destruct (Hmax b Hb) as [_ Hle]. now apply Hle.
    + intros a b m Ha Hb Hm. inversion Hm; subst m.
      apply mean_between; [discriminate|]. intros y Hy.
      destruct (Hmin a Ha) as [_ H1]. destruct (Hmax b Hb) as [_ H2].
      split; [now apply H1 | now apply H2].
    + intros s Hs. apply (var_nonneg c). unfold Series.var. rewrite Ev.
      destruct v as [|y v']; [discriminate|]. now inversion Hs.
    + simpl. split; discriminate.
    + simpl. split; discriminate.
    + simpl. discriminate.
Qed.

Lemma metrics_are_consistent_witness :
  2 # 10 <= (0 + (2 # 10) + (4 # 10) + (6 # 10)) / 3 <= 6 # 10.
Proof.
  refine (proj1 (proj2
    (metrics_are_consistent example_store "A" 0 2 metrics_of_A "Engagement"
       (mkMetrics (Some (2 # 10)) (Some (6 # 10))
          (Some ((0 + (2 # 10) + (4 # 10) + (6 # 10)) / 3))
          (Series.StdSqrt
             (Series.sq_dev ((0 + (2 # 10) + (4 # 10) + (6 # 10)) / 3)
                [2 # 10; 4 # 10; 6 # 10] / (3 - 1))))
       _ _)) _ _ _ eq_refl eq_refl eq_refl).
  - vm_compute. reflexivity.
  - left. vm_compute. reflexivity.
Defined.

(** ** Canonical order of the results *)

Lemma keys_of_flat_map {B : Type} (p : string -> bool) (f : string -> B)
    (ks : list string) :
  map fst (flat_map (fun k => if p k then [(k, f k)] else []) ks) = filter p ks.
Proof.
  induction ks as [|k ks IH]; simpl; [reflexivity|].
  destruct (p k); simpl; now rewrite IH.
Qed.

Lemma NoDup_filter {A : Type} (p : A -> bool) (l : list A) :
  NoDup l -> NoDup (filter p l).
Proof.
  induction 1 as [|x l Hx Hl IH]; simpl; [constructor|].
  destruct (p x); [|assumption]. constructor; [|assumption].
  intros Hin. apply filter_In in Hin. tauto.
Qed.

Lemma line_keys (d : Dict.t (list cell)) :
  map fst (Line.averaged_of d) = ORDERED_MEASURES.
Proof.
  unfold Line.averaged_of. rewrite map_map.
  rewrite <- (map_id ORDERED_MEASURES) at 2. apply map_ext.
  intros k. now destruct (Dict.get d k).
Qed.

Lemma map_flat_map_if {A B C : Type} (p : A -> bool) (r : A -> B) (g : B -> C)
    (ks : list A) :
  map g (flat_map (fun k => if p k then [r k] else []) ks)
  = map (fun k => g (r k)) (filter p ks).
Proof.
  induction ks as [|k ks IH]; cbn [flat_map filter]; [reflexivity|].
  destruct (p k); cbn [app map]; now rewrite IH.
Qed.

Lemma box_row_keys (q : string) (d : Dict.t Q) :
  map (fun row => nth 1 row Blank) (Box.csv_rows q d)
  = map Text (filter (fun k => Box.nonempty (Dict.get d k)) ORDERED_MEASURES).
Proof.
  unfold Box.csv_rows.
  exact (map_flat_map_if (fun k => Box.nonempty (Dict.get d k))
           (fun measure =>
              [Text q; Text measure]
                ++ map (fun x => Float (Some x)) (Dict.get d measure)
                ++ repeat Blank (Box.max_len d - List.length (Dict.get d measure)))
           (fun row => nth 1 row Blank) ORDERED_MEASURES).
Qed.

(** X6. Every result lists canonical measures only, without
    repetition and in the canonical order: the metrics of a segment, the
    averages of [compute_averages], the rows of the CSV of box mode, and
    the curves and CSV columns of aligned mode (all twelve). *)
Theorem canonical_order (store : Store) :
  (forall df segment,
     map fst (segment_metrics df segment)
     = filter (Frame.has_column df) ORDERED_MEASURES)
  /\ (forall segs,
        map fst (Averages.average_metrics segs)
        = filter (Averages.concat_has segs) ORDERED_MEASURES)
  /\ (forall ms pd q o,
        Box.aggregated_box store ms pd q = Page o ->
        Dict.keys (Box.pooled o) = ORDERED_MEASURES
        /\ map (fun row => nth 1 row Blank) (Box.csv o)
           = map Text
               (filter (fun k => Box.nonempty (Dict.get (Box.pooled o) k))
                  ORDERED_MEASURES))
  /\ (forall ms pre post pd q o,
        Line.aggregated_line store ms pre post pd q = Page o ->
        map fst (Line.averaged o) = ORDERED_MEASURES
        /\ Line.csv_header o
           = [Text "Query"; Text "Time(ms)"] ++ map Text ORDERED_MEASURES)
  /\ (forall (p : string -> bool),
        NoDup (filter p ORDERED_MEASURES)
        /\ incl (filter p ORDERED_MEASURES) ORDERED_MEASURES).
Proof.
  split; [|split; [|split; [|split]]].
  - intros df segment. unfold segment_metrics. apply keys_of_flat_map.
  - intros segs. unfold Averages.average_metrics. apply keys_of_flat_map.
  - intros ms pd q o H. unfold Box.aggregated_box in H. inversion H; subst o.
    cbn [Box.pooled Box.csv]. split; [apply BoxFacts.keys_box_data|].
    apply box_row_keys.
  - intros ms pre post pd q o H. apply aggregated_line_Page in H.
    destruct H as [_ [d [_ ->]]]. cbn [Line.averaged Line.csv_header].
    split; [apply line_keys | reflexivity].
  - intros p. split; [apply NoDup_filter, NoDup_ORDERED_MEASURES|].
    intros k Hk. apply filter_In in Hk. tauto.
Qed.

(** ** The pooled mean and the pooled sample *)

Lemma dropna_app (a b : list cell) :
  Frame.dropna (a ++ b) = Frame.dropna a ++ Frame.dropna b.
Proof.
  induction a as [|[x|] a IH]; simpl; [reflexivity | now rewrite IH | exact IH].
Qed.

Lemma dropna_repeat_NaN (n : nat) : Frame.dropna (repeat NaN n) = [].
Proof. induction n as [|n IH]; simpl; [reflexivity | exact IH]. Qed.

Lemma dropna_concat_column (segs : list DataFrame) (measure : string) :
  Frame.dropna (Averages.concat_column segs measure)
  = flat_map (values_of measure) segs.
Proof.
  unfold Averages.concat_column.
  induction segs as [|s segs IH]; simpl; [reflexivity|].
  rewrite dropna_app, IH. unfold values_of.
  destruct (Frame.has_column s measure); [reflexivity|].
  now rewrite dropna_repeat_NaN.
Qed.

Lemma contribution_of_body (store : Store) (measure : string) (m : Moment) :
  Pooled.contribution store measure m
  = flat_map (values_of measure) (Averages.body store m).
Proof.
  unfold Pooled.contribution, Averages.body.
  destruct (float (start_time m)) as [st|]; [|reflexivity].
  destruct (float (end_time m)) as [et|]; [|reflexivity].
  destruct (store (video_id m)) as [| |df]; try reflexivity.
  cbv zeta. destruct (Frame.empty (extract df st et)); [reflexivity|].
  simpl. unfold values_of. rewrite app_nil_r. reflexivity.
Qed.

Lemma flat_map_flat_map {A B C : Type} (f : A -> list B) (g : B -> list C)
    (l : list A) :
  flat_map g (flat_map f l) = flat_map (fun x => flat_map g (f x)) l.
Proof.
  induction l as [|x l IH]; simpl; [reflexivity|].
  now rewrite flat_map_app, IH.
Qed.

Lemma pool_of_segments (store : Store) (ms : list Moment) (measure : string) :
  In measure ORDERED_MEASURES ->
  Dict.get (Box.box_data store ms) measure
  = Frame.dropna
      (Averages.concat_column (Averages.combined_segments store ms) measure).
Proof.
  intros Hm. rewrite BoxFacts.get_box_data by assumption.
  rewrite dropna_concat_column. unfold Averages.combined_segments.
  rewrite flat_map_flat_map. apply flat_map_ext.
  intros m. apply contribution_of_body.
Qed.

Lemma values_of_nonempty (segs : list DataFrame) (measure : string) :
  flat_map (values_of measure) segs <> [] ->
  Averages.concat_has segs measure = true.
Proof.
  unfold Averages.concat_has.
  induction segs as [|s segs IH]; simpl; [congruence|].
  unfold values_of at 1. destruct (Frame.has_column s measure); [reflexivity|].
  simpl. exact IH.
Qed.

(** X7. The average [compute_averages] shows for a measure is the
    arithmetic mean of exactly the sample that box mode pools for that
    measure from the same moments; a measure shown as NaN has an empty
    pool. *)
Theorem average_of_pooled_sample (store : Store) (ms : list Moment)
    (o : Averages.Output) (measure : string) :
  Averages.compute_averages store ms = Page o ->
  In measure ORDERED_MEASURES ->
  let pool := Dict.get (Box.box_data store ms) measure in
  (pool <> [] ->
     In (measure, Some (Series.sum pool / Series.count pool))
        (Averages.averages o))
  /\ (forall a, In (measure, Some a) (Averages.averages o) ->
        pool <> [] /\ a = Series.sum pool / Series.count pool)
  /\ (In (measure, NaN) (Averages.averages o) -> pool = []).
Proof.
  intros Hpage Hm pool. unfold Averages.compute_averages in Hpage.
  set (segs := Averages.combined_segments store ms) in *.
  assert (Ho : Averages.averages o = Averages.average_metrics segs).
  { destruct segs; [discriminate|]. now inversion Hpage. }
  assert (Hpool : pool = Frame.dropna (Averages.concat_column segs measure))
    by now apply pool_of_segments.
  assert (Hentry : forall c, In (measure, c) (Averages.average_metrics segs) ->
                     c = Series.mean (Averages.concat_column segs measure)).
  { intros c Hc. unfold Averages.average_metrics in Hc.
    apply in_flat_map in Hc. destruct Hc as [k [_ Hk]].
    destruct (Averages.concat_has segs k); [|contradiction].
    destruct Hk as [Hk|[]]. now inversion Hk. }
  rewrite Ho. split; [|split].
  - intros Hne. unfold Averages.average_metrics. apply in_flat_map.
    exists measure. split; [assumption|].
    rewrite values_of_nonempty
      by (rewrite <- dropna_concat_column, <- Hpool; assumption).
    left. f_equal. rewrite mean_dropna by (rewrite <- Hpool; assumption).
    now rewrite <- Hpool.
  - intros a Ha. apply Hentry in Ha. unfold Series.mean in Ha.
    rewrite <- Hpool in Ha. destruct pool as [|x v] eqn:Ep; [discriminate|].
    split; [discriminate|]. now inversion Ha.
  - intros Hn. apply Hentry in Hn. unfold Series.mean in Hn.
    rewrite <- Hpool in Hn. destruct pool; [reflexivity | discriminate].
Qed.

Lemma average_of_pooled_sample_witness :
  In ("Engagement",
      Some (Series.sum (Dict.get (Box.box_data example_store example_moments)
                          "Engagement")
            / Series.count (Dict.get (Box.box_data example_store example_moments)
                              "Engagement")))
     (Averages.averages averages_of_example).
Proof.
  refine (proj1 (average_of_pooled_sample example_store example_moments
                   averages_of_example "Engagement" _ _) _).
  - vm_compute. reflexivity.
  - right. left. reflexivity.
  - discriminate.
Defined.

(** ** The CSV of box mode is rectangular *)

Lemma list_max_ge (l : list nat) (n : nat) : In n l -> (n <= list_max l)%nat.
Proof.
  induction l as [|x l IH]; simpl; [tauto|].
  intros [->|H]; [lia|]. specialize (IH H). lia.
Qed.

Lemma pooled_length_le_max_len (store : Store) (ms : list Moment) (measure : string) :
  In measure ORDERED_MEASURES ->
  (List.length (Dict.get (Box.box_data store ms) measure)
   <= Box.max_len (Box.box_data store ms))%nat.
Proof.
  intros Hm. set (d := Box.box_data store ms).
  destruct (Dict.get d measure) as [|x v] eqn:E; [simpl; lia|].
  unfold Box.max_len. apply list_max_ge. apply in_map_iff.
  exists (x :: v). split; [reflexivity|]. apply filter_In. split; [|reflexivity].
  unfold d. rewrite values_box_data. apply in_map_iff.
  exists measure. split; assumption.
Qed.

(** X8. The CSV of box mode is rectangular: the header has two
    cells and one [Value_i] cell per value of the longest pooled sample,
    every row is as wide as the header, and there is no row exactly when
    that longest length is 0. *)
Theorem box_csv_is_rectangular (store : Store) (ms : list Moment) (pd : Q)
    (q : string) (o : Box.Output) :
  Box.aggregated_box store ms pd q = Page o ->
  List.length (Box.csv_header o) = (2 + Box.max_len (Box.pooled o))%nat
  /\ (forall row, In row (Box.csv o) ->
        List.length row = List.length (Box.csv_header o))
  /\ (forall measure, In measure ORDERED_MEASURES ->
        (List.length (Dict.get (Box.pooled o) measure)
         <= Box.max_len (Box.pooled o))%nat)
  /\ (Box.max_len (Box.pooled o) = 0%nat <-> Box.csv o = []).
Proof.
  intros H. unfold Box.aggregated_box in H. inversion H; subst o. clear H.
  cbn [Box.csv_header Box.csv Box.pooled].
  set (d := Box.box_data store ms).
  assert (Hhead : List.length (Box.header d) = (2 + Box.max_len d)%nat).
  { unfold Box.header. rewrite length_app, length_map, length_seq. reflexivity. }
  split; [exact Hhead|]. split; [|split].
  - intros row Hrow. unfold Box.csv_rows in Hrow. apply in_flat_map in Hrow.
    destruct Hrow as [measure [Hm Hrow]].
    destruct (Box.nonempty (Dict.get d measure)); [|contradiction].
    destruct Hrow as [<-|[]].
    rewrite Hhead, !length_app, length_map, repeat_length.
    pose proof (pooled_length_le_max_len store ms measure Hm).
    fold d in H. simpl. lia.
  - intros measure Hm. now apply pooled_length_le_max_len.
  - split.
    + intros Hz. unfold Box.csv_rows. apply flat_map_nil. intros k Hk.
      pose proof (pooled_length_le_max_len store ms k Hk) as Hle. fold d in Hle.
      destruct (Dict.get d k); [reflexivity | simpl in Hle; lia].
    + intros Hnil. unfold Box.max_len. unfold d. rewrite values_box_data. fold d.
      assert (E : filter Box.nonempty (map (Dict.get d) ORDERED_MEASURES) = []).
      { unfold Box.csv_rows in Hnil. revert Hnil.
        generalize ORDERED_MEASURES as ks.
        induction ks as [|k ks IH]; simpl; [reflexivity|].
        destruct (Box.nonempty (Dict.get d k)); simpl; [discriminate | exact IH]. }
      now rewrite E.
Qed.

Lemma box_csv_is_rectangular_witness :
  List.length (Box.csv_header (example_box example_moments))
  = (2 + Box.max_len (Box.pooled (example_box example_moments)))%nat.
Proof.
  exact (proj1 (box_csv_is_rectangular example_store example_moments 2 "q"
                  (example_box example_moments) eq_refl)).
Defined.

(** ** How an aligned request ends *)

Lemma index_of_has_column (df : DataFrame) (m : string) :
  Frame.has_column df m = true ->
  exists k, Frame.index_of m (columns df) = Some k.
Proof.
  unfold Frame.has_column. generalize (columns df) as cs.
  induction cs as [|c cs IH]; simpl; [discriminate|].
  destruct (String.eqb m c); [now exists O|].
  simpl. intros H. destruct (IH H) as [k ->]. now exists (S k).
Qed.

Lemma column_length (df : DataFrame) (m : string) :
  Frame.has_column df m = true ->
  List.length (Frame.column df m) = List.length (rows df).
Proof.
  intros H. destruct (index_of_has_column df m H) as [k Hk].
  unfold Frame.column. rewrite Hk. apply length_map.
Qed.

Lemma included_well_formed store pre post ep ms e :
  In e (Line.included_events (Line.loop store pre post ep ms)) -> well_formed e.
Proof.
  intros H. apply included_event_origin in H.
  destruct H as [m [st [et [df [_ [_ [_ [_ [_ Hrel]]]]]]]]].
  unfold well_formed. rewrite Hrel. unfold Frame.Time.
  now rewrite !length_map.
Qed.

Lemma interp_raises ct (e : Line.Event) (m : string) :
  well_formed e -> Frame.has_column (Line.seg e) m = true ->
  (Numpy.interp ct (Line.RelativeTime e) (Frame.column (Line.seg e) m) = None
   <-> rows (Line.seg e) = []).
Proof.
  intros Hwf Hc. pose proof (column_length _ _ Hc) as Hlen.
  unfold well_formed in Hwf. unfold Numpy.interp.
  destruct (Line.RelativeTime e) as [|x xs];
    destruct (Frame.column (Line.seg e) m) as [|y ys];
    destruct (rows (Line.seg e)) as [|r rs]; simpl in *;
    try discriminate; split; intros H; try reflexivity; discriminate.
Qed.

Lemma add_measures_raise ct e (ks : list string) : forall d,
  fold_left (Line.add_measure ct e) ks (Some d) = None
  <-> exists m, In m ks /\ Frame.has_column (Line.seg e) m = true
                /\ Numpy.interp ct (Line.RelativeTime e)
                     (Frame.column (Line.seg e) m) = None.
Proof.
  induction ks as [|k ks IH]; intros d; simpl.
  - split; [discriminate | intros [m [[] _]]].
  - destruct (Frame.has_column (Line.seg e) k) eqn:Hc.
    + destruct (Numpy.interp ct (Line.RelativeTime e)
                  (Frame.column (Line.seg e) k)) as [vals|] eqn:Ei.
      * rewrite IH. split; intros [m [Hin H]]; exists m.
        -- split; [now right | exact H].
        -- destruct Hin as [<-|Hin]; [|now split].
           destruct H as [_ H]. congruence.
      * rewrite Curve.add_measure_None. split; [|reflexivity].
        intros _. exists k. split; [now left | now split].
    + rewrite IH. split; intros [m [Hin H]]; exists m.
      * split; [now right | exact H].
      * destruct Hin as [<-|Hin]; [|now split].
        destruct H as [H _]. congruence.
Qed.

Lemma interp_data_raises ct (es : list Line.Event) : forall d,
  fold_left (Line.add_event ct) es (Some d) = None
  <-> exists e m, In e es /\ In m ORDERED_MEASURES
                  /\ Frame.has_column (Line.seg e) m = true
                  /\ Numpy.interp ct (Line.RelativeTime e)
                       (Frame.column (Line.seg e) m) = None.
Proof.
  induction es as [|e es IH]; intros d; cbn [fold_left].
  - split; [discriminate | intros [e [m [[] _]]]].
  - destruct (Line.add_event ct (Some d) e) as [d1|] eqn:E1.
    + rewrite IH. split; intros [e' [m [Hin H]]]; exists e', m.
      * split; [now right | exact H].
      * destruct Hin as [<-|Hin]; [|now split]. exfalso.
        assert (Hn : Line.add_event ct (Some d) e = None).
        { unfold Line.add_event. apply add_measures_raise.
          exists m. tauto. }
        congruence.
    + rewrite Curve.add_event_None. split; [|reflexivity]. intros _.
      unfold Line.add_event in E1. apply add_measures_raise in E1.
      destruct E1 as [m H]. exists e, m. split; [now left | exact H].
Qed.

(** X9. How a request of aligned mode ends: with the "no valid CSV
    data" answer exactly when no event is included; with an exception no
    handler catches exactly when some included event has no row in its
    window but has a canonical measure column ([np.interp] on an empty
    array); and with a page in all other cases. *)
Theorem aligned_outcome (store : Store) (ms : list Moment)
    (pre post pd : Q) (q : string) :
  let events :=
    Line.included_events (Line.loop store pre post (Float.add pd post) ms) in
  let starved :=
    exists e m, In e events /\ In m ORDERED_MEASURES
                /\ Frame.has_column (Line.seg e) m = true
                /\ rows (Line.seg e) = [] in
  (Line.aggregated_line store ms pre post pd q
   = Message 400 "No valid CSV data for graphing after exclusions."
   <-> events = [])
  /\ (Line.aggregated_line store ms pre post pd q = Unhandled <-> starved)
  /\ ((exists o, Line.aggregated_line store ms pre post pd q = Page o)
      <-> events <> [] /\ ~ starved).
Proof.
  intros events starved.
  set (ct := Numpy.linspace (- pre) (Float.add pd post) 100).
  assert (Hraise : Line.interp_data ct events = None <-> starved).
  { unfold Line.interp_data. rewrite interp_data_raises. unfold starved.
    split; intros [e [m [He [Hm [Hc H]]]]]; exists e, m;
      (split; [assumption|]; split; [assumption|]; split; [assumption|]);
      apply (interp_raises ct e m) in H; try assumption;
      apply (included_well_formed store pre post (Float.add pd post) ms e He). }
  assert (Hstarved : starved -> events <> []).
  { intros [e [_ [He _]]] Hnil. rewrite Hnil in He. contradiction. }
  unfold Line.aggregated_line. fold ct. fold events.
  destruct events as [|e es] eqn:Ee.
  - split; [tauto|]. split.
    + split; [discriminate|]. intros H. now apply Hstarved in H.
    + split; [intros [o H]; discriminate | intros [H _]; congruence].
  - destruct (Line.interp_data ct (e :: es)) as [d|] eqn:Ed.
    + split; [split; discriminate|]. split.
      * split; [discriminate|]. intros H. apply Hraise in H. discriminate.
      * split; [|intros _; eexists; reflexivity].
        intros _. split; [discriminate|]. intros H.
        apply Hraise in H. discriminate.
    + split; [split; discriminate|]. split.
      * split; [intros _; now apply Hraise | reflexivity].
      * split; [intros [o H]; discriminate|].
        intros [_ H]. exfalso. apply H. now apply Hraise.
Qed.

(** ** Included events and the grid *)

(** X10. An included event holds exactly the rows of its series whose
    time lies in the window as the code computes it, from
    [start - pre_duration] to [start + effective_post], each a double; it
    has one relative time per row, the double [time - start].  Relative
    times keep the order of the times, are not negative from the start on
    and not positive up to it, and lie between the relative times of the
    two ends of the window.  They need not lie within
    [[-pre_duration, effective_post]]: with start 1.3 and
    [pre_duration] 0.1 the row at 1.2 is selected and its relative time
    is below -0.1. *)
Theorem relative_times_of_window (store : Store) (ms : list Moment)
    (pre post ep : Q) (e : Line.Event) :
  In e (Line.included_events (Line.loop store pre post ep ms)) ->
  List.length (Line.RelativeTime e) = List.length (rows (Line.seg e))
  /\ (exists m st df,
        In m ms /\ float (start_time m) = Some st
        /\ store (video_id m) = Loaded df
        /\ columns (Line.seg e) = columns df
        /\ (forall r, In r (rows (Line.seg e)) <->
              In r (rows df)
              /\ Float.sub st pre <= fst r <= Float.add st ep)
        /\ Line.RelativeTime e
           = map (fun r => Float.sub (fst r) st) (rows (Line.seg e))
        /\ (forall t, In t (Line.RelativeTime e) ->
              Float.sub (Float.sub st pre) st <= t
              /\ t <= Float.sub (Float.add st ep) st)
        /\ (forall r r', In r (rows (Line.seg e)) ->
              In r' (rows (Line.seg e)) ->
              fst r <= fst r' ->
              Float.sub (fst r) st <= Float.sub (fst r') st)
        /\ (forall r, In r (rows (Line.seg e)) ->
              (st <= fst r -> 0 <= Float.sub (fst r) st)
              /\ (fst r <= st -> Float.sub (fst r) st <= 0)))
  /\ (let st := Float.literal (13 # 10) in
      let pre := Float.literal (1 # 10) in
      let t := Float.literal (12 # 10) in
      Float.sub st pre <= t /\ Float.sub t st < - pre).
Proof.
  intros H. split; [now apply (included_well_formed store pre post ep ms)|].
  split.
  - apply included_event_origin in H.
    destruct H as [m [st [et [df [Hm [Hs [_ [Hl [Hseg Hrel]]]]]]]]].
    assert (Hrows : forall r, In r (rows (Line.seg e)) <->
                      In r (rows df)
                      /\ Float.sub st pre <= fst r <= Float.add st ep).
    { intros r. rewrite Hseg. simpl. rewrite filter_In, andb_true_iff.
      rewrite !Qle_bool_iff. reflexivity. }
    assert (Hrel' : Line.RelativeTime e
                    = map (fun r => Float.sub (fst r) st) (rows (Line.seg e))).
    { rewrite Hrel. unfold Frame.Time. now rewrite map_map. }
    assert (Hmono : forall x y, x <= y -> Float.sub x st <= Float.sub y st).
    { intros x y Hxy. apply FloatFacts.round_le. lra. }
    exists m, st, df.
    split; [assumption|]. split; [assumption|]. split; [assumption|].
    split; [now rewrite Hseg|]. split; [exact Hrows|].
    split; [exact Hrel'|]. split; [|split].
    + intros t Ht. rewrite Hrel' in Ht. apply in_map_iff in Ht.
      destruct Ht as [r [<- Hr]]. apply Hrows in Hr.
      destruct Hr as [_ [H1 H2]]. split; now apply Hmono.
    + intros r r' _ _. apply Hmono.
    + intros r _. split; intros Hr.
      * change 0 with (Float.round 0). apply FloatFacts.round_le. lra.
      * change 0 with (Float.round 0). apply FloatFacts.round_le. lra.
  - split; [apply Qle_bool_iff | apply Qlt_alt]; vm_compute; reflexivity.
Qed.

Lemma relative_times_of_window_witness :
  List.length (Line.RelativeTime (Aligned.event_of series_A 0 2 0))
  = List.length (rows (Line.seg (Aligned.event_of series_A 0 2 0))).
Proof.
  refine (proj1
    (relative_times_of_window example_store example_moments 0 0 2
       (Aligned.event_of series_A 0 2 0) _)).
  left. reflexivity.
Defined.

Lemma not_positive (x : Q) : ~ 0 < x -> Line.positive x = false.
Proof.
  intros H. unfold Line.positive.
  destruct (Numpy.Qltb 0 x) eqn:E; [|reflexivity].
  apply LineFacts.Qltb_lt in E. contradiction.
Qed.

(** X11. Without a pre or post window ([pre_duration <= 0] and
    [post_extra <= 0]) no moment is excluded for its coverage: every moment
    whose times parse and whose dataset loads is included, whatever its
    series covers, and the excluded names are those of moments whose
    dataset read failed. *)
Theorem no_window_no_exclusion (store : Store) (ms : list Moment)
    (pre post ep : Q) :
  ~ 0 < pre -> ~ 0 < post ->
  (forall m st et df,
     float (start_time m) = Some st -> float (end_time m) = Some et ->
     store (video_id m) = Loaded df ->
     Line.body store pre post ep m
     = Line.Included (Aligned.event_of df pre ep st))
  /\ (forall name,
        In name (Line.excluded_names (Line.loop store pre post ep ms)) ->
        exists m, In m ms /\ ad_name m = name
                  /\ store (video_id m) = ReadFails).
Proof.
  intros Hpre Hpost.
  assert (Hins : forall st a b,
            Line.insufficient pre post ep st a b = false).
  { intros st a b. unfold Line.insufficient.
    now rewrite (not_positive pre Hpre), (not_positive post Hpost). }
  split.
  - intros m st et df Hs He Hl.
    rewrite (LineFacts.body_loaded store pre post ep m st et df Hs He Hl).
    now rewrite Hins.
  - intros name Hn. rewrite LineFacts.loop_lists in Hn. simpl in Hn.
    apply in_flat_map in Hn. destruct Hn as [m [Hm Hn]].
    exists m. split; [assumption|]. unfold Line.body in Hn.
    destruct (float (start_time m)) as [st|]; [|contradiction].
    destruct (float (end_time m)) as [et|]; [|contradiction].
    destruct (store (video_id m)) as [| |df]; try contradiction.
    + destruct Hn as [<-|[]]. now split.
    + rewrite Hins in Hn. contradiction.
Qed.

Lemma no_window_no_exclusion_witness :
  Line.body short_store 0 0 2 (mkMoment "A" (Num 1) (Num 3) "Ad A")
  = Line.Included (Aligned.event_of series_A_short 0 2 1).
Proof.
  refine (proj1 (no_window_no_exclusion short_store [] 0 0 2 _ _)
            (mkMoment "A" (Num 1) (Num 3) "Ad A") 1 3 series_A_short
            eq_refl eq_refl eq_refl); intros H; discriminate H.
Defined.

(** ** Interpolation *)

Lemma Qltb_false_le (x y : Q) : Numpy.Qltb x y = false -> y <= x.
Proof. apply LineFacts.Qltb_ge. Qed.

Lemma interp_from_right (x : Q) (rest : list (Q * cell)) : forall x0 y0,
  (forall p, In p rest -> fst p <= x) ->
  Numpy.interp_from x x0 y0 rest = last (y0 :: map snd rest) NaN.
Proof.
  induction rest as [|[x1 y1] rest IH]; intros x0 y0 H; [reflexivity|].
  cbn [Numpy.interp_from].
  assert (E : Numpy.Qltb x x1 = false).
  { apply LineFacts.Qltb_ge. apply (H (x1, y1)). now left. }
  rewrite E, IH by (intros p Hp; apply H; now right).
  reflexivity.
Qed.

Lemma interp_from_within (lo hi x : Q) (rest : list (Q * cell)) : forall x0 y0 v,
  x0 <= x ->
  (forall y, In (Some y) (y0 :: map snd rest) -> lo <= y <= hi) ->
  Numpy.interp_from x x0 y0 rest = Some v ->
  lo <= v <= hi.
Proof.
  induction rest as [|[x1 y1] rest IH]; intros x0 y0 v Hx H Hv; simpl in Hv.
  - apply H. left. exact Hv.
  - destruct (Numpy.Qltb x x1) eqn:E.
    + destruct (Qeq_bool x0 x).
      * apply H. left. exact Hv.
      * apply LineFacts.Qltb_lt in E. unfold Numpy.lerp in Hv.
        destruct y0 as [a|]; [|discriminate].
        destruct y1 as [b|]; [|discriminate].
        inversion Hv; subst v. clear Hv.
        assert (Ha : lo <= a <= hi) by (apply H; now left).
        assert (Hb : lo <= b <= hi) by (apply H; right; now left).
        set (t := (x - x0) / (x1 - x0)).
        assert (Ht0 : 0 <= t).
        { unfold t. apply Qle_shift_div_l; lra. }
        assert (Ht1 : t <= 1).
        { unfold t. apply Qle_shift_div_r; lra. }
        assert (Ev : (b - a) / (x1 - x0) * (x - x0) + a
                     == (1 - t) * a + t * b).
        { unfold t. field. lra. }
        rewrite Ev.
        assert (H1 : 0 <= (1 - t) * (a - lo)) by (apply Qmult_le_0_compat; lra).
        assert (H2 : 0 <= t * (b - lo)) by (apply Qmult_le_0_compat; lra).
        assert (H3 : 0 <= (1 - t) * (hi - a)) by (apply Qmult_le_0_compat; lra).
        assert (H4 : 0 <= t * (hi - b)) by (apply Qmult_le_0_compat; lra).
        split; lra.
    + apply (IH x1 y1 v).
      * now apply Qltb_false_le.
      * intros y Hy. apply H. now right.
      * exact Hv.
Qed.

Lemma interp1_within (lo hi x x0 : Q) (y0 : cell) (rest : list (Q * cell)) (v : Q) :
  (forall y, In (Some y) (y0 :: map snd rest) -> lo <= y <= hi) ->
  Numpy.interp1 x x0 y0 rest = Some v ->
  lo <= v <= hi.
Proof.
  intros H Hv. unfold Numpy.interp1 in Hv.
  destruct (Numpy.Qltb x x0) eqn:E.
  - apply H. left. exact Hv.
  - apply (interp_from_within lo hi x rest x0 y0 v); try assumption.
    now apply Qltb_false_le.
Qed.

Lemma combine_values (xp : list Q) (fp : list cell) (x0 : Q) (y0 : cell)
    (rest : list (Q * cell)) (y : cell) :
  combine xp fp = (x0, y0) :: rest -> In y (y0 :: map snd rest) -> In y fp.
Proof.
  intros Hc Hy.
  assert (Hin : In y (map snd (combine xp fp))) by (rewrite Hc; exact Hy).
  apply in_map_iff in Hin. destruct Hin as [[a b] [<- Hp]].
  now apply in_combine_r in Hp.
Qed.

(** X12. [np.interp] as [aggregated_line] calls it: one value per
    grid point; a value that is not NaN lies within any bounds that hold
    for the sample values; a grid point before the first sample time gets
    the first value and a grid point at or after every sample time gets
    the last value (edge clamping). *)
Theorem interpolation_stays_in_range (x : list Q) (xp : list Q)
    (fp vals : list cell) (i : nat) :
  Numpy.interp x xp fp = Some vals ->
  (i < List.length x)%nat ->
  List.length vals = List.length x
  /\ (forall lo hi v,
        (forall y, In (Some y) fp -> lo <= y <= hi) ->
        nth i vals NaN = Some v -> lo <= v <= hi)
  /\ (forall x0 y0,
        hd_error xp = Some x0 -> hd_error fp = Some y0 ->
        nth i x 0 < x0 -> nth i vals NaN = y0)
  /\ (List.length xp = List.length fp ->
      (forall t, In t xp -> t <= nth i x 0) ->
      nth i vals NaN = last fp NaN).
Proof.
  intros H Hi. unfold Numpy.interp in H.
  destruct (combine xp fp) as [|[x0 y0] rest] eqn:Hc; [discriminate|].
  inversion H; subst vals. clear H.
  split; [apply length_map|].
  rewrite (nth_map_in_range _ _ i 0 NaN Hi).
  split; [|split].
  - intros lo hi v Hfp Hv.
    apply (interp1_within lo hi (nth i x 0) x0 y0 rest v); [|exact Hv].
    intros y Hy. apply Hfp. now apply (combine_values xp fp x0 y0 rest).
  - intros a b Ha Hb Hlt.
    destruct xp as [|a' xp]; [discriminate|].
    destruct fp as [|b' fp]; [discriminate|].
    simpl in Ha, Hb, Hc. inversion Ha; inversion Hb; inversion Hc; subst.
    unfold Numpy.interp1.
    assert (E : Numpy.Qltb (nth i x 0) x0 = true) by now apply LineFacts.Qltb_lt.
    now rewrite E.
  - intros Hlen Hall.
    destruct xp as [|a xp]; [discriminate|].
    destruct fp as [|b fp]; [discriminate|].
    simpl in Hc. inversion Hc; subst. clear Hc.
    unfold Numpy.interp1.
    assert (E : Numpy.Qltb (nth i x 0) x0 = false).
    { apply LineFacts.Qltb_ge. apply Hall. now left. }
    rewrite E, interp_from_right.
    + simpl in Hlen. injection Hlen as Hlen.
      assert (Hm : map snd (combine xp fp) = fp).
      { clear -Hlen. revert fp Hlen.
        induction xp as [|a xp IH]; intros [|b fp] Hlen; simpl in *;
          try discriminate; [reflexivity|].
        f_equal. apply IH. now injection Hlen. }
      now rewrite Hm.
    + intros p Hp. apply Hall. right.
      destruct p as [a b]. now apply in_combine_l in Hp.
Qed.

Lemma fold_add_None (l : list cell) : fold_left Numpy.add l None = None.
Proof. induction l as [|c l IH]; simpl; [reflexivity | exact IH]. Qed.

Lemma fold_add_within (lo hi : Q) (l : list cell) : forall a s n,
  fold_left Numpy.add l (Some a) = Some s ->
  (forall y, In (Some y) l -> lo <= y <= hi) ->
  n * lo <= a <= n * hi ->
  (n + inject_Z (Z.of_nat (List.length l))) * lo <= s
  <= (n + inject_Z (Z.of_nat (List.length l))) * hi.
Proof.
  induction l as [|c l IH]; intros a s n Hs H Hn.
  - simpl in *. inversion Hs; subst. change (inject_Z 0) with 0. lra.
  - destruct c as [y|]; [|simpl in Hs; now rewrite fold_add_None in Hs].
    cbn [fold_left Numpy.add] in Hs.
    assert (Hy : lo <= y <= hi) by (apply H; now left).
    specialize (IH (a + y) s (n + 1) Hs).
    cbn [List.length]. rewrite Nat2Z.inj_succ, <- Z.add_1_l, inject_Z_plus.
    change (inject_Z 1) with 1.
    destruct IH as [I1 I2]; [intros z Hz; apply H; now right | lra |].
    split; lra.
Qed.

Lemma mean_within (lo hi : Q) (l : list cell) (v : Q) :
  Numpy.mean l = Some v ->
  (forall y, In (Some y) l -> lo <= y <= hi) ->
  lo <= v <= hi.
Proof.
  unfold Numpy.mean. destruct l as [|c l]; [discriminate|].
  intros Hv H. unfold Numpy.divide in Hv.
  destruct (fold_left Numpy.add l c) as [s|] eqn:Es; [|discriminate].
  simpl in Hv. inversion Hv; subst v. clear Hv.
  destruct c as [a|]; [|now rewrite fold_add_None in Es].
  assert (Ha : lo <= a <= hi) by (apply H; now left).
  destruct (fold_add_within lo hi l a s 1 Es) as [H1 H2];
    [intros y Hy; apply H; now right | lra |].
  set (n := inject_Z (Z.of_nat (List.length l))) in *.
  assert (Hn : 0 <= n).
  { unfold n. change 0 with (inject_Z 0). rewrite <- Zle_Qle. lia. }
  assert (En : inject_Z (Z.of_nat (S (List.length l))) == 1 + n).
  { unfold n. rewrite Nat2Z.inj_succ, <- Z.add_1_l, inject_Z_plus. reflexivity. }
  rewrite En. split.
  - apply Qle_shift_div_l; lra.
  - apply Qle_shift_div_r; lra.
Qed.

Lemma column_between (df : DataFrame) (a b : Q) (m : string) (c : cell) :
  In c (Frame.column (Frame.between df a b) m) -> In c (Frame.column df m).
Proof.
  unfold Frame.column. simpl.
  destruct (Frame.index_of m (columns df)); [|tauto].
  rewrite !in_map_iff. intros [r [<- Hr]]. exists r. split; [reflexivity|].
  apply filter_In in Hr. tauto.
Qed.

Lemma at_time_within (lo hi : Q) (e : Line.Event) (m : string) (x v : Q) :
  (forall y, In (Some y) (Frame.column (Line.seg e) m) -> lo <= y <= hi) ->
  Aligned.at_time e m x = Some v -> lo <= v <= hi.
Proof.
  intros H Hv. unfold Aligned.at_time in Hv.
  destruct (combine (Line.RelativeTime e) (Frame.column (Line.seg e) m))
    as [|[x0 y0] rest] eqn:Hc; [discriminate|].
  apply (interp1_within lo hi x x0 y0 rest v); [|exact Hv].
  intros y Hy. apply H.
  now apply (combine_values (Line.RelativeTime e) _ x0 y0 rest).
Qed.

(** X13. The averaged curve stays within the range of the data: if
    every value of a measure in the datasets of the moments lies in
    [[lo, hi]], then so does every averaged value of that measure that is
    not NaN. *)
Theorem averaged_within_range (store : Store) (ms : list Moment)
    (pre post pd : Q) (q : string) (o : Line.Output) (measure : string)
    (lo hi : Q) :
  Line.aggregated_line store ms pre post pd q = Page o ->
  In measure ORDERED_MEASURES ->
  (forall m df y,
     In m ms -> store (video_id m) = Loaded df ->
     In (Some y) (Frame.column df measure) -> lo <= y <= hi) ->
  forall mean_vals i v,
    Line.lookup (Line.averaged o) measure = Some mean_vals ->
    (i < 100)%nat -> nth i mean_vals NaN = Some v ->
    lo <= v <= hi.
Proof.
  intros Hpage Hm Hdata mean_vals i v Hlook Hi Hv.
  apply aggregated_line_Page in Hpage.
  set (events := Line.included_events
                   (Line.loop store pre post (Float.add pd post) ms)) in *.
  set (ct := Numpy.linspace (- pre) (Float.add pd post) 100) in *.
  destruct Hpage as [_ [d [Hd ->]]]. cbn [Line.averaged] in Hlook.
  rewrite (Curve.lookup_averaged_of d measure Hm) in Hlook.
  rewrite (Curve.get_interp_data ct events d measure Hm Hd) in Hlook.
  set (arrays := map (fun e => map (Aligned.at_time e measure) ct)
                     (Aligned.contributing measure events)) in *.
  assert (Harr : arrays <> []) by (destruct arrays; [discriminate | discriminate]).
  assert (Hmv : mean_vals = Numpy.mean_axis0 arrays).
  { destruct arrays; [congruence | now inversion Hlook]. }
  subst mean_vals. rewrite Curve.nth_mean_axis0 in Hv by assumption.
  apply (mean_within lo hi _ v Hv). intros y Hy.
  apply in_map_iff in Hy. destruct Hy as [r [Hr Hin]].
  unfold arrays in Hin. apply in_map_iff in Hin.
  destruct Hin as [e [<- He]].
  rewrite (nth_map_in_range _ _ i 0 NaN) in Hr
    by (unfold ct; now rewrite linspace_length).
  apply (at_time_within lo hi e measure (nth i ct 0) y); [|exact Hr].
  unfold Aligned.contributing in He. apply filter_In in He.
  destruct He as [He _].
  apply included_event_origin in He.
  destruct He as [m [st [et [df [Hin [_ [_ [Hl [Hseg _]]]]]]]]].
  intros z Hz. rewrite Hseg in Hz. apply column_between in Hz.
  now apply (Hdata m df z).
Qed.

Lemma averaged_within_range_witness : 0 <= 50 # 200 <= 1.
Proof.
  refine (averaged_within_range example_store example_moments 0 0 2 "q"
            example_output "Engagement" 0 1 example_line_page _ _
            example_engagement 0 (50 # 200) example_engagement_lookup _ eq_refl).
  - right. left. reflexivity.
  - intros m df y [<-|[<-|[]]] Hl; inversion Hl; subst df; simpl;
      intros [H|[H|[H|[]]]]; inversion H; subst y; split; unfold Qle; simpl; lia.
  - lia.
Defined.

Lemma interpolation_stays_in_range_witness :
  nth 1 [Some (1 # 2); Some 1] NaN = last [Some 0; Some 1] NaN.
Proof.
  refine (proj2 (proj2 (proj2
    (interpolation_stays_in_range [1 # 2; 5] [0; 1] [Some 0; Some 1]
       [Some (1 # 2); Some 1] 1 _ _))) eq_refl _).
  - vm_compute. reflexivity.
  - simpl. lia.
  - intros t [<-|[<-|[]]]; unfold Qle; simpl; lia.
Defined.

(** ** File names *)

Section FilenameFacts.

Variable isalnum : ascii -> bool.

Let kept := Filename.kept isalnum.
Let safe_char := Filename.safe_char isalnum.
Let safe_filename := Filename.safe_filename isalnum.

Lemma kept_safe_char (c : ascii) : kept (safe_char c) = true.
Proof.
  unfold safe_char, Filename.safe_char. fold kept.
  destruct (kept c) eqn:E; [exact E|].
  unfold kept, Filename.kept. simpl. apply orb_true_r.
Qed.

Lemma safe_char_kept (c : ascii) : kept c = true -> safe_char c = c.
Proof.
  intros H. unfold safe_char, Filename.safe_char. fold kept. now rewrite H.
Qed.

Lemma safe_char_fixed (c : ascii) : safe_char c = c -> kept c = true.
Proof. intros H. rewrite <- H. apply kept_safe_char. Qed.

Lemma safe_filename_app (a b : string) :
  safe_filename (a ++ b) = (safe_filename a ++ safe_filename b)%string.
Proof.
  induction a as [|c a IH]; simpl; [reflexivity|].
  unfold safe_filename in *. simpl. now rewrite IH.
Qed.

(** X14. [safe_filename] keeps the length of the query, gives only
    characters that are alphanumeric, [_] or [-], keeps such characters
    where they are and puts [_] in place of every other one. *)
Theorem safe_filename_is_safe (q : string) :
  String.length (safe_filename q) = String.length q
  /\ every kept (safe_filename q) = true
  /\ (forall i c, String.get i q = Some c ->
        String.get i (safe_filename q)
        = Some (if kept c then c else "_"%char)).
Proof.
  unfold safe_filename. induction q as [|c q [IH1 [IH2 IH3]]]; simpl.
  - split; [reflexivity|]. split; [reflexivity|]. intros i c H. discriminate.
  - split; [now rewrite IH1|]. split.
    + fold safe_char. rewrite kept_safe_char. exact IH2.
    + intros [|i] d H.
      * inversion H; subst. reflexivity.
      * now apply IH3.
Qed.

(** X15. [safe_filename] is idempotent, leaves a query unchanged
    exactly when all its characters are alphanumeric, [_] or [-], and
    works character by character (it distributes over concatenation). *)
Theorem safe_filename_idempotent (q : string) :
  safe_filename (safe_filename q) = safe_filename q
  /\ (safe_filename q = q <-> every kept q = true)
  /\ (forall a b, safe_filename (a ++ b)
                  = (safe_filename a ++ safe_filename b)%string).
Proof.
  split; [|split; [|apply safe_filename_app]].
  - unfold safe_filename. induction q as [|c q IH]; simpl; [reflexivity|].
    rewrite IH. f_equal. apply safe_char_kept. apply kept_safe_char.
  - unfold safe_filename. induction q as [|c q IH]; simpl; [tauto|].
    rewrite andb_true_iff, <- IH. split.
    + intros H. injection H as Hc Hq.
      split; [apply safe_char_fixed; exact Hc | exact Hq].
    + intros [Hc Hq]. rewrite Hq. f_equal. now apply safe_char_kept.
Qed.

End FilenameFacts.

(** ** Selections *)

Lemma split_nonempty (sep : ascii) (s : string) : Selection.split sep s <> [].
Proof.
  destruct s as [|c s]; simpl; [discriminate|].
  destruct (Ascii.eqb c sep); [discriminate|].
  destruct (Selection.split sep s); discriminate.
Qed.

Lemma split_length (sep : ascii) (s : string) :
  List.length (Selection.split sep s) = S (occurrences sep s).
Proof.
  induction s as [|c s IH]; simpl; [reflexivity|].
  destruct (Ascii.eqb c sep); simpl; [now rewrite IH|].
  destruct (Selection.split sep s) as [|p ps] eqn:E; simpl in *; [discriminate|].
  exact IH.
Qed.

Lemma split_plain (sep : ascii) (s : string) :
  occurrences sep s = O -> Selection.split sep s = [s].
Proof.
  induction s as [|c s IH]; simpl; [reflexivity|].
  destruct (Ascii.eqb c sep); [discriminate|].
  intros H. now rewrite (IH H).
Qed.

Lemma split_app (sep : ascii) (a b : string) :
  occurrences sep a = O ->
  Selection.split sep (a ++ String sep b) = a :: Selection.split sep b.
Proof.
  induction a as [|c a IH]; simpl.
  - intros _. now rewrite Ascii.eqb_refl.
  - destruct (Ascii.eqb c sep); [discriminate|].
    intros H. now rewrite (IH H).
Qed.

Lemma occurrences_app (sep : ascii) (a b : string) :
  occurrences sep (a ++ b) = (occurrences sep a + occurrences sep b)%nat.
Proof.
  induction a as [|c a IH]; simpl; [reflexivity|].
  destruct (Ascii.eqb c sep); simpl; now rewrite IH.
Qed.

(** X16. The value [render_clip] puts in a checkbox comes back
    from [select_timepoints] as its five fields, when none of the fields
    contains the separator [|]. *)
Theorem selection_round_trip (i : nat)
    (video_id clip_start clip_end thumbnail_url ad_name : string) :
  occurrences "|" video_id = O -> occurrences "|" clip_start = O ->
  occurrences "|" clip_end = O -> occurrences "|" thumbnail_url = O ->
  occurrences "|" ad_name = O ->
  Selection.split "|"
    (Selection.checkbox_value video_id clip_start clip_end thumbnail_url ad_name)
  = [video_id; clip_start; clip_end; thumbnail_url; ad_name]
  /\ Selection.moment_form i
       (Selection.checkbox_value video_id clip_start clip_end thumbnail_url
          ad_name)
     = [Selection.mkMomentForm i video_id clip_start clip_end thumbnail_url
          ad_name]
  /\ Selection.select_timepoints
       (Some [Selection.checkbox_value video_id clip_start clip_end
                thumbnail_url ad_name])
     = Page [Selection.mkMomentForm 0 video_id clip_start clip_end
               thumbnail_url ad_name].
Proof.
  intros H1 H2 H3 H4 H5.
  assert (E : Selection.split "|"
                (Selection.checkbox_value video_id clip_start clip_end
                   thumbnail_url ad_name)
              = [video_id; clip_start; clip_end; thumbnail_url; ad_name]).
  { unfold Selection.checkbox_value.
    cbn [String.append].
    rewrite !split_app by assumption. now rewrite split_plain. }
  split; [exact E|]. split.
  - unfold Selection.moment_form. now rewrite E.
  - unfold Selection.select_timepoints, Selection.enumerate. simpl.
    unfold Selection.moment_form. simpl fst. simpl snd. now rewrite E.
Qed.

Lemma selection_round_trip_witness :
  Selection.split "|" (Selection.checkbox_value "A" "0.0" "2.5" "t.png" "Ad A")
  = ["A"; "0.0"; "2.5"; "t.png"; "Ad A"].
Proof.
  apply (selection_round_trip 0 "A" "0.0" "2.5" "t.png" "Ad A");
    reflexivity.
Defined.

Lemma moment_form_shown (i : nat) (s : string) :
  Selection.moment_form i s <> [] <-> occurrences "|" s = 4%nat.
Proof.
  pose proof (split_length "|" s) as Hlen. unfold Selection.moment_form.
  destruct (Selection.split "|" s) as [|a [|b [|c [|d [|e [|f l]]]]]];
    simpl in Hlen; split; intros H; try congruence; try lia; discriminate.
Qed.

Lemma moment_form_fields (i : nat) (s : string) (f : Selection.MomentForm) :
  In f (Selection.moment_form i s) ->
  Selection.index f = i
  /\ Selection.split "|" s
     = [Selection.video_id f; Selection.default_start f;
        Selection.default_end f; Selection.thumbnail_url f;
        Selection.ad_name f].
Proof.
  unfold Selection.moment_form.
  destruct (Selection.split "|" s) as [|a [|b [|c [|d [|e [|g l]]]]]];
    simpl; try tauto.
  intros [<-|[]]. simpl. auto.
Qed.

Lemma In_enumerate {A : Type} (l : list A) (i : nat) (x : A) :
  In (i, x) (Selection.enumerate l) <-> nth_error l i = Some x.
Proof.
  unfold Selection.enumerate.
  assert (H : forall k, In (i, x) (combine (seq k (List.length l)) l)
                        <-> (k <= i)%nat /\ nth_error l (i - k) = Some x).
  { induction l as [|a l IH]; intros k; simpl.
    - split; [tauto|]. intros [_ H]. destruct (i - k)%nat; discriminate.
    - rewrite IH. split.
      + intros [H|[H1 H2]].
        * inversion H; subst. rewrite Nat.sub_diag. auto.
        * split; [lia|]. replace (i - k)%nat with (S (i - S k)) by lia.
          exact H2.
      + intros [H1 H2]. destruct (Nat.eq_dec i k) as [->|Hne].
        * rewrite Nat.sub_diag in H2. inversion H2. now left.
        * right. split; [lia|].
          replace (i - k)%nat with (S (i - S k)) in H2 by lia. exact H2. }
  rewrite H, Nat.sub_0_r. split; [tauto | intros; split; [lia | assumption]].
Qed.


(** ** Confidence labels and the counts of the results page *)

Lemma confidence_high (s : Q) :
  Search.get_computed_confidence s = "high" <-> 80 <= s.
Proof.
  unfold Search.get_computed_confidence.
  destruct (Qle_bool 80 s) eqn:E1.
  - apply Qle_bool_iff in E1. tauto.
  - split; [destruct (Qle_bool 75 s); discriminate|].
    intros H. apply Qle_bool_iff in H. congruence.
Qed.

Lemma confidence_medium (s : Q) :
  Search.get_computed_confidence s = "medium" <-> 75 <= s /\ s < 80.
Proof.
  unfold Search.get_computed_confidence.
  destruct (Qle_bool 80 s) eqn:E1.
  - apply Qle_bool_iff in E1. split; [discriminate | lra].
  - assert (H80 : s < 80).
    { apply Qnot_le_lt. intros H. apply Qle_bool_iff in H. congruence. }
    destruct (Qle_bool 75 s) eqn:E2.
    + apply Qle_bool_iff in E2. tauto.
    + split; [discriminate|]. intros [H _]. apply Qle_bool_iff in H. congruence.
Qed.

Lemma confidence_low (s : Q) :
  Search.get_computed_confidence s = "low" <-> s < 75.
Proof.
  unfold Search.get_computed_confidence.
  destruct (Qle_bool 80 s) eqn:E1.
  - apply Qle_bool_iff in E1. split; [discriminate | lra].
  - destruct (Qle_bool 75 s) eqn:E2.
    + apply Qle_bool_iff in E2. split; [discriminate | lra].
    + split; [|reflexivity]. intros _.
      apply Qnot_le_lt. intros H. apply Qle_bool_iff in H. congruence.
Qed.

Lemma confidence_cases (s : Q) :
  Search.get_computed_confidence s = "high"
  \/ Search.get_computed_confidence s = "medium"
  \/ Search.get_computed_confidence s = "low".
Proof.
  unfold Search.get_computed_confidence.
  destruct (Qle_bool 80 s); [now left|].
  destruct (Qle_bool 75 s); [right; now left | right; now right].
Qed.

(** X18. [get_computed_confidence] is monotone: a score at least
    as high never gets a lower label, and equal scores get the same
    label. *)
Theorem confidence_is_monotone (s s' : Q) :
  s <= s' ->
  (Search.get_computed_confidence s = "high" ->
     Search.get_computed_confidence s' = "high")
  /\ (Search.get_computed_confidence s = "medium" ->
        Search.get_computed_confidence s' = "medium"
        \/ Search.get_computed_confidence s' = "high")
  /\ (Search.get_computed_confidence s' = "low" ->
        Search.get_computed_confidence s = "low")
  /\ (s == s' ->
        Search.get_computed_confidence s = Search.get_computed_confidence s').
Proof.
  intros Hle. split; [|split; [|split]].
  - rewrite !confidence_high. lra.
  - rewrite !confidence_medium, confidence_high. intros [H1 H2].
    destruct (Qlt_le_dec s' 80); [left; lra | now right].
  - rewrite !confidence_low. lra.
  - intros Heq.
    destruct (confidence_cases s) as [H|[H|H]]; rewrite H; symmetry.
    + apply confidence_high. apply confidence_high in H. lra.
    + apply confidence_medium. apply confidence_medium in H. lra.
    + apply confidence_low. apply confidence_low in H. lra.
Qed.

Lemma confidence_is_monotone_witness :
  Search.get_computed_confidence 90 = "high".
Proof.
  refine (proj1 (confidence_is_monotone 85 90 _) eq_refl).
  unfold Qle. simpl. lia.
Defined.

Lemma count_labels (cs : list Search.Clip) :
  (Search.count_label "high" cs + Search.count_label "medium" cs
   + Search.count_label "low" cs)%nat = List.length cs.
Proof.
  unfold Search.count_label.
  induction cs as [|c cs IH]; simpl; [reflexivity|].
  destruct (confidence_cases (Search.score c)) as [H|[H|H]];
    rewrite H; simpl; lia.
Qed.

Lemma no_other_label (label : string) (cs : list Search.Clip) :
  label <> "high" -> label <> "medium" -> label <> "low" ->
  filter (fun c => String.eqb
                     (Search.get_computed_confidence (Search.score c)) label)
         cs = [].
Proof.
  intros H1 H2 H3. apply filter_none. intros c _.
  apply String.eqb_neq.
  destruct (confidence_cases (Search.score c)) as [H|[H|H]]; rewrite H;
    congruence.
Qed.

(** ** Pages *)

Lemma slice_nonneg {A : Type} (items : list A) (a b : Z) :
  (0 <= a <= b)%Z ->
  Search.slice items a b
  = firstn (Z.to_nat (b - a)) (skipn (Z.to_nat a) items).
Proof.
  intros Hab. unfold Search.slice, Search.slice_index.
  set (len := Z.of_nat (List.length items)).
  assert (Ha : (a <? 0)%Z = false) by (apply Z.ltb_ge; lia).
  assert (Hb : (b <? 0)%Z = false) by (apply Z.ltb_ge; lia).
  rewrite Ha, Hb.
  destruct (Z_lt_le_dec a len) as [Hlt|Hge].
  - rewrite (Z.min_l a len) by lia.
    destruct (Z_lt_le_dec b len) as [Hblt|Hbge].
    + now rewrite (Z.min_l b len) by lia.
    + rewrite (Z.min_r b len) by lia.
      rewrite !firstn_all2; [reflexivity| |];
        rewrite length_skipn; unfold len; lia.
  - rewrite (Z.min_r a len), (Z.min_r b len) by lia.
    rewrite Z.sub_diag. simpl.
    rewrite (skipn_all2 items) by (unfold len in Hge; lia).
    now rewrite firstn_nil.
Qed.

Lemma firstn_plus {A : Type} (a b : nat) (l : list A) :
  firstn (a + b) l = firstn a l ++ firstn b (skipn a l).
Proof.
  revert l. induction a as [|a IH]; intros l; simpl; [reflexivity|].
  destruct l as [|x l]; simpl; [now rewrite firstn_nil|].
  now rewrite IH.
Qed.

Lemma paginate_rows {A : Type} (items : list A) (page per_page : Z) :
  (1 <= page)%Z -> (0 <= per_page)%Z ->
  fst (Search.paginate items page per_page)
  = page_rows items (Z.to_nat per_page) (Z.to_nat page).
Proof.
  intros Hp Hpp. unfold Search.paginate, page_rows. simpl.
  rewrite slice_nonneg by nia. f_equal.
  - f_equal. lia.
  - f_equal. rewrite Z2Nat.inj_mul by lia.
    rewrite Z2Nat.inj_sub by lia. reflexivity.
Qed.

Lemma pages_up_to {A : Type} (items : list A) (k m : nat) :
  List.concat (map (page_rows items k) (seq 1 m)) = firstn (m * k) items.
Proof.
  induction m as [|m IH]; [reflexivity|].
  rewrite seq_S, map_app, concat_app, IH.
  assert (E : page_rows items k (1 + m) = firstn k (skipn (m * k) items)).
  { unfold page_rows. do 3 f_equal. lia. }
  cbn [map List.concat]. rewrite E, app_nil_r.
  replace (S m * k)%nat with (m * k + k)%nat by lia.
  now rewrite firstn_plus.
Qed.

Lemma ceil_div_bounds (n per_page : Z) :
  (0 < per_page)%Z ->
  (n <= Search.ceil_div n per_page * per_page
   /\ (Search.ceil_div n per_page - 1) * per_page < n)%Z.
Proof.
  intros Hpp. unfold Search.ceil_div.
  pose proof (Z.div_mod (n + per_page - 1) per_page ltac:(lia)) as Hdm.
  pose proof (Z.mod_pos_bound (n + per_page - 1) per_page Hpp) as Hmod.
  nia.
Qed.

(** X21. The pages of [paginate] split the items: pages 1 to
    [ceil(total / per_page)] concatenated are the items, every page has at
    most [per_page] items, all pages before the last are full, and a page
    has items exactly when its number is at most the number of pages. *)
Theorem pages_cover_the_items {A : Type} (items : list A) (per_page : Z) :
  (0 < per_page)%Z ->
  let total_pages :=
    Search.ceil_div (Z.of_nat (List.length items)) per_page in
  List.concat
    (map (fun p => fst (Search.paginate items (Z.of_nat p) per_page))
       (seq 1 (Z.to_nat total_pages)))
  = items
  /\ (forall page, (1 <= page)%Z ->
        snd (Search.paginate items page per_page) = List.length items
        /\ (List.length (fst (Search.paginate items page per_page))
            <= Z.to_nat per_page)%nat
        /\ (fst (Search.paginate items page per_page) <> []
            <-> (page <= total_pages)%Z)
        /\ ((page < total_pages)%Z ->
              List.length (fst (Search.paginate items page per_page))
              = Z.to_nat per_page)).
Proof.
  intros Hpp total_pages. subst total_pages.
  set (n := Z.of_nat (List.length items)).
  set (total_pages := Search.ceil_div n per_page).
  destruct (ceil_div_bounds n per_page Hpp) as [Hup Hlow].
  fold total_pages in Hup, Hlow.
  assert (Hn : (0 <= n)%Z) by (unfold n; lia).
  assert (Htp : (0 <= total_pages)%Z).
  { destruct (Z_le_gt_dec 0 total_pages) as [H|H]; [assumption|].
    assert (total_pages * per_page < 0)%Z by (apply Z.mul_neg_pos; lia).
    lia. }
  split.
  - rewrite (map_ext_in _ (page_rows items (Z.to_nat per_page))).
    + rewrite pages_up_to. apply firstn_all2. unfold n in Hup. nia.
    + intros p Hp. apply in_seq in Hp.
      rewrite paginate_rows by lia. now rewrite Nat2Z.id.
  - intros page Hpage. split; [reflexivity|].
    rewrite paginate_rows by lia. unfold page_rows.
    set (k := Z.to_nat per_page). set (p := Z.to_nat page).
    assert (Hk : Z.of_nat k = per_page) by (unfold k; lia).
    assert (Hp : Z.of_nat p = page) by (unfold p; lia).
    split; [rewrite length_firstn; lia|]. split.
    + split.
      * intros Hne.
        destruct (Z_le_gt_dec page total_pages) as [Hle|Hgt]; [assumption|].
        exfalso. apply Hne. rewrite skipn_all2; [apply firstn_nil|].
        unfold n in Hup. nia.
      * intros Hle Hnil.
        assert (Hlen : List.length
                         (firstn k (skipn ((p - 1) * k) items)) = O)
          by now rewrite Hnil.
        rewrite length_firstn, length_skipn in Hlen. unfold n in Hlow. nia.
    + intros Hlt. rewrite length_firstn, length_skipn.
      unfold n in Hlow. nia.
Qed.

Lemma pages_cover_the_items_witness :
  List.concat
    (map (fun p => fst (Search.paginate [1; 2; 3; 4; 5]%nat (Z.of_nat p) 2))
       (seq 1 (Z.to_nat (Search.ceil_div 5 2))))
  = [1; 2; 3; 4; 5]%nat.
Proof.
  apply (pages_cover_the_items [1; 2; 3; 4; 5]%nat 2). reflexivity.
Defined.

(** ** The results page *)

Lemma In_firstn {A : Type} (n : nat) (l : list A) (x : A) :
  In x (firstn n l) -> In x l.
Proof.
  intros H. rewrite <- (firstn_skipn n l). apply in_or_app. now left.
Qed.

Lemma In_skipn {A : Type} (n : nat) (l : list A) (x : A) :
  In x (skipn n l) -> In x l.
Proof.
  intros H. rewrite <- (firstn_skipn n l). apply in_or_app. now right.
Qed.

Section ResultsPageFacts.

Variable lower : string -> string.

Lemma results_page_fields (e : Search.Entry) (f : string) (page : Z) :
  let cs := Search.clips e in
  let filtered :=
    if String.eqb (lower f) "all" then cs
    else filter
           (fun c => String.eqb
                       (Search.get_computed_confidence (Search.score c))
                       (lower f)) cs in
  let p := Search.results_page lower e f page in
  Search.all_count p = List.length cs
  /\ Search.high_count p = Search.count_label "high" cs
  /\ Search.medium_count p = Search.count_label "medium" cs
  /\ Search.low_count p = Search.count_label "low" cs
  /\ Search.page_results p = fst (Search.paginate filtered page 50)
  /\ Search.filtered_total p = List.length filtered
  /\ Search.total_pages p
     = Search.ceil_div (Z.of_nat (List.length filtered)) 50
  /\ Search.has_previous p = (1 <? page)%Z
  /\ Search.has_next p = (page <? Search.total_pages p)%Z.
Proof. cbv zeta. unfold Search.results_page. cbn. repeat split. Qed.

(** X19. On the results page the counts of the options high, medium
    and low add up to the count of all clips; the number of results under
    an option is the count shown for it; a filter other than all, high,
    medium or low shows nothing; and every clip shown is a clip of the
    query with the label of the filter. *)
Theorem filter_counts (e : Search.Entry) (f : string) (page : Z) :
  let p := Search.results_page lower e f page in
  (Search.high_count p + Search.medium_count p + Search.low_count p)%nat
  = Search.all_count p
  /\ (lower f = "all" -> Search.filtered_total p = Search.all_count p)
  /\ (lower f = "high" -> Search.filtered_total p = Search.high_count p)
  /\ (lower f = "medium" -> Search.filtered_total p = Search.medium_count p)
  /\ (lower f = "low" -> Search.filtered_total p = Search.low_count p)
  /\ (lower f <> "all" -> lower f <> "high" -> lower f <> "medium" ->
      lower f <> "low" ->
      Search.filtered_total p = O /\ Search.page_results p = []
      /\ Search.total_pages p = 0%Z)
  /\ (forall c, In c (Search.page_results p) ->
        In c (Search.clips e)
        /\ (lower f <> "all" ->
            Search.get_computed_confidence (Search.score c) = lower f)).
Proof.
  destruct (results_page_fields e f page)
    as [Hall [Hh [Hm [Hl [Hres [Htot [Htp _]]]]]]].
  cbv zeta. rewrite Hall, Hh, Hm, Hl, Htot, Hres, Htp.
  split; [apply count_labels|].
  split; [intros ->; reflexivity|].
  split; [intros ->; reflexivity|].
  split; [intros ->; reflexivity|].
  split; [intros ->; reflexivity|].
  split.
  - intros H0 H1 H2 H3.
    apply String.eqb_neq in H0. rewrite H0.
    rewrite no_other_label by assumption.
    split; [reflexivity|]. split; [|reflexivity].
    unfold Search.paginate, Search.slice. cbn [fst].
    now rewrite skipn_nil, firstn_nil.
  - intros c Hc.
    assert (Hsub : forall (l : list Search.Clip) x,
              In x (fst (Search.paginate l page 50)) -> In x l).
    { intros l x Hx. unfold Search.paginate, Search.slice in Hx. simpl in Hx.
      apply In_firstn in Hx. now apply In_skipn in Hx. }
    apply Hsub in Hc. destruct (String.eqb (lower f) "all") eqn:E.
    + split; [assumption|]. apply String.eqb_eq in E. congruence.
    + apply filter_In in Hc. destruct Hc as [Hin Hlab].
      split; [assumption|]. intros _. now apply String.eqb_eq.
Qed.

(** X20. The links of the results page: "Next" is offered exactly
    when the next page has results, in which case the page shown is full
    (50 clips) and "Skip to End" leads to a page with results; "Previous"
    exactly from page 2 on; and a page has results exactly when its number
    is at most the number of pages. *)
Theorem navigation_links (e : Search.Entry) (f : string) (page : Z) :
  (1 <= page)%Z ->
  let p := Search.results_page lower e f page in
  let p_next := Search.results_page lower e f (page + 1) in
  let p_last := Search.results_page lower e f (Search.total_pages p) in
  (Search.has_next p = true <-> Search.page_results p_next <> [])
  /\ (Search.has_next p = true ->
        List.length (Search.page_results p) = 50%nat
        /\ Search.page_results p_last <> [])
  /\ (Search.has_previous p = true <-> (2 <= page)%Z)
  /\ (Search.page_results p <> [] <-> (page <= Search.total_pages p)%Z)
  /\ (List.length (Search.page_results p) <= 50)%nat
  /\ Search.total_pages p_next = Search.total_pages p.
Proof.
  intros Hpage.
  destruct (results_page_fields e f page)
    as [_ [_ [_ [_ [Hres [_ [Htp [Hprev Hnext]]]]]]]].
  destruct (results_page_fields e f (page + 1))
    as [_ [_ [_ [_ [Hres' [_ [Htp' _]]]]]]].
  cbv zeta in *. rewrite Hnext, Hprev, Hres, Hres'.
  set (filtered := if String.eqb (lower f) "all" then Search.clips e
                   else filter _ (Search.clips e)) in *.
  set (tp := Search.total_pages (Search.results_page lower e f page)) in *.
  destruct (results_page_fields e f tp)
    as [_ [_ [_ [_ [Hres'' _]]]]].
  cbv zeta in Hres''. fold filtered in Hres''. rewrite Hres''.
  destruct (pages_cover_the_items filtered 50 ltac:(lia)) as [_ Hpages].
  cbv zeta in Hpages. rewrite <- Htp in Hpages.
  split; [|split; [|split; [|split; [|split]]]].
  - rewrite Z.ltb_lt.
    destruct (Hpages (page + 1)%Z ltac:(lia)) as [_ [_ [Hne _]]].
    rewrite Hne. lia.
  - rewrite Z.ltb_lt. intros Hlt.
    destruct (Hpages page Hpage) as [_ [_ [_ Hfull]]].
    destruct (Hpages tp ltac:(lia)) as [_ [_ [Hne _]]].
    split; [now apply Hfull | apply Hne; lia].
  - rewrite Z.ltb_lt. lia.
  - now destruct (Hpages page Hpage) as [_ [_ [Hne _]]].
  - destruct (Hpages page Hpage) as [_ [Hle _]]. exact Hle.
  - rewrite Htp'. symmetry. exact Htp.
Qed.

End ResultsPageFacts.

Lemma navigation_links_witness :
  Search.has_previous
    (Search.results_page (fun s => s) (Search.mkEntry clips_3 3) "all" 1) = true
  <-> (2 <= 1)%Z.
Proof.
  refine (proj1 (proj2 (proj2
    (navigation_links (fun s => s) (Search.mkEntry clips_3 3) "all" 1 _)))).
  lia.
Defined.

(** ** Gathering the clips *)

Lemma flatten_clips_flat_map (grouped : list Search.Item) :
  Search.flatten_clips grouped = flat_map clips_of grouped.
Proof.
  unfold Search.flatten_clips.
  assert (H : forall acc,
            fold_left
              (fun flat item =>
                 match item with
                 | Search.Grouped clips => flat ++ clips
                 | Search.Single c => flat ++ [c]
                 end) grouped acc
            = acc ++ flat_map clips_of grouped).
  { induction grouped as [|item g IH]; intros acc; simpl.
    - now rewrite app_nil_r.
    - rewrite IH. destruct item; simpl; now rewrite <- app_assoc. }
  apply H.
Qed.

Lemma insert_clip_perm (c : Search.Clip) (l : list Search.Clip) :
  Permutation (c :: l) (Search.insert_clip c l).
Proof.
  induction l as [|d l IH]; simpl; [reflexivity|].
  destruct (Qle_bool (Search.score d) (Search.score c)); [reflexivity|].
  rewrite perm_swap. now apply perm_skip.
Qed.

Lemma insert_clip_sorted (c : Search.Clip) (l : list Search.Clip) :
  StronglySorted not_below l -> StronglySorted not_below (Search.insert_clip c l).
Proof.
  induction 1 as [|d l Hs IH Hd]; simpl.
  - repeat constructor.
  - destruct (Qle_bool (Search.score d) (Search.score c)) eqn:E.
    + apply Qle_bool_iff in E. constructor; [now constructor|].
      constructor; [exact E|]. rewrite Forall_forall in *. intros x Hx.
      unfold not_below in *. specialize (Hd x Hx). lra.
    + constructor; [assumption|].
      assert (Hlt : Search.score c < Search.score d).
      { apply Qnot_le_lt. intros H. apply Qle_bool_iff in H. congruence. }
      rewrite Forall_forall in *. intros x Hx.
      apply (Permutation_in _ (Permutation_sym (insert_clip_perm c l))) in Hx.
      destruct Hx as [<-|Hx]; [unfold not_below; lra | now apply Hd].
Qed.

Lemma insert_clip_with_score (s : Q) (c : Search.Clip) (l : list Search.Clip) :
  with_score s (Search.insert_clip c l) = with_score s (c :: l).
Proof.
  unfold with_score. induction l as [|d l IH]; [reflexivity|].
  cbn [Search.insert_clip].
  destruct (Qle_bool (Search.score d) (Search.score c)) eqn:E; [reflexivity|].
  assert (Hlt : Search.score c < Search.score d).
  { apply Qnot_le_lt. intros H. apply Qle_bool_iff in H. congruence. }
  cbn [filter] in *. rewrite IH.
  destruct (Qeq_bool (Search.score c) s) eqn:Ec; [|reflexivity].
  destruct (Qeq_bool (Search.score d) s) eqn:Ed; [|reflexivity].
  apply Qeq_bool_eq in Ec, Ed. exfalso. lra.
Qed.

Lemma sort_by_score_is_stable_parts (l : list Search.Clip) :
  StronglySorted not_below (Search.sort_by_score l)
  /\ Permutation l (Search.sort_by_score l).
Proof.
  unfold Search.sort_by_score. split.
  - induction l as [|c l IH]; simpl; [constructor|].
    now apply insert_clip_sorted.
  - induction l as [|c l IH]; simpl; [constructor|].
    rewrite <- insert_clip_perm. now apply perm_skip.
Qed.

(** X22. The sort of [gather_all_clips] puts the clips in
    descending order of score, keeps every clip (a permutation), and keeps
    clips of equal score in their order. *)
Theorem sort_by_score_is_stable (l : list Search.Clip) :
  StronglySorted not_below (Search.sort_by_score l)
  /\ Permutation l (Search.sort_by_score l)
  /\ (forall s, with_score s (Search.sort_by_score l) = with_score s l).
Proof.
  destruct (sort_by_score_is_stable_parts l) as [Hs Hp].
  split; [exact Hs|]. split; [exact Hp|].
  clear Hs Hp. unfold Search.sort_by_score.
  intros s. induction l as [|c l IH]; simpl; [reflexivity|].
  rewrite insert_clip_with_score. unfold with_score in *. cbn [filter].
  now rewrite IH.
Qed.

Lemma follow_pages_extends (client : Search.Client) (fuel : nat) :
  forall results acc all,
    Search.follow_pages fuel client results acc = Some all ->
    exists fetched, all = acc ++ fetched.
Proof.
  induction fuel as [|fuel IH]; intros results acc all H; simpl in H.
  - destruct (Search.next_token results); [discriminate|].
    inversion H. exists []. now rewrite app_nil_r.
  - destruct (Search.next_token results) as [token|].
    + destruct (Search.by_page_token client token) as [r'|].
      * apply IH in H. destruct H as [fetched ->].
        eexists. now rewrite <- app_assoc.
      * inversion H. exists []. now rewrite app_nil_r.
    + inversion H. exists []. now rewrite app_nil_r.
Qed.

Lemma follow_pages_more_fuel (client : Search.Client) (fuel : nat) :
  forall results acc all fuel',
    Search.follow_pages fuel client results acc = Some all ->
    (fuel <= fuel')%nat ->
    Search.follow_pages fuel' client results acc = Some all.
Proof.
  induction fuel as [|fuel IH]; intros results acc all fuel' H Hle.
  - simpl in H. destruct (Search.next_token results) eqn:E; [discriminate|].
    destruct fuel'; simpl; now rewrite E.
  - destruct fuel' as [|fuel']; [lia|]. simpl in *.
    destruct (Search.next_token results) as [token|]; [|assumption].
    destruct (Search.by_page_token client token) as [r'|]; [|assumption].
    apply IH; [assumption | lia].
Qed.

Lemma follow_pages_ends (client : Search.Client) (results : Search.Results)
    (n : nat) :
  ends_within client results n ->
  forall acc, exists all, Search.follow_pages n client results acc = Some all.
Proof.
  induction 1 as [results n Hn | results token n Ht Hf
                  | results token results' n Ht Hf _ IH]; intros acc.
  - exists acc. destruct n; simpl; now rewrite Hn.
  - exists acc. simpl. now rewrite Ht, Hf.
  - simpl. rewrite Ht, Hf. apply IH.
Qed.



(** ** The cache of search results *)

Section CacheFacts.

Variable lower : string -> string.

(** X24. The cache of [search_results]: a request changes the cache
    at most at its query; after a rendered answer the query is cached and
    every later request for it is rendered from the cached clips, whatever
    the provider answers; a failed request (500) leaves the cache as it
    was; a cached query is always rendered. *)
Theorem cache_serves_repeats (fuel : nat) (client : Search.Client)
    (cache cache' : Search.Cache) (q f : string) (page : Z)
    (outcome : Search.Outcome) :
  Search.search_results lower fuel client cache q f page = (outcome, cache') ->
  (forall q', q' <> q -> cache' q' = cache q')
  /\ (forall p, outcome = Search.Rendered p ->
        exists e,
          cache' q = Some e
          /\ p = Search.results_page lower e f page
          /\ (cache q = None ->
                Search.gather_all_clips fuel client q
                = Search.Clips (Search.clips e) (Search.total_hits e))
          /\ forall fuel' client' f' page',
               Search.search_results lower fuel' client' cache' q f' page'
               = (Search.Rendered (Search.results_page lower e f' page'),
                  cache'))
  /\ (forall status, outcome = Search.Failed status ->
        status = 500%nat /\ cache' = cache /\ cache q = None
        /\ Search.query client q = None)
  /\ (forall e, cache q = Some e ->
        cache' = cache
        /\ outcome = Search.Rendered (Search.results_page lower e f page)).
Proof.
  unfold Search.search_results. intros H.
  destruct (cache q) as [e|] eqn:Ec.
  - inversion H; subst outcome cache'. clear H.
    split; [reflexivity|]. split; [|split].
    + intros p Hp. inversion Hp; subst p. exists e.
      split; [exact Ec|]. split; [reflexivity|]. split; [discriminate|].
      intros fuel' client' f' page'. now rewrite Ec.
    + intros status Hs. discriminate.
    + intros e' He'. inversion He'; subst e'. now split.
  - destruct (Search.gather_all_clips fuel client q) as [status| |cs hits] eqn:Eg;
      inversion H; subst outcome cache'; clear H.
    + split; [reflexivity|]. split; [intros p Hp; discriminate|].
      split; [|intros e He; discriminate].
      intros s Hs. inversion Hs; subst s.
      unfold Search.gather_all_clips in Eg.
      destruct (Search.query client q) as [first|].
      * destruct (Search.follow_pages fuel client first _); discriminate.
      * inversion Eg. auto.
    + split; [reflexivity|]. split; [intros p Hp; discriminate|].
      split; [intros s Hs; discriminate | intros e He; discriminate].
    + split; [|split; [|split]].
      * intros q' Hne. unfold Search.store_entry.
        apply String.eqb_neq in Hne. now rewrite Hne.
      * intros p Hp. inversion Hp; subst p. exists (Search.mkEntry cs hits).
        assert (Hq : Search.store_entry cache q (Search.mkEntry cs hits) q
                     = Some (Search.mkEntry cs hits)).
        { unfold Search.store_entry. now rewrite String.eqb_refl. }
        split; [exact Hq|]. split; [reflexivity|].
        split; [reflexivity|]. intros fuel' client' f' page'.
        now rewrite Hq.
      * intros s Hs. discriminate.
      * intros e He. discriminate.
Qed.

End CacheFacts.

Lemma cache_serves_repeats_witness :
  snd (Search.search_results (fun s => s) 1 two_pages empty_cache
         "man" "all" 1) "dog"
  = empty_cache "dog".
Proof.
  refine (proj1
    (cache_serves_repeats (fun s => s) 1 two_pages empty_cache
       (snd (Search.search_results (fun s => s) 1 two_pages empty_cache
               "man" "all" 1))
       "man" "all" 1
       (fst (Search.search_results (fun s => s) 1 two_pages empty_cache
               "man" "all" 1))
       _) "dog" _).
  - apply surjective_pairing.
  - discriminate.
Defined.
